(** * Abbott-Firestone material-ratio curve (surfalize/abbottfirestone.py)

    A shallow embedding of [AbbottFirestoneCurve]: the construction of the
    material-ratio curve from a height map, the equivalence-line search and
    the derived parameters Sk, Smr, Smc, Smr1, Smr2, Spk and Svk.

    Numbers.  NumPy's float64 values are modelled by [num]: an exact
    rational, plus infinity, minus infinity or NaN.  The arithmetic on the
    three special values follows IEEE 754 as NumPy applies it (division by
    zero yields an infinity or NaN and does not raise); finite values are
    computed exactly, so rounding is not modelled, and zero carries no sign.

    Exceptions.  A Python exception (ValueError of [np.histogram] for
    [bins < 1], IndexError of an out-of-range subscript) is [None].

    Limits of the exact model.  In float64 [np.histogram] also raises
    ValueError when the range of the data overflows or when its bin edges
    do not come out strictly increasing (a bin narrower than the spacing of
    the floats around the data).  With exact rationals the edges are always
    distinct, so this error has no counterpart here: the theorems below say
    what the curve is when [np.histogram] returns one, and where one of them
    states that the construction succeeds the height map is bounded so that
    the float64 edges are distinct as well. *)

From Stdlib Require Import QArith Qround Qminmax Qabs ZArith List Bool Lia Lqa.
From Stdlib Require Import Sorting.Sorted Sorting.Permutation.
Import ListNotations.

Open Scope Q_scope.

(* ================================================================= *)
(** ** Extended rationals *)

Inductive num : Type :=
| Fin (q : Q)
| PInf
| NInf
| NaN.

(** The same value: rationals up to [Qeq], special values by name. *)
Definition num_eq (a b : num) : Prop :=
  match a, b with
  | Fin p, Fin q => p == q
  | PInf, PInf => True
  | NInf, NInf => True
  | NaN, NaN => True
  | _, _ => False
  end.

Infix "=n=" := num_eq (at level 70, no associativity).

Definition is_nan (a : num) : bool :=
  match a with NaN => true | _ => false end.

Definition is_fin (a : num) : bool :=
  match a with Fin _ => true | _ => false end.

Definition Qltb (p q : Q) : bool :=
  match p ?= q with Lt => true | _ => false end.

Definition Qeqb (p q : Q) : bool :=
  match p ?= q with Eq => true | _ => false end.

Definition nneg (a : num) : num :=
  match a with
  | Fin q => Fin (- q)
  | PInf => NInf
  | NInf => PInf
  | NaN => NaN
  end.

Definition nadd (a b : num) : num :=
  match a, b with
  | NaN, _ | _, NaN => NaN
  | PInf, NInf | NInf, PInf => NaN
  | PInf, _ | _, PInf => PInf
  | NInf, _ | _, NInf => NInf
  | Fin p, Fin q => Fin (p + q)
  end.

Definition nsub (a b : num) : num := nadd a (nneg b).

(** An infinity scaled by the rational [q]: NaN for zero. *)
Definition inf_scaled (positive : bool) (q : Q) : num :=
  match q ?= 0 with
  | Eq => NaN
  | Gt => if positive then PInf else NInf
  | Lt => if positive then NInf else PInf
  end.

Definition nmul (a b : num) : num :=
  match a, b with
  | NaN, _ | _, NaN => NaN
  | Fin p, Fin q => Fin (p * q)
  | PInf, Fin q | Fin q, PInf => inf_scaled true q
  | NInf, Fin q | Fin q, NInf => inf_scaled false q
  | PInf, PInf | NInf, NInf => PInf
  | PInf, NInf | NInf, PInf => NaN
  end.

(** NumPy's true division: [x / 0] is an infinity of the sign of [x], and
    [0 / 0] is NaN. *)
Definition ndiv (a b : num) : num :=
  match a, b with
  | NaN, _ | _, NaN => NaN
  | Fin p, Fin q =>
      match q ?= 0 with
      | Eq => inf_scaled true p
      | _ => Fin (p / q)
      end
  | Fin _, PInf | Fin _, NInf => Fin 0
  | PInf, Fin q => if Qltb q 0 then NInf else PInf
  | NInf, Fin q => if Qltb q 0 then PInf else NInf
  | _, _ => NaN
  end.

Definition nabs (a : num) : num :=
  match a with
  | Fin q => Fin (Qabs q)
  | PInf | NInf => PInf
  | NaN => NaN
  end.

(** [a > b]; false as soon as one side is NaN. *)
Definition gtb (a b : num) : bool :=
  match a, b with
  | NaN, _ | _, NaN => false
  | Fin p, Fin q => Qltb q p
  | PInf, PInf => false
  | PInf, _ => true
  | _, PInf => false
  | NInf, _ => false
  | Fin _, NInf => true
  end.

(** [a >= b]; false as soon as one side is NaN. *)
Definition geb (a b : num) : bool :=
  match a, b with
  | NaN, _ | _, NaN => false
  | _, _ => negb (gtb b a)
  end.

Declare Scope num_scope.
Delimit Scope num_scope with num.
Bind Scope num_scope with num.
Infix "+" := nadd : num_scope.
Infix "-" := nsub : num_scope.
Infix "*" := nmul : num_scope.
Infix "/" := ndiv : num_scope.

Definition of_Z (z : Z) : num := Fin (inject_Z z).

(* ================================================================= *)
(** ** NumPy primitives used by the constructor *)

Module Np.

(** [a.min()] and [a.max()] of a non-empty array [x :: l]. *)
Definition amin (x : Q) (l : list Q) : Q := fold_left Qmin l x.
Definition amax (x : Q) (l : list Q) : Q := fold_left Qmax l x.

(** The range of [np.histogram]: (0, 1) for an empty array, otherwise
    (min, max), widened by one half on each side when min = max. *)
Definition outer_edges (a : list Q) : Q * Q :=
  match a with
  | [] => (0, 1)
  | x :: l =>
      let first_edge := amin x l in
      let last_edge := amax x l in
      if Qeqb first_edge last_edge
      then (first_edge - (1 # 2), last_edge + (1 # 2))
      else (first_edge, last_edge)
  end.

(** [np.linspace(start, stop, n + 1)] for [n >= 1]: [arange * step + start],
    the last sample overwritten by [stop]. *)
Definition linspace (start stop : Q) (n : nat) : list Q :=
  let step := (stop - start) / inject_Z (Z.of_nat n) in
  map (fun k => inject_Z (Z.of_nat k) * step + start) (seq 0 n) ++ [stop].

(** The bin of a sample: the scaled offset truncated to an integer, the
    right edge of the range counted in the last bin.  (The two corrections
    NumPy applies afterwards only repair float rounding against the edges.) *)
Definition bin_index (first_edge last_edge : Q) (n : nat) (v : Q) : Z :=
  let f := ((v - first_edge) / (last_edge - first_edge)) * inject_Z (Z.of_nat n) in
  let i := Qfloor f in
  if (i =? Z.of_nat n)%Z then (i - 1)%Z else i.

(** [np.bincount(indices, minlength=n)] for indices below [n]. *)
Definition bincount (indices : list Z) (n : nat) : list Z :=
  map (fun k => Z.of_nat (count_occ Z.eq_dec indices (Z.of_nat k))) (seq 0 n).

(** [np.histogram(a, bins=n)], [None] for the ValueError of [n < 1].  The
    ValueError for edges that are not strictly increasing in float64 cannot
    occur with exact edges and is not modelled. *)
Definition histogram (a : list Q) (bins : Z) : option (list Z * list Q) :=
  if (bins <? 1)%Z then None
  else
    let n := Z.to_nat bins in
    let '(first_edge, last_edge) := outer_edges a in
    let keep := filter (fun v => Qle_bool first_edge v && Qle_bool v last_edge) a in
    let indices := map (bin_index first_edge last_edge n) keep in
    Some (bincount indices n, linspace first_edge last_edge n).

(** [np.cumsum], as a running sum from [acc]. *)
Fixpoint cumsum_from (acc : Z) (l : list Z) : list Z :=
  match l with
  | [] => []
  | x :: r => (acc + x)%Z :: cumsum_from (acc + x)%Z r
  end.

Definition cumsum (l : list Z) : list Z := cumsum_from 0%Z l.

(** [a.sum()] of an integer array. *)
Definition sum (l : list Z) : Z := fold_left Z.add l 0%Z.

End Np.

(* ================================================================= *)
(** ** Curve construction *)

Definition EQUIVALENCE_LINE_WIDTH : num := Fin 40.

(** [_get_material_ratio_curve]: the reversed bin edges and the cumulative
    material ratio, 100 prepended. *)
Definition _get_material_ratio_curve (data : list Q) (nbins : Z)
  : option (list num * list num) :=
  match Np.histogram data nbins with
  | None => None
  | Some (hist0, height0) =>
      let hist := rev hist0 in
      let height := rev height0 in
      let total := Np.sum hist in
      let material_ratio :=
        Fin 100 :: map (fun c => (of_Z c / of_Z total * Fin 100)%num) (Np.cumsum hist) in
      Some (map Fin height, material_ratio)
  end.

(* ================================================================= *)
(** ** The helpers of surfalize/mathutils.py *)

(** The three helpers the class imports; the class is modelled over any
    implementation of them. *)
Record mathutils : Type := {
  interp1d : list num -> list num -> num -> num;
  argclosest : num -> list num -> nat;
  trapezoid : list num -> list num -> num
}.

Module Mathutils.

(** Modelled from the spec: surfalize/mathutils.py is not part of the
    sources at hand.  [interp1d xs ys] is the piecewise-linear interpolant
    through the points [(xs[i], ys[i])] taken in ascending order of [xs],
    clamped to the boundary value outside the sampled range.  This is the
    insertion step of the (stable) sort that orders the points. *)
Fixpoint insert_pt (p : num * num) (l : list (num * num)) : list (num * num) :=
  match l with
  | [] => [p]
  | q :: r => if geb (fst q) (fst p) then p :: l else q :: insert_pt p r
  end.

(** Modelled from the spec: the points of [interp1d] in ascending order of
    abscissa, points of equal abscissa in their given order. *)
Definition sort_pts (l : list (num * num)) : list (num * num) :=
  fold_right insert_pt [] l.

(** Modelled from the spec: the value of the interpolant of [interp1d] on
    sorted points: the first ordinate at or below the first abscissa, the
    last one at or above the last abscissa, linear on the segment that
    holds [x] otherwise. *)
Fixpoint interp_pts (pts : list (num * num)) (x : num) : num :=
  match pts with
  | [] => NaN
  | (x0, y0) :: rest =>
      match rest with
      | [] => y0
      | (x1, y1) :: _ =>
          if gtb x1 x
          then (if geb x0 x then y0
                else (y0 + (x - x0) * (y1 - y0) / (x1 - x0))%num)
          else interp_pts rest x
      end
  end.

(** Modelled from the spec: [interp1d(xdata, ydata)], the helper of
    mathutils.py that [Smr], [Smc] and the search call.  The spec asks for
    a monotone interpolant and leaves the policy outside the sampled range
    open, suggesting to clamp; the piecewise-linear interpolant, clamped,
    is taken here, and NaN is propagated. *)
Definition interp1d (xs ys : list num) (x : num) : num :=
  if is_nan x then NaN else interp_pts (sort_pts (combine xs ys)) x.

(** Modelled from the spec: the linear scan of [argclosest], a helper of
    mathutils.py: the least element so far and its index, replaced only by
    a strictly smaller element, so that the first occurrence wins ties. *)
Fixpoint argmin_from (l : list num) (i : nat) (best : num) (ibest : nat) : nat :=
  match l with
  | [] => ibest
  | d :: r =>
      if gtb best d then argmin_from r (S i) d i
      else argmin_from r (S i) best ibest
  end.

(** Modelled from the spec: the argmin used by [argclosest]; index 0 for an
    empty array. *)
Definition argmin (l : list num) : nat :=
  match l with
  | [] => 0%nat
  | d :: r => argmin_from r 1 d 0
  end.

(** Modelled from the spec: [argclosest(x, y)] of mathutils.py, the index
    of the element of [y] nearest to [x]: the argmin of the absolute
    difference between the target and each element. *)
Definition argclosest (x : num) (y : list num) : nat :=
  argmin (map (fun e => nabs (e - x)%num) y).

(** Modelled from the spec: [trapezoid] of mathutils.py, the composite
    trapezoid rule over the pairs in their given order, the first array
    being the integration variable. *)
Fixpoint trapezoid (xs ys : list num) : num :=
  match xs, ys with
  | x0 :: ((x1 :: _) as xr), y0 :: ((y1 :: _) as yr) =>
      ((x1 - x0) * (y0 + y1) / Fin 2 + trapezoid xr yr)%num
  | _, _ => Fin 0
  end.

(** The helpers as modelled. *)
Definition impl : mathutils := Build_mathutils interp1d argclosest trapezoid.

End Mathutils.

(* ================================================================= *)
(** ** The class *)

Record AbbottFirestoneCurve : Type := {
  nbins : Z;
  height : list num;
  material_ratio : list num;
  slope : num;
  intercept : num;
  y_upper : num;
  y_lower : num
}.

Section Class.

Variable M : mathutils.

(** The [for istart in range(len(self.material_ratio))] loop of
    [_calculate_equivalence_line], over the indices still to visit, with
    the loop state [(max_slope, istart_final)]. *)
Fixpoint search_loop (smc_fit : num -> num) (mr h : list num)
    (indices : list nat) (max_slope : num) (istart_final : nat)
  : option (num * nat) :=
  match indices with
  | [] => Some (max_slope, istart_final)
  | istart :: rest =>
      match nth_error mr istart with
      | None => None
      | Some m =>
          if gtb m (Fin 100 - EQUIVALENCE_LINE_WIDTH)%num
          then Some (max_slope, istart_final)                      (* break *)
          else
            let mr_shifted := (m + EQUIVALENCE_LINE_WIDTH)%num in
            if gtb mr_shifted (Fin 100)
            then search_loop smc_fit mr h rest max_slope istart_final (* continue *)
            else
              match nth_error h istart with
              | None => None
              | Some hi =>
                  let slope := ((smc_fit mr_shifted - hi) / EQUIVALENCE_LINE_WIDTH)%num in
                  if gtb slope max_slope
                  then search_loop smc_fit mr h rest slope istart
                  else search_loop smc_fit mr h rest max_slope istart_final
              end
      end
  end.

Definition equivalence_line_search (mr h : list num) : option (num * nat) :=
  search_loop (interp1d M mr h) mr h (seq 0 (length mr)) NInf 0.

(** [_calculate_equivalence_line]: (slope, intercept, y_upper, y_lower). *)
Definition _calculate_equivalence_line (mr h : list num)
  : option (num * num * num * num) :=
  match equivalence_line_search mr h with
  | None => None
  | Some (max_slope, istart_final) =>
      match nth_error h istart_final, nth_error mr istart_final with
      | Some hf, Some mf =>
          let intercept := (hf - max_slope * mf)%num in
          let y_upper := intercept in
          let y_lower := (max_slope * Fin 100 + intercept)%num in
          Some (max_slope, intercept, y_upper, y_lower)
      | _, _ => None
      end
  end.

(** The object state once [self.height] and [self.material_ratio] are set:
    the second assignment of [__init__]. *)
Definition with_curve (nbins : Z) (h mr : list num) : option AbbottFirestoneCurve :=
  match _calculate_equivalence_line mr h with
  | None => None
  | Some (s, i, yu, yl) =>
      Some {| nbins := nbins; height := h; material_ratio := mr;
              slope := s; intercept := i; y_upper := yu; y_lower := yl |}
  end.

(** [__init__]. *)
Definition __init__ (data : list Q) (nbins : Z) : option AbbottFirestoneCurve :=
  match _get_material_ratio_curve data nbins with
  | None => None
  | Some (h, mr) => with_curve nbins h mr
  end.

Definition Sk (self : AbbottFirestoneCurve) : num :=
  (y_upper self - y_lower self)%num.

Definition Smr (self : AbbottFirestoneCurve) (c : num) : num :=
  interp1d M (height self) (material_ratio self) c.

Definition Smc (self : AbbottFirestoneCurve) (mr : num) : num :=
  interp1d M (material_ratio self) (height self) mr.

Definition Smr1 (self : AbbottFirestoneCurve) : num := Smr self (y_upper self).

Definition Smr2 (self : AbbottFirestoneCurve) : num := Smr self (y_lower self).

(** The [area] of [Spk] and of [Svk]. *)
Definition Spk_area (self : AbbottFirestoneCurve) : num :=
  let idx := argclosest M (y_upper self) (height self) in
  trapezoid M (firstn idx (material_ratio self)) (firstn idx (height self)).

Definition Svk_area (self : AbbottFirestoneCurve) : num :=
  let idx := argclosest M (y_lower self) (height self) in
  trapezoid M (map (fun m => (Fin 100 - m)%num) (skipn idx (material_ratio self)))
              (skipn idx (height self)).

Definition Spk (self : AbbottFirestoneCurve) : num :=
  (Fin 2 * nabs (Spk_area self) / Smr1 self)%num.

Definition Svk (self : AbbottFirestoneCurve) : num :=
  (Fin 2 * nabs (Svk_area self) / (Fin 100 - Smr2 self))%num.

End Class.

Section Volumes.

Variable M : mathutils.

(** The defaults [p=10] and [q=80] of the volume parameters. *)
Definition default_p : num := Fin 10.
Definition default_q : num := Fin 80.

(** [Vmp(p)]. *)
Definition Vmp (self : AbbottFirestoneCurve) (p : num) : num :=
  let c := Smc M self p in
  let idx := argclosest M c (height self) in
  nabs (trapezoid M (firstn idx (material_ratio self)) (firstn idx (height self))
        / Fin 100)%num.

(** [Vmc(p, q)]. *)
Definition Vmc (self : AbbottFirestoneCurve) (p q : num) : num :=
  (nabs (trapezoid M
           (firstn (argclosest M (Smc M self q) (height self)) (material_ratio self))
           (firstn (argclosest M (Smc M self q) (height self)) (height self)))
   / Fin 100 - Vmp self p)%num.

(** [Vvv(q)]. *)
Definition Vvv (self : AbbottFirestoneCurve) (q : num) : num :=
  let idx := argclosest M (Smc M self q) (height self) in
  (nabs (trapezoid M (map (fun m => (Fin 100 - m)%num) (skipn idx (material_ratio self)))
                     (skipn idx (height self)))
   / Fin 100)%num.

(** [Vvc(p, q)]. *)
Definition Vvc (self : AbbottFirestoneCurve) (p q : num) : num :=
  let idx := argclosest M (Smc M self p) (height self) in
  (nabs (trapezoid M (map (fun m => (Fin 100 - m)%num) (skipn idx (material_ratio self)))
                     (skipn idx (height self)))
   / Fin 100 - Vvv self q)%num.

End Volumes.

(* ================================================================= *)
(** ** Names for the parts of the constructed curve *)

(** The bin edges and the bin counts [np.histogram] returns. *)
Definition edges_of (data : list Q) (nbins : Z) : list Q :=
  Np.linspace (fst (Np.outer_edges data)) (snd (Np.outer_edges data)) (Z.to_nat nbins).

Definition counts_of (data : list Q) (nbins : Z) : list Z :=
  let first_edge := fst (Np.outer_edges data) in
  let last_edge := snd (Np.outer_edges data) in
  Np.bincount
    (map (Np.bin_index first_edge last_edge (Z.to_nat nbins))
         (filter (fun v => Qle_bool first_edge v && Qle_bool v last_edge) data))
    (Z.to_nat nbins).

(** The material ratio computed from a cumulative count. *)
Definition ratio_of (total c : Z) : num := (of_Z c / of_Z total * Fin 100)%num.

(** The two sequences of the constructed curve. *)
Definition height_of (data : list Q) (nbins : Z) : list num :=
  map Fin (rev (edges_of data nbins)).

Definition material_ratio_of (data : list Q) (nbins : Z) : list num :=
  Fin 100 :: map (ratio_of (Np.sum (rev (counts_of data nbins))))
                 (Np.cumsum (rev (counts_of data nbins))).

(* ================================================================= *)
(** ** The properties of the specification, as it words them *)

(** A sequence that never decreases along increasing indices. *)
Definition non_decreasing (l : list num) : Prop :=
  forall i j, (i <= j < length l)%nat -> geb (nth j l NaN) (nth i l NaN) = true.

(** The same, from index [k] on. *)
Definition non_decreasing_from (k : nat) (l : list num) : Prop :=
  forall i j, (k <= i <= j /\ j < length l)%nat ->
              geb (nth j l NaN) (nth i l NaN) = true.

(** A sequence that strictly descends along increasing indices. *)
Definition descending (l : list num) : Prop :=
  forall i j, (i < j < length l)%nat -> gtb (nth i l NaN) (nth j l NaN) = true.

(** The start indices the search examines: increasing order, up to the
    first index whose material ratio exceeds 100 - 40. *)
Fixpoint examined (mr : list num) (indices : list nat) : list nat :=
  match indices with
  | [] => []
  | i :: rest =>
      if gtb (nth i mr NaN) (Fin 100 - EQUIVALENCE_LINE_WIDTH)%num then []
      else i :: examined mr rest
  end.

(** The valid candidates: the examined indices, less those whose shifted
    ratio exceeds 100. *)
Definition valid_candidates (mr : list num) : list nat :=
  filter (fun i => negb (gtb (nth i mr NaN + EQUIVALENCE_LINE_WIDTH)%num (Fin 100)))
         (examined mr (seq 0 (length mr))).

(** The slope of the secant that starts at candidate [i]. *)
Definition candidate_slope (height_at_ratio : num -> num) (mr h : list num)
    (i : nat) : num :=
  ((height_at_ratio (nth i mr NaN + EQUIVALENCE_LINE_WIDTH) - nth i h NaN)
   / EQUIVALENCE_LINE_WIDTH)%num.

(** The best candidate so far, as a fold: a candidate replaces the current
    one when its slope is strictly greater. *)
Definition track (sl : nat -> num) (st : num * nat) (i : nat) : num * nat :=
  if gtb (sl i) (fst st) then (sl i, i) else st.

Definition tracked (sl : nat -> num) (cands : list nat) (st : num * nat) : num * nat :=
  fold_left (track sl) cands st.

(** [s] is the slope of candidate [i], it is the greatest slope among
    [cands], and every earlier candidate has a strictly smaller slope. *)
Definition first_maximal (sl : nat -> num) (cands : list nat) (s : num) (i : nat)
  : Prop :=
  In i cands /\ s = sl i /\
  (forall j, In j cands -> geb s (sl j) = true) /\
  (forall j, In j cands -> (j < i)%nat -> gtb s (sl j) = true).

(** The flat-surface scenario as the specification states it, for a height
    map [data] whose samples all equal [c]. *)
Definition flat_scenario (M : mathutils) (data : list Q) (c : Q) : Prop :=
  exists self,
    __init__ M data 10000 = Some self /\
    Sk self =n= Fin 0 /\
    Forall (fun m => m =n= Fin 100) (material_ratio self) /\
    Forall (fun x => x =n= Fin c) (height self) /\
    Z.of_nat (length (height self)) = 10001%Z.

(** Executable checks on a sequence: every element finite; no element
    below an earlier one; no element above an earlier one. *)
Definition all_fin (l : list num) : bool := forallb is_fin l.

Fixpoint nondecreasingb (l : list num) : bool :=
  match l with
  | [] => true
  | x :: r => forallb (fun y => geb y x) r && nondecreasingb r
  end.

Fixpoint nonincreasingb (l : list num) : bool :=
  match l with
  | [] => true
  | x :: r => forallb (fun y => geb x y) r && nonincreasingb r
  end.

(** The distance of an element of [height] from the target. *)
Definition distance (target : num) (h : list num) (j : nat) : num :=
  nabs (nth j h NaN - target)%num.

(** [idx] is the first index of [h] nearest to [target]. *)
Definition first_nearest (target : num) (h : list num) (idx : nat) : Prop :=
  (idx < length h)%nat /\
  (forall j, (j < length h)%nat ->
             geb (distance target h j) (distance target h idx) = true) /\
  (forall j, (j < idx)%nat ->
             gtb (distance target h j) (distance target h idx) = true).

(** Absolute error of a round trip. *)
Definition within (tol : Q) (a b : num) : Prop :=
  match nabs (a - b)%num with
  | Fin e => e <= tol
  | _ => False
  end.

(** The round-trip property with tolerance [tol], at a ratio [x] and at a
    height [y]. *)
Definition round_trip_at (M : mathutils) (self : AbbottFirestoneCurve)
    (tol : Q) (x y : Q) : Prop :=
  within tol (Smr M self (Smc M self (Fin x))) (Fin x) /\
  within tol (Smc M self (Smr M self (Fin y))) (Fin y).

(** The same value, as a test. *)
Definition num_eqb (a b : num) : bool :=
  match a, b with
  | Fin p, Fin q => Qeqb p q
  | PInf, PInf | NInf, NInf | NaN, NaN => true
  | _, _ => false
  end.

(** [v] occurs exactly once in [l]. *)
Definition occurs_once (v : num) (l : list num) : bool :=
  Nat.eqb (length (filter (num_eqb v) l)) 1.

(** Finite points, as the interpolant sees them. *)
Definition lift (P : list (Q * Q)) : list (num * num) :=
  map (fun p => (Fin (fst p), Fin (snd p))) P.

(** Points in ascending order of their abscissa. *)
Definition x_sorted (P : list (Q * Q)) : Prop :=
  StronglySorted (fun p q => fst p <= fst q) P.

(** A curve with a core between two steeper ends, and the object state
    the class derives from it. *)
Definition sample_height : list num :=
  [Fin 10; Fin 8; Fin 5; Fin 4; Fin 3; Fin 0].

Definition sample_material_ratio : list num :=
  [Fin 0; Fin 2; Fin 10; Fin 50; Fin 90; Fin 100].

Definition sample_curve : AbbottFirestoneCurve :=
  {| nbins := 5;
     height := sample_height;
     material_ratio := sample_material_ratio;
     slope := Fin (-1 # 40);
     intercept := Fin (210 # 40);
     y_upper := Fin (210 # 40);
     y_lower := Fin (4400 # 1600) |}.

(** The number of samples at or above a level. *)
Definition count_at_or_above (data : list Q) (level : Q) : nat :=
  length (filter (fun v => Qle_bool level v) data).

(** The search loop with the test [mr_shifted > 100] and its [continue]
    taken out. *)
Fixpoint search_loop_without_skip (smc_fit : num -> num) (mr h : list num)
    (indices : list nat) (max_slope : num) (istart_final : nat)
  : option (num * nat) :=
  match indices with
  | [] => Some (max_slope, istart_final)
  | istart :: rest =>
      match nth_error mr istart with
      | None => None
      | Some m =>
          if gtb m (Fin 100 - EQUIVALENCE_LINE_WIDTH)%num
          then Some (max_slope, istart_final)
          else
            let mr_shifted := (m + EQUIVALENCE_LINE_WIDTH)%num in
            match nth_error h istart with
            | None => None
            | Some hi =>
                let slope := ((smc_fit mr_shifted - hi) / EQUIVALENCE_LINE_WIDTH)%num in
                if gtb slope max_slope
                then search_loop_without_skip smc_fit mr h rest slope istart
                else search_loop_without_skip smc_fit mr h rest max_slope istart_final
            end
      end
  end.

(** A change of the unit and of the origin of the heights. *)
Definition affine (k c : Q) (v : Q) : Q := k * v + c.

(* ================================================================= *)
(** ** The bars of [plot] *)

(** [bins[:-1] + np.diff(bins) / 2]: the middle of each bin. *)
Fixpoint bar_centres (bins : list num) : list num :=
  match bins with
  | b0 :: ((b1 :: _) as rest) => (b0 + (b1 - b0) / Fin 2)%num :: bar_centres rest
  | _ => []
  end.

(** The arguments [plot] passes to [ax.barh]: the positions of the bars,
    their lengths [hist / hist.sum() * 100] and their common thickness
    [(data.max() - data.min()) / nbars].  [None] stands for the ValueError
    of [np.histogram] ([nbars < 1]) or of [max] on an empty array. *)
Definition plot_bars (data : list Q) (nbars : Z)
  : option (list num * list num * num) :=
  match Np.histogram data nbars with
  | None => None
  | Some (hist0, bins0) =>
      let hist := rev hist0 in
      let bins := map Fin (rev bins0) in
      let y := bar_centres bins in
      let width := map (fun c => (of_Z c / of_Z (Np.sum hist) * Fin 100)%num) hist in
      match data with
      | [] => None
      | x :: l =>
          Some (y, width, ((Fin (Np.amax x l) - Fin (Np.amin x l)) / of_Z nbars)%num)
      end
  end.

(** The sum of a sequence of numbers. *)
Definition nsum (l : list num) : num := fold_right nadd (Fin 0) l.

(** Nodes [a] and [b] are neighbours in the ascending order of [xs]:
    [xs[a] < xs[b]], and every other element lies below [xs[a]] or above
    [xs[b]]. *)
Definition neighbours (xs : list num) (a b : nat) : bool :=
  gtb (nth b xs NaN) (nth a xs NaN) &&
  forallb (fun j => Nat.eqb j a || Nat.eqb j b
                    || gtb (nth a xs NaN) (nth j xs NaN)
                    || gtb (nth j xs NaN) (nth b xs NaN))
          (seq 0 (length xs)).

(** After its first element the sequence rises strictly: on a constructed
    curve, every bin below the top one holds at least one sample. *)
Definition rising_after_first (mr : list num) : bool :=
  forallb (fun i => gtb (nth (S i) mr NaN) (nth i mr NaN)) (seq 1 (length mr - 2)).

(* ================================================================= *)
(** ** Order and arithmetic facts *)

Lemma Qltb_true (p q : Q) : Qltb p q = true <-> p < q.
Proof.
  unfold Qltb. rewrite Qlt_alt. destruct (p ?= q); split; congruence.
Qed.

Lemma Qltb_false (p q : Q) : Qltb p q = false <-> q <= p.
Proof.
  split.
  - intros H. apply Qnot_lt_le. intros Hlt. apply Qltb_true in Hlt. congruence.
  - intros H. destruct (Qltb p q) eqn:E; auto.
    apply Qltb_true in E. exfalso. exact (Qlt_not_le _ _ E H).
Qed.

Lemma Qeqb_true (p q : Q) : Qeqb p q = true <-> p == q.
Proof.
  unfold Qeqb. rewrite Qeq_alt. destruct (p ?= q); split; congruence.
Qed.

Lemma Qeqb_false (p q : Q) : Qeqb p q = false <-> ~ p == q.
Proof.
  rewrite <- Qeqb_true. destruct (Qeqb p q); split; congruence.
Qed.

Lemma gtb_Fin (p q : Q) : gtb (Fin p) (Fin q) = true <-> q < p.
Proof. simpl. apply Qltb_true. Qed.

Lemma geb_Fin (p q : Q) : geb (Fin p) (Fin q) = true <-> q <= p.
Proof.
  simpl. rewrite negb_true_iff. apply Qltb_false.
Qed.

Lemma num_eq_refl (a : num) : a =n= a.
Proof. destruct a; simpl; auto. reflexivity. Qed.

Lemma num_eq_sym (a b : num) : a =n= b -> b =n= a.
Proof. destruct a, b; simpl; auto. intros H; symmetry; exact H. Qed.

Lemma num_eq_trans (a b c : num) : a =n= b -> b =n= c -> a =n= c.
Proof.
  destruct a, b, c; simpl; auto; try contradiction.
  intros H1 H2. rewrite H1. exact H2.
Qed.

(* ================================================================= *)
(** ** The histogram: range, edges and counts *)

Lemma amin_le (l : list Q) (x : Q) :
  Np.amin x l <= x /\ Forall (fun v => Np.amin x l <= v) l.
Proof.
  unfold Np.amin. revert x.
  induction l as [|y l IH]; intros x; simpl.
  - split; [apply Qle_refl | constructor].
  - destruct (IH (Qmin x y)) as [H1 H2]. split.
    + eapply Qle_trans; [exact H1 | apply Q.le_min_l].
    + constructor; [eapply Qle_trans; [exact H1 | apply Q.le_min_r] | exact H2].
Qed.

Lemma amax_ge (l : list Q) (x : Q) :
  x <= Np.amax x l /\ Forall (fun v => v <= Np.amax x l) l.
Proof.
  unfold Np.amax. revert x.
  induction l as [|y l IH]; intros x; simpl.
  - split; [apply Qle_refl | constructor].
  - destruct (IH (Qmax x y)) as [H1 H2]. split.
    + eapply Qle_trans; [apply Q.le_max_l | exact H1].
    + constructor; [eapply Qle_trans; [apply Q.le_max_r | exact H1] | exact H2].
Qed.

(** The range of the histogram is never empty and holds every sample. *)
Lemma outer_edges_lt (a : list Q) :
  fst (Np.outer_edges a) < snd (Np.outer_edges a).
Proof.
  destruct a as [|x l]; [reflexivity|]. unfold Np.outer_edges.
  destruct (amin_le l x) as [H1 _], (amax_ge l x) as [H2 _].
  destruct (Qeqb (Np.amin x l) (Np.amax x l)) eqn:E; cbn [fst snd].
  - apply Qeqb_true in E. lra.
  - apply Qeqb_false in E.
    destruct (Qlt_le_dec (Np.amin x l) (Np.amax x l)) as [Hlt|Hle]; [exact Hlt|].
    exfalso. apply E. apply Qle_antisym; lra.
Qed.

Lemma outer_edges_bounds (a : list Q) :
  Forall (fun v => fst (Np.outer_edges a) <= v /\ v <= snd (Np.outer_edges a)) a.
Proof.
  destruct a as [|x l]; [constructor|].
  destruct (amin_le l x) as [H1 H1'], (amax_ge l x) as [H2 H2'].
  assert (H : Forall (fun v => Np.amin x l <= v /\ v <= Np.amax x l) (x :: l)).
  { constructor; [split; assumption|].
    rewrite Forall_forall in *. intros v Hv. split; auto. }
  unfold Np.outer_edges.
  destruct (Qeqb (Np.amin x l) (Np.amax x l)); cbn [fst snd]; [|exact H].
  eapply Forall_impl; [|exact H]. cbn beta. intros v [Ha Hb]. split; lra.
Qed.

Lemma length_linspace (start stop : Q) (n : nat) :
  length (Np.linspace start stop n) = S n.
Proof.
  unfold Np.linspace. rewrite length_app, length_map, length_seq. simpl. lia.
Qed.

Lemma linspace_nth_inner (start stop : Q) (n k : nat) :
  (k < n)%nat ->
  nth k (Np.linspace start stop n) 0 =
  inject_Z (Z.of_nat k) * ((stop - start) / inject_Z (Z.of_nat n)) + start.
Proof.
  intros Hk. unfold Np.linspace.
  rewrite app_nth1 by (rewrite length_map, length_seq; exact Hk).
  set (f := fun k0 : nat => _).
  rewrite (nth_indep _ 0 (f 0%nat)) by (rewrite length_map, length_seq; exact Hk).
  rewrite map_nth, seq_nth by exact Hk. reflexivity.
Qed.

Lemma linspace_nth_last (start stop : Q) (n : nat) :
  nth n (Np.linspace start stop n) 0 = stop.
Proof.
  unfold Np.linspace.
  rewrite app_nth2 by (rewrite length_map, length_seq; lia).
  rewrite length_map, length_seq, Nat.sub_diag. reflexivity.
Qed.

Lemma inject_Z_nat_lt (i j : nat) :
  (i < j)%nat -> inject_Z (Z.of_nat i) < inject_Z (Z.of_nat j).
Proof. intros H. rewrite <- Zlt_Qlt. lia. Qed.

Lemma linspace_step_pos (start stop : Q) (n : nat) :
  (0 < n)%nat -> start < stop -> 0 < (stop - start) / inject_Z (Z.of_nat n).
Proof.
  intros Hn Hlt. apply Qlt_shift_div_l.
  - change 0 with (inject_Z 0). rewrite <- Zlt_Qlt. lia.
  - lra.
Qed.

(** The edges are strictly increasing. *)
Lemma linspace_increasing (start stop : Q) (n i j : nat) :
  start < stop -> (i < j <= n)%nat ->
  nth i (Np.linspace start stop n) 0 < nth j (Np.linspace start stop n) 0.
Proof.
  intros Hlt [Hij Hjn].
  assert (Hn : (0 < n)%nat) by lia.
  pose proof (linspace_step_pos start stop n Hn Hlt) as Hstep.
  assert (Hmul : inject_Z (Z.of_nat n) * ((stop - start) / inject_Z (Z.of_nat n))
                 == stop - start).
  { apply Qmult_div_r. intros H0.
    assert (0 < inject_Z (Z.of_nat n))
      by (change 0 with (inject_Z 0); rewrite <- Zlt_Qlt; lia).
    lra. }
  rewrite (linspace_nth_inner start stop n i) by lia.
  set (step := (stop - start) / inject_Z (Z.of_nat n)) in *.
  destruct (Nat.eq_dec j n) as [->|Hne].
  - rewrite linspace_nth_last.
    assert (inject_Z (Z.of_nat i) * step < inject_Z (Z.of_nat n) * step).
    { apply Qmult_lt_compat_r; [exact Hstep | apply inject_Z_nat_lt; lia]. }
    lra.
  - rewrite (linspace_nth_inner start stop n j) by lia. fold step.
    assert (inject_Z (Z.of_nat i) * step < inject_Z (Z.of_nat j) * step).
    { apply Qmult_lt_compat_r; [exact Hstep | apply inject_Z_nat_lt; lia]. }
    lra.
Qed.

Lemma linspace_first (start stop : Q) (n : nat) :
  (0 < n)%nat -> nth 0 (Np.linspace start stop n) 0 == start.
Proof.
  intros Hn. rewrite linspace_nth_inner by exact Hn. simpl. ring.
Qed.

Lemma length_bincount (indices : list Z) (n : nat) :
  length (Np.bincount indices n) = n.
Proof. unfold Np.bincount. rewrite length_map, length_seq. reflexivity. Qed.

Lemma bincount_nonneg (indices : list Z) (n : nat) :
  Forall (fun c => (0 <= c)%Z) (Np.bincount indices n).
Proof.
  unfold Np.bincount. rewrite Forall_map, Forall_forall. intros; lia.
Qed.

Lemma fold_left_add_acc (l : list Z) (a : Z) :
  fold_left Z.add l a = (a + fold_left Z.add l 0)%Z.
Proof.
  revert a. induction l as [|x l IH]; intros a; simpl; [lia|].
  rewrite (IH (a + x)%Z), (IH x). lia.
Qed.

Lemma sum_cons (x : Z) (l : list Z) : Np.sum (x :: l) = (x + Np.sum l)%Z.
Proof. unfold Np.sum. simpl. apply fold_left_add_acc. Qed.

Lemma sum_app (l1 l2 : list Z) : Np.sum (l1 ++ l2) = (Np.sum l1 + Np.sum l2)%Z.
Proof.
  induction l1 as [|x l1 IH]; [reflexivity|]. cbn [app].
  rewrite !sum_cons, IH. lia.
Qed.

Lemma sum_rev (l : list Z) : Np.sum (rev l) = Np.sum l.
Proof.
  induction l as [|x l IH]; [reflexivity|]. cbn [rev].
  rewrite sum_app, IH, (sum_cons x l). change (Np.sum [x]) with (0 + x)%Z. lia.
Qed.

(** Every index in range is counted once. *)
Lemma sum_indicator (i : Z) (n : nat) :
  (0 <= i < Z.of_nat n)%Z ->
  Np.sum (map (fun k => if Z.eq_dec i (Z.of_nat k) then 1%Z else 0%Z) (seq 0 n)) = 1%Z.
Proof.
  induction n as [|n IH]; intros Hi; [lia|].
  rewrite seq_S, map_app, sum_app. simpl. rewrite sum_cons.
  destruct (Z.eq_dec i (Z.of_nat n)) as [->|Hne].
  - assert (E : Np.sum (map (fun k => if Z.eq_dec (Z.of_nat n) (Z.of_nat k)
                                      then 1%Z else 0%Z) (seq 0 n)) = 0%Z).
    { clear. assert (H : forall k, In k (seq 0 n) -> (k < n)%nat)
        by (intros k Hk; apply in_seq in Hk; lia).
      induction (seq 0 n) as [|k l IHl]; [reflexivity|].
      simpl. rewrite sum_cons.
      destruct (Z.eq_dec (Z.of_nat n) (Z.of_nat k)) as [E|_].
      - specialize (H k (or_introl eq_refl)). lia.
      - rewrite IHl; [reflexivity|]. intros; apply H; right; assumption. }
    rewrite E. reflexivity.
  - rewrite IH by lia. reflexivity.
Qed.

Lemma sum_count_cons (i : Z) (l : list Z) (s : list nat) :
  Np.sum (map (fun k => Z.of_nat (count_occ Z.eq_dec (i :: l) (Z.of_nat k))) s) =
  (Np.sum (map (fun k => Z.of_nat (count_occ Z.eq_dec l (Z.of_nat k))) s)
   + Np.sum (map (fun k => if Z.eq_dec i (Z.of_nat k) then 1%Z else 0%Z) s))%Z.
Proof.
  induction s as [|k s IHs]; [reflexivity|].
  cbn [map]. rewrite !sum_cons, IHs. cbn [count_occ].
  destruct (Z.eq_dec i (Z.of_nat k)); lia.
Qed.

Lemma sum_bincount (indices : list Z) (n : nat) :
  Forall (fun i => (0 <= i < Z.of_nat n)%Z) indices ->
  Np.sum (Np.bincount indices n) = Z.of_nat (length indices).
Proof.
  unfold Np.bincount.
  induction 1 as [|i l Hi _ IH].
  - cbn [count_occ length]. induction (seq 0 n) as [|k s IHs]; [reflexivity|].
    cbn [map]. rewrite sum_cons, IHs. reflexivity.
  - rewrite sum_count_cons, IH, (sum_indicator i n Hi). cbn [length]. lia.
Qed.

Lemma bin_index_range (first_edge last_edge : Q) (n : nat) (v : Q) :
  (0 < n)%nat -> first_edge < last_edge ->
  first_edge <= v -> v <= last_edge ->
  (0 <= Np.bin_index first_edge last_edge n v < Z.of_nat n)%Z.
Proof.
  intros Hn Hlt Hlo Hhi. unfold Np.bin_index.
  set (r := (v - first_edge) / (last_edge - first_edge)).
  assert (Hr0 : 0 <= r).
  { unfold r. apply Qle_shift_div_l; lra. }
  assert (Hr1 : r <= 1).
  { unfold r. apply Qle_shift_div_r; lra. }
  assert (Hnq : 0 < inject_Z (Z.of_nat n))
    by (change 0 with (inject_Z 0); rewrite <- Zlt_Qlt; lia).
  assert (H0 : 0 <= r * inject_Z (Z.of_nat n)) by (apply Qmult_le_0_compat; lra).
  assert (H1 : r * inject_Z (Z.of_nat n) <= inject_Z (Z.of_nat n)).
  { rewrite <- (Qmult_1_l (inject_Z (Z.of_nat n))) at 2.
    apply Qmult_le_compat_r; lra. }
  apply Qfloor_resp_le in H0, H1.
  change (Qfloor 0) with 0%Z in H0. rewrite Qfloor_Z in H1.
  destruct (Z.eqb_spec (Qfloor (r * inject_Z (Z.of_nat n))) (Z.of_nat n)); lia.
Qed.

Lemma length_cumsum_from (l : list Z) (acc : Z) :
  length (Np.cumsum_from acc l) = length l.
Proof. revert acc. induction l; intros; simpl; auto. Qed.

Lemma cumsum_from_ge (l : list Z) :
  Forall (fun c => (0 <= c)%Z) l ->
  forall acc j, (j < length l)%nat -> (acc <= nth j (Np.cumsum_from acc l) 0)%Z.
Proof.
  induction 1 as [|x l Hx _ IH]; intros acc j Hj; simpl in *; [lia|].
  destruct j as [|j]; [lia|].
  specialize (IH (acc + x)%Z j). lia.
Qed.

(** The running sum of counts never decreases. *)
Lemma cumsum_from_mono (l : list Z) :
  Forall (fun c => (0 <= c)%Z) l ->
  forall acc i j, (i <= j < length l)%nat ->
  (nth i (Np.cumsum_from acc l) 0 <= nth j (Np.cumsum_from acc l) 0)%Z.
Proof.
  induction 1 as [|x l Hx Hl IH]; intros acc i j Hij; simpl in *; [lia|].
  destruct i as [|i], j as [|j]; try lia.
  - pose proof (cumsum_from_ge l Hl (acc + x)%Z j). lia.
  - apply IH. lia.
Qed.

Lemma cumsum_from_last (l : list Z) (acc : Z) :
  l <> [] ->
  nth (length l - 1) (Np.cumsum_from acc l) 0%Z = (acc + Np.sum l)%Z.
Proof.
  revert acc. induction l as [|x l IH]; intros acc Hne; [congruence|].
  rewrite sum_cons. destruct l as [|y l].
  - simpl. unfold Np.sum. simpl. lia.
  - specialize (IH (acc + x)%Z ltac:(discriminate)).
    simpl length in *. simpl Np.cumsum_from in *.
    replace (S (S (length l)) - 1)%nat with (S (length l)) by lia.
    replace (S (length l) - 1)%nat with (length l) in IH by lia.
    simpl nth. simpl nth in IH. rewrite IH. lia.
Qed.

(* ================================================================= *)
(** ** The constructed curve *)

Lemma histogram_eq (data : list Q) (nbins : Z) :
  (1 <= nbins)%Z ->
  Np.histogram data nbins = Some (counts_of data nbins, edges_of data nbins).
Proof.
  intros H. unfold Np.histogram, counts_of, edges_of.
  destruct (Z.ltb_spec nbins 1); [lia|].
  destruct (Np.outer_edges data) as [lo hi]. reflexivity.
Qed.

Lemma curve_eq (data : list Q) (nbins : Z) :
  (1 <= nbins)%Z ->
  _get_material_ratio_curve data nbins =
  Some (height_of data nbins, material_ratio_of data nbins).
Proof.
  intros H. unfold _get_material_ratio_curve. rewrite histogram_eq by exact H.
  reflexivity.
Qed.

Lemma length_counts_of (data : list Q) (nbins : Z) :
  length (counts_of data nbins) = Z.to_nat nbins.
Proof. apply length_bincount. Qed.

Lemma length_edges_of (data : list Q) (nbins : Z) :
  length (edges_of data nbins) = S (Z.to_nat nbins).
Proof. apply length_linspace. Qed.

Lemma filter_all {A : Type} (f : A -> bool) (l : list A) :
  Forall (fun v => f v = true) l -> filter f l = l.
Proof.
  induction 1 as [|x l Hx _ IH]; simpl; [reflexivity|]. rewrite Hx, IH. reflexivity.
Qed.

(** Every sample falls in exactly one bin: the counts add up to the number
    of samples. *)
Lemma sum_counts_of (data : list Q) (nbins : Z) :
  (1 <= nbins)%Z -> Np.sum (counts_of data nbins) = Z.of_nat (length data).
Proof.
  intros H. unfold counts_of.
  pose proof (outer_edges_bounds data) as Hb.
  pose proof (outer_edges_lt data) as Hlt.
  rewrite filter_all.
  - rewrite sum_bincount; [rewrite length_map; reflexivity|].
    rewrite Forall_map. eapply Forall_impl; [|exact Hb].
    intros v [Hlo Hhi]. apply bin_index_range; auto. lia.
  - eapply Forall_impl; [|exact Hb]. intros v [Hlo Hhi].
    apply andb_true_intro. split; apply Qle_bool_iff; assumption.
Qed.

Lemma height_nth (data : list Q) (nbins : Z) (i : nat) :
  (i <= Z.to_nat nbins)%nat ->
  nth i (map Fin (rev (edges_of data nbins))) NaN =
  Fin (nth (Z.to_nat nbins - i) (edges_of data nbins) 0).
Proof.
  intros Hi.
  rewrite (nth_indep _ NaN (Fin 0))
    by (rewrite length_map, length_rev, length_edges_of; lia).
  rewrite map_nth, rev_nth by (rewrite length_edges_of; lia).
  rewrite length_edges_of. f_equal.
Qed.

Lemma ratio_of_fin (total c : Z) :
  (0 < total)%Z ->
  ratio_of total c = Fin (inject_Z c / inject_Z total * 100).
Proof.
  intros H. unfold ratio_of, of_Z. cbn [ndiv].
  assert (Hq : 0 < inject_Z total)
    by (change 0 with (inject_Z 0); rewrite <- Zlt_Qlt; exact H).
  apply Qgt_alt in Hq. rewrite Hq. reflexivity.
Qed.

Lemma material_ratio_nth (total : Z) (cs : list Z) (i : nat) :
  (i < length cs)%nat ->
  nth (S i) (Fin 100 :: map (ratio_of total) cs) NaN = ratio_of total (nth i cs 0%Z).
Proof.
  intros Hi. cbn [nth].
  rewrite (nth_indep _ NaN (ratio_of total 0%Z)) by (rewrite length_map; exact Hi).
  apply map_nth.
Qed.

(* ================================================================= *)
(** ** Shape of the curve *)

Lemma curve_total (data : list Q) (nbins : Z) :
  (1 <= nbins)%Z ->
  Np.sum (rev (counts_of data nbins)) = Z.of_nat (length data).
Proof. intros H. rewrite sum_rev. apply sum_counts_of. exact H. Qed.

Lemma length_curve_cumsum (data : list Q) (nbins : Z) :
  length (Np.cumsum (rev (counts_of data nbins))) = Z.to_nat nbins.
Proof.
  unfold Np.cumsum. rewrite length_cumsum_from, length_rev. apply length_counts_of.
Qed.

(** The reversed edges descend strictly. *)
Lemma height_descending (data : list Q) (nbins : Z) :
  (1 <= nbins)%Z -> descending (height_of data nbins).
Proof.
  intros H i j [Hij Hj]. unfold height_of in *.
  rewrite length_map, length_rev, length_edges_of in Hj.
  rewrite !height_nth by lia. apply gtb_Fin.
  apply linspace_increasing; [apply outer_edges_lt | lia].
Qed.

(** C8.  For every height map and every [nbins >= 1], the constructed curve
    has [len(height) = len(material_ratio) = nbins + 1], and [height] is the
    reversed sequence of the histogram's bin edges: it descends from the
    largest edge (the upper end of the range) to the smallest one. *)
Theorem curve_lengths_and_descending_edges (data : list Q) (nbins : Z) :
  (1 <= nbins)%Z ->
  exists hist edges h mr,
    Np.histogram data nbins = Some (hist, edges) /\
    _get_material_ratio_curve data nbins = Some (h, mr) /\
    Z.of_nat (length h) = (nbins + 1)%Z /\
    Z.of_nat (length mr) = (nbins + 1)%Z /\
    h = map Fin (rev edges) /\
    descending h /\
    nth 0 h NaN = Fin (snd (Np.outer_edges data)) /\
    nth (Z.to_nat nbins) h NaN =n= Fin (fst (Np.outer_edges data)).
Proof.
  intros H.
  exists (counts_of data nbins), (edges_of data nbins),
         (height_of data nbins), (material_ratio_of data nbins).
  unfold height_of, material_ratio_of.
  split; [apply histogram_eq; exact H|].
  split; [apply curve_eq; exact H|].
  split; [rewrite length_map, length_rev, length_edges_of; lia|].
  split; [cbn [length]; rewrite length_map, length_curve_cumsum; lia|].
  split; [reflexivity|].
  split; [|split].
  - apply (height_descending data nbins H).
  - rewrite height_nth by lia. rewrite Nat.sub_0_r.
    unfold edges_of. rewrite linspace_nth_last. reflexivity.
  - rewrite height_nth by lia. rewrite Nat.sub_diag.
    unfold edges_of. cbn [num_eq]. apply linspace_first. lia.
Qed.

Lemma curve_lengths_and_descending_edges_witness :
  (1 <= 2)%Z /\
  exists hist edges h mr,
    Np.histogram [0; 1] 2 = Some (hist, edges) /\
    _get_material_ratio_curve [0; 1] 2 = Some (h, mr) /\
    Z.of_nat (length h) = (2 + 1)%Z /\
    Z.of_nat (length mr) = (2 + 1)%Z /\
    h = map Fin (rev edges) /\
    descending h /\
    nth 0 h NaN = Fin (snd (Np.outer_edges [0; 1])) /\
    nth (Z.to_nat 2) h NaN =n= Fin (fst (Np.outer_edges [0; 1])).
Proof.
  split; [lia|]. apply (curve_lengths_and_descending_edges [0; 1] 2). lia.
Defined.

(* ================================================================= *)
(** ** Monotonicity of the material ratio *)

Lemma counts_nonneg (data : list Q) (nbins : Z) :
  Forall (fun c => (0 <= c)%Z) (rev (counts_of data nbins)).
Proof. apply Forall_rev. apply bincount_nonneg. Qed.

Lemma ratio_of_mono (total c1 c2 : Z) :
  (0 < total)%Z -> (c1 <= c2)%Z -> geb (ratio_of total c2) (ratio_of total c1) = true.
Proof.
  intros Ht Hc. rewrite !ratio_of_fin by exact Ht. apply geb_Fin.
  assert (Hq : 0 < inject_Z total)
    by (change 0 with (inject_Z 0); rewrite <- Zlt_Qlt; exact Ht).
  apply Qmult_le_compat_r; [|discriminate].
  unfold Qdiv. apply Qmult_le_compat_r.
  - rewrite <- Zle_Qle. exact Hc.
  - apply Qinv_le_0_compat. lra.
Qed.

(** The curve of the height map [0, 1] with two bins is [100, 50, 100]: the
    prepended 100 is followed by a smaller ratio, against C2 as stated. *)
Lemma material_ratio_not_monotone :
  exists h mr,
    _get_material_ratio_curve [0; 1] 2 = Some (h, mr) /\
    nth 0 mr NaN =n= Fin 100 /\
    nth 1 mr NaN =n= Fin 50 /\
    nth 2 mr NaN =n= Fin 100 /\
    ~ (nth 0 mr NaN =n= Fin 100 /\ non_decreasing mr).
Proof.
  eexists. eexists. split; [vm_compute; reflexivity|].
  split; [vm_compute; reflexivity|].
  split; [vm_compute; reflexivity|].
  split; [vm_compute; reflexivity|].
  intros [_ H]. specialize (H 0%nat 1%nat).
  cbn [length] in H. specialize (H ltac:(lia)). vm_compute in H. discriminate.
Qed.

(** C2, amended.  For every height map with at least one sample,
    [material_ratio[0] = 100] and [material_ratio] is non-decreasing from
    index 1 on (the cumulative part of the sequence). *)
Theorem material_ratio_starts_full_then_cumulative (data : list Q) (nbins : Z) :
  data <> [] -> (1 <= nbins)%Z ->
  exists h mr,
    _get_material_ratio_curve data nbins = Some (h, mr) /\
    nth 0 mr NaN = Fin 100 /\
    non_decreasing_from 1 mr.
Proof.
  intros Hne H.
  exists (height_of data nbins), (material_ratio_of data nbins).
  split; [apply curve_eq; exact H|]. unfold material_ratio_of.
  split; [reflexivity|].
  intros i j [[Hi Hij] Hj]. cbn [length] in Hj.
  rewrite length_map, length_curve_cumsum in Hj.
  destruct i as [|i]; [lia|]. destruct j as [|j]; [lia|].
  rewrite !material_ratio_nth by (rewrite length_curve_cumsum; lia).
  apply ratio_of_mono.
  - rewrite curve_total by exact H. destruct data; [congruence|]. cbn [length]. lia.
  - apply cumsum_from_mono; [apply counts_nonneg|].
    rewrite length_rev, length_counts_of. lia.
Qed.

Lemma material_ratio_starts_full_then_cumulative_witness :
  [0; 1] <> [] /\ (1 <= 2)%Z /\
  exists h mr,
    _get_material_ratio_curve [0; 1] 2 = Some (h, mr) /\
    nth 0 mr NaN = Fin 100 /\
    non_decreasing_from 1 mr.
Proof.
  split; [discriminate|]. split; [lia|].
  apply (material_ratio_starts_full_then_cumulative [0; 1] 2); [discriminate | lia].
Defined.

(** C10.  For every non-empty height map, the last element of
    [material_ratio], at index [nbins], is the total count divided by the
    total count, times 100: it equals 100. *)
Theorem material_ratio_ends_full (data : list Q) (nbins : Z) :
  data <> [] -> (1 <= nbins)%Z ->
  exists hist edges h mr,
    Np.histogram data nbins = Some (hist, edges) /\
    _get_material_ratio_curve data nbins = Some (h, mr) /\
    nth (Z.to_nat nbins) mr NaN = ratio_of (Np.sum hist) (Np.sum hist) /\
    nth (Z.to_nat nbins) mr NaN =n= Fin 100.
Proof.
  intros Hne H.
  exists (counts_of data nbins), (edges_of data nbins),
         (height_of data nbins), (material_ratio_of data nbins).
  split; [apply histogram_eq; exact H|].
  split; [apply curve_eq; exact H|].
  assert (Hn : Z.to_nat nbins = S (Z.to_nat nbins - 1)) by lia.
  assert (Hlen : length (rev (counts_of data nbins)) = Z.to_nat nbins)
    by (rewrite length_rev; apply length_counts_of).
  assert (Hlast : nth (Z.to_nat nbins - 1) (Np.cumsum (rev (counts_of data nbins))) 0%Z
                  = Np.sum (counts_of data nbins)).
  { rewrite <- Hlen at 1. unfold Np.cumsum. rewrite cumsum_from_last.
    - rewrite sum_rev. lia.
    - intros E. rewrite E in Hlen. cbn [length] in Hlen. lia. }
  assert (Hnth : nth (Z.to_nat nbins) (material_ratio_of data nbins) NaN
                 = ratio_of (Np.sum (counts_of data nbins)) (Np.sum (counts_of data nbins))).
  { unfold material_ratio_of. rewrite Hn at 1.
    rewrite material_ratio_nth by (rewrite length_curve_cumsum; lia).
    rewrite Hlast, sum_rev. reflexivity. }
  split; [exact Hnth|].
  rewrite Hnth, sum_counts_of by exact H.
  assert (Hpos : (0 < Z.of_nat (length data))%Z)
    by (destruct data; [congruence | cbn [length]; lia]).
  rewrite ratio_of_fin by exact Hpos. cbn [num_eq].
  assert (Hq : 0 < inject_Z (Z.of_nat (length data)))
    by (change 0 with (inject_Z 0); rewrite <- Zlt_Qlt; exact Hpos).
  field. lra.
Qed.

Lemma material_ratio_ends_full_witness :
  [0; 1; 2] <> [] /\ (1 <= 3)%Z /\
  exists hist edges h mr,
    Np.histogram [0; 1; 2] 3 = Some (hist, edges) /\
    _get_material_ratio_curve [0; 1; 2] 3 = Some (h, mr) /\
    nth (Z.to_nat 3) mr NaN = ratio_of (Np.sum hist) (Np.sum hist) /\
    nth (Z.to_nat 3) mr NaN =n= Fin 100.
Proof.
  split; [discriminate|]. split; [lia|].
  apply (material_ratio_ends_full [0; 1; 2] 3); [discriminate | lia].
Defined.

(* ================================================================= *)
(** ** The equivalence-line search on a constructed curve *)

Lemma break_at_100 : gtb (Fin 100) (Fin 100 - EQUIVALENCE_LINE_WIDTH)%num = true.
Proof. reflexivity. Qed.

(** Once the first ratio exceeds 60 the loop returns its state untouched,
    whatever the interpolant. *)
Lemma search_loop_break_first (smc_fit : num -> num) (m : num) (mr h : list num)
    (k : nat) (max_slope : num) (istart_final : nat) :
  gtb m (Fin 100 - EQUIVALENCE_LINE_WIDTH)%num = true ->
  search_loop smc_fit (m :: mr) h (seq 0 (S k)) max_slope istart_final
  = Some (max_slope, istart_final).
Proof. intros Hm. cbn [seq search_loop nth_error]. rewrite Hm. reflexivity. Qed.

Lemma examined_break_first (m : num) (mr : list num) :
  gtb m (Fin 100 - EQUIVALENCE_LINE_WIDTH)%num = true ->
  valid_candidates (m :: mr) = [].
Proof.
  intros Hm. unfold valid_candidates. cbn [length seq examined nth].
  rewrite Hm. reflexivity.
Qed.

Section ConstructedLine.

Variable M : mathutils.

(** The line of a constructed curve: the search leaves the sentinel in
    place, and the intercept computed from it is infinite. *)
Lemma line_eq (data : list Q) (nbins : Z) :
  (1 <= nbins)%Z ->
  _calculate_equivalence_line M (material_ratio_of data nbins) (height_of data nbins)
  = Some (NInf, PInf, PInf, NaN).
Proof.
  intros H. unfold _calculate_equivalence_line, equivalence_line_search.
  unfold material_ratio_of, height_of.
  cbn [length]. rewrite search_loop_break_first by apply break_at_100.
  pose proof (length_edges_of data nbins) as Hlen.
  rewrite <- length_rev in Hlen.
  destruct (rev (edges_of data nbins)) as [|e l]; [discriminate|].
  reflexivity.
Qed.

(** The object [__init__] builds. *)
Lemma init_eq (data : list Q) (nbins : Z) :
  (1 <= nbins)%Z ->
  __init__ M data nbins =
  Some {| nbins := nbins;
          height := height_of data nbins;
          material_ratio := material_ratio_of data nbins;
          slope := NInf; intercept := PInf; y_upper := PInf; y_lower := NaN |}.
Proof.
  intros H. unfold __init__, with_curve. rewrite curve_eq by exact H.
  rewrite line_eq by exact H. reflexivity.
Qed.

End ConstructedLine.

(** C9.  For every height map the search loop leaves at its first iteration
    through the break: [material_ratio[0]] is the prepended 100, which
    exceeds 100 - 40.  No candidate slope is evaluated (the result does not
    depend on the interpolant and there is no valid candidate), the stored
    slope is the sentinel minus infinity and the selected index is 0. *)
Theorem search_breaks_at_first_iteration (M : mathutils) (data : list Q) (nbins : Z) :
  (1 <= nbins)%Z ->
  exists h mr self,
    _get_material_ratio_curve data nbins = Some (h, mr) /\
    nth_error mr 0 = Some (Fin 100) /\
    gtb (Fin 100) (Fin 100 - EQUIVALENCE_LINE_WIDTH)%num = true /\
    (forall smc_fit,
        search_loop smc_fit mr h (seq 0 (length mr)) NInf 0 = Some (NInf, 0%nat)) /\
    valid_candidates mr = [] /\
    equivalence_line_search M mr h = Some (NInf, 0%nat) /\
    __init__ M data nbins = Some self /\
    slope self = NInf.
Proof.
  intros H.
  exists (height_of data nbins), (material_ratio_of data nbins). eexists.
  split; [apply curve_eq; exact H|].
  split; [reflexivity|]. split; [apply break_at_100|].
  split; [intros smc_fit; apply search_loop_break_first, break_at_100|].
  split; [apply examined_break_first, break_at_100|].
  split; [apply search_loop_break_first, break_at_100|].
  split; [apply init_eq; exact H | reflexivity].
Qed.

Lemma search_breaks_at_first_iteration_witness :
  (1 <= 4)%Z /\
  exists h mr self,
    _get_material_ratio_curve [0; 1; 3; 7] 4 = Some (h, mr) /\
    nth_error mr 0 = Some (Fin 100) /\
    gtb (Fin 100) (Fin 100 - EQUIVALENCE_LINE_WIDTH)%num = true /\
    (forall smc_fit,
        search_loop smc_fit mr h (seq 0 (length mr)) NInf 0 = Some (NInf, 0%nat)) /\
    valid_candidates mr = [] /\
    equivalence_line_search Mathutils.impl mr h = Some (NInf, 0%nat) /\
    __init__ Mathutils.impl [0; 1; 3; 7] 4 = Some self /\
    slope self = NInf.
Proof.
  split; [lia|].
  apply (search_breaks_at_first_iteration Mathutils.impl [0; 1; 3; 7] 4). lia.
Defined.

(* ================================================================= *)
(** ** The equivalence-line search as a maximum over the candidates *)

Section Search.

Variable smc_fit : num -> num.
Variables mr h : list num.
Hypothesis same_length : length h = length mr.

Local Abbreviation sl := (candidate_slope smc_fit mr h).

(** The loop computes the fold over the valid candidates. *)
Lemma search_loop_tracked (indices : list nat) (max_slope : num) (istart_final : nat) :
  Forall (fun i => (i < length mr)%nat) indices ->
  search_loop smc_fit mr h indices max_slope istart_final =
  Some (tracked sl
          (filter (fun i => negb (gtb (nth i mr NaN + EQUIVALENCE_LINE_WIDTH)%num (Fin 100)))
                  (examined mr indices))
          (max_slope, istart_final)).
Proof.
  intros Hin. revert max_slope istart_final.
  induction Hin as [|i rest Hi _ IH]; intros max_slope istart_final; [reflexivity|].
  cbn [search_loop examined].
  rewrite (nth_error_nth' mr NaN Hi).
  destruct (gtb (nth i mr NaN) (Fin 100 - EQUIVALENCE_LINE_WIDTH)%num); [reflexivity|].
  cbn [filter].
  destruct (gtb (nth i mr NaN + EQUIVALENCE_LINE_WIDTH)%num (Fin 100));
    cbn [negb]; [apply IH|].
  rewrite <- same_length in Hi. rewrite (nth_error_nth' h NaN Hi).
  unfold tracked. cbn [fold_left]. unfold track at 2. cbn [fst].
  fold (candidate_slope smc_fit mr h i).
  destruct (gtb (sl i) max_slope); apply IH.
Qed.

(** One more candidate keeps the tracked state first-maximal. *)
Lemma track_first_maximal (seen : list nat) (s : num) (i k : nat) :
  first_maximal sl seen s i ->
  Forall (fun j => is_fin (sl j) = true) seen ->
  is_fin (sl k) = true ->
  Forall (fun j => (j < k)%nat) seen ->
  first_maximal sl (seen ++ [k]) (fst (track sl (s, i) k)) (snd (track sl (s, i) k)).
Proof.
  intros (Hin & Hs & Hmax & Hfirst) Hfin Hk Hlt.
  rewrite Forall_forall in Hfin, Hlt.
  assert (Hsf : is_fin s = true) by (rewrite Hs; apply Hfin; exact Hin).
  unfold track. cbn [fst].
  destruct (gtb (sl k) s) eqn:E; cbn [fst snd].
  - split; [apply in_or_app; right; left; reflexivity|].
    split; [reflexivity|].
    destruct (sl k) as [qk| | |] eqn:Ek; try discriminate.
    destruct s as [qs| | |]; try discriminate.
    apply gtb_Fin in E.
    split; intros j Hj; apply in_app_or in Hj; destruct Hj as [Hj|[<-|[]]].
    + specialize (Hmax j Hj). specialize (Hfin j Hj).
      destruct (sl j) as [qj| | |]; try discriminate.
      apply geb_Fin in Hmax. apply geb_Fin. lra.
    + rewrite Ek. apply geb_Fin. lra.
    + intros _. specialize (Hmax j Hj). specialize (Hfin j Hj).
      destruct (sl j) as [qj| | |]; try discriminate.
      apply geb_Fin in Hmax. apply gtb_Fin. lra.
    + intros Hkk. lia.
  - split; [apply in_or_app; left; exact Hin|].
    split; [exact Hs|].
    split; intros j Hj; apply in_app_or in Hj; destruct Hj as [Hj|[<-|[]]].
    + apply Hmax; exact Hj.
    + destruct (sl k) as [qk| | |]; try discriminate.
      destruct s as [qs| | |]; try discriminate.
      unfold geb. rewrite E. reflexivity.
    + apply Hfirst; exact Hj.
    + intros Hki. specialize (Hlt i Hin). lia.
Qed.

Lemma tracked_first_maximal (cands seen : list nat) (s : num) (i : nat) :
  first_maximal sl seen s i ->
  Forall (fun j => is_fin (sl j) = true) seen ->
  Forall (fun j => is_fin (sl j) = true) cands ->
  StronglySorted lt (seen ++ cands) ->
  first_maximal sl (seen ++ cands)
    (fst (tracked sl cands (s, i))) (snd (tracked sl cands (s, i))).
Proof.
  revert seen s i.
  induction cands as [|k cands IH]; intros seen s i Hbest Hseen Hcands Hsorted.
  - rewrite app_nil_r. exact Hbest.
  - unfold tracked. cbn [fold_left].
    inversion Hcands as [|? ? Hk Hrest]; subst.
    assert (Hlt : Forall (fun j => (j < k)%nat) seen).
    { clear - Hsorted. induction seen as [|a seen IHs]; [constructor|].
      cbn [app] in Hsorted. inversion Hsorted as [|? ? Hs Ha]; subst.
      constructor; [|apply IHs; exact Hs].
      rewrite Forall_forall in Ha. apply Ha. apply in_or_app. right. left. reflexivity. }
    pose proof (track_first_maximal seen s i k Hbest Hseen Hk Hlt) as Hstep.
    destruct (track sl (s, i) k) as [s' i'] eqn:Et. cbn [fst snd] in Hstep.
    replace (seen ++ k :: cands) with ((seen ++ [k]) ++ cands)
      by (rewrite <- app_assoc; reflexivity).
    apply IH.
    + exact Hstep.
    + apply Forall_app. split; [exact Hseen | constructor; [exact Hk | constructor]].
    + exact Hrest.
    + rewrite <- app_assoc. exact Hsorted.
Qed.

(** From the sentinel, the first finite candidate is taken. *)
Lemma tracked_from_sentinel (k : nat) (cands : list nat) :
  Forall (fun j => is_fin (sl j) = true) (k :: cands) ->
  StronglySorted lt (k :: cands) ->
  first_maximal sl (k :: cands)
    (fst (tracked sl (k :: cands) (NInf, 0%nat)))
    (snd (tracked sl (k :: cands) (NInf, 0%nat))).
Proof.
  intros Hfin Hsorted. inversion Hfin as [|? ? Hk Hrest]; subst.
  unfold tracked. cbn [fold_left]. unfold track at 2 4. cbn [fst].
  destruct (sl k) as [qk| | |] eqn:Ek; try discriminate. cbn [gtb].
  rewrite <- Ek.
  apply (tracked_first_maximal cands [k] (sl k) k).
  - split; [left; reflexivity|]. split; [reflexivity|].
    split; intros j [<-|[]].
    + rewrite Ek. apply geb_Fin. lra.
    + intros Hkk. lia.
  - constructor; [rewrite Ek; reflexivity | constructor].
  - exact Hrest.
  - exact Hsorted.
Qed.

End Search.

Lemma seq_strongly_sorted (a n : nat) : StronglySorted lt (seq a n).
Proof.
  revert a. induction n as [|n IH]; intros a; cbn [seq]; constructor.
  - apply IH.
  - apply Forall_forall. intros x Hx. apply in_seq in Hx. lia.
Qed.

Lemma examined_In (mr : list num) (indices : list nat) (x : nat) :
  In x (examined mr indices) -> In x indices.
Proof.
  induction indices as [|i rest IH]; cbn [examined]; [auto|].
  destruct (gtb (nth i mr NaN) (Fin 100 - EQUIVALENCE_LINE_WIDTH)%num); [intros []|].
  intros [<-|Hx]; [left; reflexivity | right; apply IH; exact Hx].
Qed.

Lemma examined_sorted (mr : list num) (indices : list nat) :
  StronglySorted lt indices -> StronglySorted lt (examined mr indices).
Proof.
  induction 1 as [|i rest Hs IH Hi]; cbn [examined]; [constructor|].
  destruct (gtb (nth i mr NaN) (Fin 100 - EQUIVALENCE_LINE_WIDTH)%num); constructor.
  - exact IH.
  - rewrite Forall_forall in *. intros x Hx. apply Hi. eapply examined_In. exact Hx.
Qed.

Lemma filter_sorted (f : nat -> bool) (l : list nat) :
  StronglySorted lt l -> StronglySorted lt (filter f l).
Proof.
  induction 1 as [|i rest Hs IH Hi]; cbn [filter]; [constructor|].
  destruct (f i); [constructor|]; auto.
  rewrite Forall_forall in *. intros x Hx. apply Hi. apply filter_In in Hx. tauto.
Qed.

Lemma valid_candidates_sorted (mr : list num) : StronglySorted lt (valid_candidates mr).
Proof.
  unfold valid_candidates. apply filter_sorted, examined_sorted, seq_strongly_sorted.
Qed.

(** The search returns the first candidate of maximal slope. *)
Lemma search_first_maximal (M : mathutils) (mr h : list num) :
  length h = length mr ->
  valid_candidates mr <> [] ->
  forallb (fun i => is_fin (candidate_slope (interp1d M mr h) mr h i))
          (valid_candidates mr) = true ->
  exists i_final s,
    equivalence_line_search M mr h = Some (s, i_final) /\
    first_maximal (candidate_slope (interp1d M mr h) mr h) (valid_candidates mr)
                  s i_final /\
    (i_final < length mr)%nat.
Proof.
  intros Hlen Hne Hfin.
  set (sl := candidate_slope (interp1d M mr h) mr h) in *.
  assert (Hsearch : equivalence_line_search M mr h
                    = Some (tracked sl (valid_candidates mr) (NInf, 0%nat))).
  { unfold equivalence_line_search.
    rewrite (search_loop_tracked _ mr h Hlen).
    - reflexivity.
    - apply Forall_forall. intros x Hx. apply in_seq in Hx. lia. }
  assert (Hbest : first_maximal sl (valid_candidates mr)
                    (fst (tracked sl (valid_candidates mr) (NInf, 0%nat)))
                    (snd (tracked sl (valid_candidates mr) (NInf, 0%nat)))).
  { pose proof (valid_candidates_sorted mr) as Hsorted.
    rewrite forallb_forall in Hfin. rewrite <- Forall_forall in Hfin.
    destruct (valid_candidates mr) as [|k cands]; [congruence|].
    apply tracked_from_sentinel; assumption. }
  destruct (tracked sl (valid_candidates mr) (NInf, 0%nat)) as [s i_final] eqn:Et.
  cbn [fst snd] in Hbest.
  exists i_final, s. split; [exact Hsearch|]. split; [exact Hbest|].
  destruct Hbest as (Hin & _). unfold valid_candidates in Hin.
  apply filter_In in Hin. destruct Hin as [Hin _].
  apply examined_In, in_seq in Hin. lia.
Qed.

(** The line computed from the selected candidate. *)
Lemma line_of_search (M : mathutils) (mr h : list num) (s : num) (i_final : nat) :
  length h = length mr ->
  equivalence_line_search M mr h = Some (s, i_final) ->
  (i_final < length mr)%nat ->
  _calculate_equivalence_line M mr h =
  Some (s,
        (nth i_final h NaN - s * nth i_final mr NaN)%num,
        (nth i_final h NaN - s * nth i_final mr NaN)%num,
        (s * Fin 100 + (nth i_final h NaN - s * nth i_final mr NaN))%num).
Proof.
  intros Hlen Hsearch Hi.
  unfold _calculate_equivalence_line. rewrite Hsearch.
  rewrite (nth_error_nth' mr NaN Hi).
  rewrite <- Hlen in Hi. rewrite (nth_error_nth' h NaN Hi). reflexivity.
Qed.

(** C1.  When the curve has at least one valid candidate (each with a finite
    secant slope), the slope of the equivalence line is the maximum of
    [(height_at_ratio(material_ratio[i] + 40) - height[i]) / 40] over the
    valid candidates, the first candidate that attains it being selected,
    and [intercept = height[i_final] - slope * material_ratio[i_final]],
    [y_upper = intercept], [y_lower = slope * 100 + intercept]. *)
Theorem equivalence_line_is_first_maximal_secant (M : mathutils) (mr h : list num) :
  length h = length mr ->
  valid_candidates mr <> [] ->
  forallb (fun i => is_fin (candidate_slope (interp1d M mr h) mr h i))
          (valid_candidates mr) = true ->
  exists i_final s i yu yl,
    equivalence_line_search M mr h = Some (s, i_final) /\
    _calculate_equivalence_line M mr h = Some (s, i, yu, yl) /\
    first_maximal (candidate_slope (interp1d M mr h) mr h) (valid_candidates mr)
                  s i_final /\
    i = (nth i_final h NaN - s * nth i_final mr NaN)%num /\
    yu = i /\
    yl = (s * Fin 100 + i)%num.
Proof.
  intros Hlen Hne Hfin.
  destruct (search_first_maximal M mr h Hlen Hne Hfin) as (i_final & s & Hs & Hbest & Hi).
  exists i_final, s. do 3 eexists.
  split; [exact Hs|].
  split; [apply line_of_search; eassumption|].
  split; [exact Hbest | repeat split].
Qed.

Lemma equivalence_line_is_first_maximal_secant_witness :
  length [Fin 1; Fin (1 # 2); Fin 0] = length [Fin 0; Fin 50; Fin 100] /\
  valid_candidates [Fin 0; Fin 50; Fin 100] <> [] /\
  forallb (fun i => is_fin (candidate_slope
                              (interp1d Mathutils.impl [Fin 0; Fin 50; Fin 100]
                                        [Fin 1; Fin (1 # 2); Fin 0])
                              [Fin 0; Fin 50; Fin 100] [Fin 1; Fin (1 # 2); Fin 0] i))
          (valid_candidates [Fin 0; Fin 50; Fin 100]) = true /\
  exists i_final s i yu yl,
    equivalence_line_search Mathutils.impl [Fin 0; Fin 50; Fin 100]
                            [Fin 1; Fin (1 # 2); Fin 0] = Some (s, i_final) /\
    _calculate_equivalence_line Mathutils.impl [Fin 0; Fin 50; Fin 100]
                                [Fin 1; Fin (1 # 2); Fin 0] = Some (s, i, yu, yl) /\
    first_maximal (candidate_slope
                     (interp1d Mathutils.impl [Fin 0; Fin 50; Fin 100]
                               [Fin 1; Fin (1 # 2); Fin 0])
                     [Fin 0; Fin 50; Fin 100] [Fin 1; Fin (1 # 2); Fin 0])
                  (valid_candidates [Fin 0; Fin 50; Fin 100]) s i_final /\
    i = (nth i_final [Fin 1; Fin (1 # 2); Fin 0] NaN
         - s * nth i_final [Fin 0; Fin 50; Fin 100] NaN)%num /\
    yu = i /\
    yl = (s * Fin 100 + i)%num.
Proof.
  split; [reflexivity|]. split; [vm_compute; discriminate|].
  split; [vm_compute; reflexivity|].
  apply (equivalence_line_is_first_maximal_secant Mathutils.impl
           [Fin 0; Fin 50; Fin 100] [Fin 1; Fin (1 # 2); Fin 0]).
  - reflexivity.
  - vm_compute; discriminate.
  - vm_compute; reflexivity.
Defined.

(* ================================================================= *)
(** ** The flat surface *)

Lemma amin_repeat (c : Q) (k : nat) : Np.amin c (repeat c k) = c.
Proof.
  unfold Np.amin. induction k as [|k IH]; cbn [repeat fold_left]; [reflexivity|].
  replace (Qmin c c) with c; [exact IH|].
  unfold Qmin, GenericMinMax.gmin. destruct (c ?= c); reflexivity.
Qed.

Lemma amax_repeat (c : Q) (k : nat) : Np.amax c (repeat c k) = c.
Proof.
  unfold Np.amax. induction k as [|k IH]; cbn [repeat fold_left]; [reflexivity|].
  replace (Qmax c c) with c; [exact IH|].
  unfold Qmax, GenericMinMax.gmax. destruct (c ?= c); reflexivity.
Qed.

(** NumPy widens the empty range of a constant array by one half on each
    side. *)
Lemma outer_edges_repeat (c : Q) (k : nat) :
  Np.outer_edges (repeat c (S k)) = (c - (1 # 2), c + (1 # 2)).
Proof.
  cbn [repeat]. unfold Np.outer_edges. rewrite amin_repeat, amax_repeat.
  assert (E : Qeqb c c = true) by (apply Qeqb_true; reflexivity).
  rewrite E. reflexivity.
Qed.

(** The all-zero height map with 10000 bins, against C3 as stated: [Sk] is
    NaN, the material ratio drops to 0 after the prepended 100, and the
    heights run from 1/2 down to -1/2. *)
Lemma flat_scenario_fails :
  exists self,
    __init__ Mathutils.impl [0; 0; 0; 0] 10000 = Some self /\
    Sk self = NaN /\
    nth 1 (material_ratio self) NaN =n= Fin 0 /\
    nth 0 (height self) NaN =n= Fin (1 # 2) /\
    nth (Z.to_nat 10000) (height self) NaN =n= Fin (- (1 # 2)) /\
    ~ flat_scenario Mathutils.impl [0; 0; 0; 0] 0.
Proof.
  pose proof (init_eq Mathutils.impl [0; 0; 0; 0] 10000 ltac:(lia)) as Hi.
  eexists. split; [exact Hi|]. cbn [Sk y_upper y_lower material_ratio height].
  split; [reflexivity|].
  split; [vm_compute; reflexivity|].
  split; [vm_compute; reflexivity|].
  split; [vm_compute; reflexivity|].
  intros (self & Hs & Hsk & _).
  rewrite Hi in Hs. inversion Hs as [Hself]. rewrite <- Hself in Hsk. exact Hsk.
Qed.

(** The curve of a constant height map, for any number of bins. *)
Lemma constant_surface_curve (M : mathutils) (c : Q) (k : nat) (nbins : Z) :
  (1 <= nbins)%Z ->
  exists hist edges self,
    Np.histogram (repeat c (S k)) nbins = Some (hist, edges) /\
    Np.sum hist = Z.of_nat (S k) /\
    __init__ M (repeat c (S k)) nbins = Some self /\
    Z.of_nat (length (height self)) = (nbins + 1)%Z /\
    Z.of_nat (length (material_ratio self)) = (nbins + 1)%Z /\
    nth 0 (material_ratio self) NaN = Fin 100 /\
    nth 0 (height self) NaN = Fin (c + (1 # 2)) /\
    nth (Z.to_nat nbins) (height self) NaN =n= Fin (c - (1 # 2)) /\
    descending (height self).
Proof.
  intros H.
  exists (counts_of (repeat c (S k)) nbins), (edges_of (repeat c (S k)) nbins).
  eexists.
  split; [apply histogram_eq; exact H|].
  split; [rewrite sum_counts_of by exact H; rewrite repeat_length; reflexivity|].
  split; [apply init_eq; exact H|]. cbn [height material_ratio].
  split; [unfold height_of; rewrite length_map, length_rev, length_edges_of; lia|].
  split; [unfold material_ratio_of; cbn [length];
          rewrite length_map, length_curve_cumsum; lia|].
  split; [reflexivity|].
  split; [|split].
  - unfold height_of. rewrite height_nth by lia.
    rewrite Nat.sub_0_r. unfold edges_of. rewrite linspace_nth_last.
    rewrite outer_edges_repeat. reflexivity.
  - unfold height_of. rewrite height_nth by lia. rewrite Nat.sub_diag.
    unfold edges_of. cbn [num_eq]. rewrite linspace_first by lia.
    rewrite outer_edges_repeat. reflexivity.
  - apply height_descending. exact H.
Qed.

(** C3, amended.  For a height map whose samples all equal [c], with
    [|c| <= 10^9], and [nbins = 10000], construction succeeds and no
    division by zero occurs (the range is widened to [c - 1/2, c + 1/2] and
    the total count is the number of samples);
    [len(height) = len(material_ratio) = 10001], [material_ratio[0] = 100],
    and [height] descends from [c + 1/2] to [c - 1/2].  The bound on [c] is
    not used by the exact arithmetic of the proof: it keeps the statement
    to constants around which float64 has 10001 distinct edges, beyond
    which [np.histogram] raises. *)
Theorem flat_surface_curve (M : mathutils) (c : Q) (k : nat) :
  Qabs c <= 1000000000 ->
  exists hist edges self,
    Np.histogram (repeat c (S k)) 10000 = Some (hist, edges) /\
    Np.sum hist = Z.of_nat (S k) /\
    __init__ M (repeat c (S k)) 10000 = Some self /\
    Z.of_nat (length (height self)) = 10001%Z /\
    Z.of_nat (length (material_ratio self)) = 10001%Z /\
    nth 0 (material_ratio self) NaN = Fin 100 /\
    nth 0 (height self) NaN = Fin (c + (1 # 2)) /\
    nth (Z.to_nat 10000) (height self) NaN =n= Fin (c - (1 # 2)) /\
    descending (height self).
Proof.
  intros _. exact (constant_surface_curve M c k 10000 ltac:(lia)).
Qed.

Lemma flat_surface_curve_witness :
  Qabs 0 <= 1000000000 /\
  exists hist edges self,
    Np.histogram (repeat 0 (S 3)) 10000 = Some (hist, edges) /\
    Np.sum hist = Z.of_nat (S 3) /\
    __init__ Mathutils.impl (repeat 0 (S 3)) 10000 = Some self /\
    Z.of_nat (length (height self)) = 10001%Z /\
    Z.of_nat (length (material_ratio self)) = 10001%Z /\
    nth 0 (material_ratio self) NaN = Fin 100 /\
    nth 0 (height self) NaN = Fin (0 + (1 # 2)) /\
    nth (Z.to_nat 10000) (height self) NaN =n= Fin (0 - (1 # 2)) /\
    descending (height self).
Proof.
  split; [vm_compute; discriminate|].
  apply (flat_surface_curve Mathutils.impl 0 3). vm_compute. discriminate.
Defined.

(* ================================================================= *)
(** ** The interpolant on finite points *)

Lemma all_fin_map (l : list num) :
  all_fin l = true -> exists q, l = map Fin q.
Proof.
  unfold all_fin. induction l as [|a l IH]; cbn [forallb]; intros H.
  - exists []. reflexivity.
  - apply andb_prop in H. destruct H as [Ha Hl].
    destruct (IH Hl) as [q ->]. destruct a as [x| | |]; try discriminate.
    exists (x :: q). reflexivity.
Qed.

Lemma combine_lift (xs ys : list Q) :
  combine (map Fin xs) (map Fin ys) = lift (combine xs ys).
Proof.
  revert ys. induction xs as [|x xs IH]; intros [|y ys]; cbn; try reflexivity.
  f_equal. apply IH.
Qed.

Lemma insert_lift (p : Q * Q) (P : list (Q * Q)) :
  exists P',
    Mathutils.insert_pt (Fin (fst p), Fin (snd p)) (lift P) = lift P' /\
    (forall q, In q P' <-> q = p \/ In q P) /\
    (x_sorted P -> x_sorted P').
Proof.
  induction P as [|q0 P IH].
  - exists [p]. split; [reflexivity|]. split.
    + intros q. cbn. intuition congruence.
    + intros _. repeat constructor.
  - cbn [lift map Mathutils.insert_pt fst].
    destruct (geb (Fin (fst q0)) (Fin (fst p))) eqn:E.
    + exists (p :: q0 :: P). split; [reflexivity|]. split.
      * intros q. cbn. intuition congruence.
      * intros Hs. constructor; [exact Hs|].
        apply geb_Fin in E. constructor; [exact E|].
        inversion Hs as [|? ? _ Hall]; subst.
        eapply Forall_impl; [|exact Hall]. cbn beta. intros a Ha. lra.
    + destruct IH as (P' & HP' & Hin & Hsorted).
      exists (q0 :: P'). split; [cbn [lift map]; f_equal; exact HP'|]. split.
      * intros q. cbn [In]. rewrite Hin. intuition congruence.
      * intros Hs. inversion Hs as [|? ? Hs' Hall]; subst.
        constructor; [apply Hsorted; exact Hs'|].
        apply Forall_forall. intros a Ha. apply Hin in Ha.
        destruct Ha as [->|Ha].
        -- assert (Hn : ~ fst p <= fst q0).
           { intros Hle. apply geb_Fin in Hle. congruence. }
           apply Qnot_le_lt in Hn. lra.
        -- rewrite Forall_forall in Hall. apply Hall. exact Ha.
Qed.

(** Sorting finite points keeps them finite, keeps the same points and
    orders them by abscissa. *)
Lemma sort_lift (P : list (Q * Q)) :
  exists P',
    Mathutils.sort_pts (lift P) = lift P' /\
    (forall q, In q P' <-> In q P) /\
    x_sorted P'.
Proof.
  induction P as [|p P IH].
  - exists []. split; [reflexivity|]. split; [tauto | constructor].
  - destruct IH as (P1 & HP1 & Hin1 & Hs1).
    destruct (insert_lift p P1) as (P' & HP' & Hin & Hs).
    exists P'. split.
    + cbn [lift map Mathutils.sort_pts fold_right].
      change (fold_right Mathutils.insert_pt [] (map (fun p0 => (Fin (fst p0), Fin (snd p0))) P))
        with (Mathutils.sort_pts (lift P)).
      rewrite HP1. exact HP'.
    + split; [|apply Hs; exact Hs1].
      intros q. rewrite Hin, Hin1. cbn [In]. intuition congruence.
Qed.

(** Points already in ascending order are left as they are. *)
Lemma sort_lift_id (P : list (Q * Q)) :
  x_sorted P -> Mathutils.sort_pts (lift P) = lift P.
Proof.
  induction 1 as [|p P Hs IH Hall]; [reflexivity|].
  cbn [lift map Mathutils.sort_pts fold_right].
  change (fold_right Mathutils.insert_pt [] (map (fun p0 => (Fin (fst p0), Fin (snd p0))) P))
    with (Mathutils.sort_pts (lift P)).
  rewrite IH. destruct P as [|q P]; [reflexivity|].
  cbn [lift map Mathutils.insert_pt fst].
  inversion Hall as [|? ? Hq _]; subst.
  apply geb_Fin in Hq. rewrite Hq. reflexivity.
Qed.

Lemma interp_pts_two (x0 y0 x1 y1 : Q) (R : list (Q * Q)) (x : Q) :
  Mathutils.interp_pts (lift ((x0, y0) :: (x1, y1) :: R)) (Fin x) =
  if Qltb x x1
  then (if Qltb x0 x
        then (Fin y0 + (Fin x - Fin x0) * (Fin y1 - Fin y0) / (Fin x1 - Fin x0))%num
        else Fin y0)
  else Mathutils.interp_pts (lift ((x1, y1) :: R)) (Fin x).
Proof.
  cbn [lift map Mathutils.interp_pts fst snd gtb geb].
  destruct (Qltb x x1); [|reflexivity]. destruct (Qltb x0 x); reflexivity.
Qed.

(** The value on a segment of positive width is finite. *)
Lemma segment_fin (x0 y0 x1 y1 x : Q) :
  x0 < x1 ->
  (Fin y0 + (Fin x - Fin x0) * (Fin y1 - Fin y0) / (Fin x1 - Fin x0))%num =
  Fin (y0 + (x + - x0) * (y1 + - y0) / (x1 + - x0)).
Proof.
  intros H. cbn [nsub nneg nadd nmul ndiv].
  assert (E : (x1 + - x0 ?= 0) = Gt) by (apply Qgt_alt; lra).
  rewrite E. reflexivity.
Qed.

(** At an abscissa that belongs to one ordinate only, the interpolant
    returns that ordinate. *)
Lemma interp_node (P : list (Q * Q)) (x y : Q) :
  x_sorted P ->
  (exists p, In p P /\ fst p == x) ->
  (forall p, In p P -> fst p == x -> snd p == y) ->
  exists v, Mathutils.interp_pts (lift P) (Fin x) = Fin v /\ v == y.
Proof.
  induction 1 as [|[x0 y0] P Hs IH Hall]; intros Hex Huniq.
  - destruct Hex as (p & [] & _).
  - destruct P as [|[x1 y1] R].
    + exists y0. split; [reflexivity|].
      destruct Hex as (p & [<-|[]] & Hp). apply (Huniq (x0, y0)); [left; reflexivity | exact Hp].
    + rewrite interp_pts_two.
      inversion Hall as [|? ? H01 Hall']; subst. cbn [fst] in H01.
      inversion Hs as [|? ? _ Hall1]; subst.
      destruct (Qltb x x1) eqn:E1.
      * apply Qltb_true in E1.
        assert (H0 : x0 == x).
        { destruct Hex as (p & [<-|[<-|Hp]] & Hpx); cbn [fst] in *.
          - exact Hpx.
          - lra.
          - rewrite Forall_forall in Hall1. specialize (Hall1 p Hp). cbn [fst] in Hall1. lra. }
        assert (E0 : Qltb x0 x = false) by (apply Qltb_false; lra).
        rewrite E0. exists y0. split; [reflexivity|].
        apply (Huniq (x0, y0)); [left; reflexivity | exact H0].
      * apply Qltb_false in E1. apply IH.
        -- destruct Hex as (p & [<-|Hp] & Hpx); cbn [fst] in *.
           ++ exists (x1, y1). split; [left; reflexivity|]. cbn [fst]. lra.
           ++ exists p. split; assumption.
        -- intros p Hp. apply Huniq. right. exact Hp.
Qed.

(** With ordinates that never increase, the interpolant stays below the
    ordinate of every point at or before the abscissa. *)
Lemma interp_le_head (P : list (Q * Q)) (x0 y0 x : Q) :
  x_sorted ((x0, y0) :: P) ->
  StronglySorted (fun p q => snd q <= snd p) ((x0, y0) :: P) ->
  exists v, Mathutils.interp_pts (lift ((x0, y0) :: P)) (Fin x) = Fin v /\ v <= y0.
Proof.
  revert x0 y0. induction P as [|[x1 y1] R IH]; intros x0 y0 Hx Hy.
  - exists y0. split; [reflexivity | lra].
  - rewrite interp_pts_two.
    inversion Hx as [|? ? Hx' Hxall]; subst. inversion Hy as [|? ? Hy' Hyall]; subst.
    inversion Hxall as [|? ? H01 _]; subst. inversion Hyall as [|? ? G01 _]; subst.
    cbn [fst snd] in *.
    destruct (Qltb x x1) eqn:E1.
    + apply Qltb_true in E1. destruct (Qltb x0 x) eqn:E0.
      * apply Qltb_true in E0. rewrite segment_fin by lra.
        eexists. split; [reflexivity|].
        assert (Hd : 0 < x1 + - x0) by lra.
        assert (Hn : (x + - x0) * (y1 + - y0) <= 0).
        { setoid_replace ((x + - x0) * (y1 + - y0)) with (- ((x + - x0) * (y0 + - y1)))
            by ring.
          assert (0 <= (x + - x0) * (y0 + - y1)) by (apply Qmult_le_0_compat; lra).
          lra. }
        assert (Hq : (x + - x0) * (y1 + - y0) / (x1 + - x0) <= 0).
        { apply Qle_shift_div_r; [exact Hd | lra]. }
        lra.
      * exists y0. split; [reflexivity | lra].
    + destruct (IH x1 y1 Hx' Hy') as (v & Hv & Hle).
      exists v. split; [exact Hv | lra].
Qed.

Lemma interp_le_nth (P : list (Q * Q)) (i : nat) (x : Q) :
  x_sorted P ->
  StronglySorted (fun p q => snd q <= snd p) P ->
  (i < length P)%nat ->
  fst (nth i P (0, 0)) <= x ->
  exists v, Mathutils.interp_pts (lift P) (Fin x) = Fin v /\ v <= snd (nth i P (0, 0)).
Proof.
  intros Hx Hy. revert i.
  induction P as [|[x0 y0] P IH]; intros i Hi Hle; [cbn in Hi; lia|].
  destruct i as [|i].
  - apply interp_le_head; assumption.
  - cbn [nth length] in *.
    inversion Hx as [|? ? Hx' Hxall]; subst. inversion Hy as [|? ? Hy' _]; subst.
    destruct P as [|[x1 y1] R]; [cbn in Hi; lia|].
    rewrite interp_pts_two.
    assert (H1 : x1 <= fst (nth i ((x1, y1) :: R) (0, 0))).
    { destruct i as [|i]; [cbn; lra|].
      inversion Hx' as [|? ? _ Hall1]; subst.
      rewrite Forall_forall in Hall1.
      apply (Hall1 (nth i R (0, 0))). apply nth_In. cbn [length] in Hi. lia. }
    assert (E1 : Qltb x x1 = false) by (apply Qltb_false; lra).
    rewrite E1. apply IH; [assumption | assumption | lia | exact Hle].
Qed.

(* ================================================================= *)
(** ** The sign of the equivalence line on a monotone curve *)

Lemma shifted_within_100 (m : num) :
  gtb m (Fin 100 - EQUIVALENCE_LINE_WIDTH)%num = false ->
  gtb (m + EQUIVALENCE_LINE_WIDTH)%num (Fin 100) = false.
Proof.
  unfold EQUIVALENCE_LINE_WIDTH. destruct m as [q| | |]; cbn [nsub nneg nadd gtb];
    try reflexivity; try discriminate.
  intros H. apply Qltb_false in H. apply Qltb_false. lra.
Qed.

(** When the loop does not break at index 0, that index is a valid
    candidate. *)
Lemma valid_candidates_first (mr : list num) :
  mr <> [] ->
  gtb (nth 0 mr NaN) (Fin 100 - EQUIVALENCE_LINE_WIDTH)%num = false ->
  valid_candidates mr <> [].
Proof.
  intros Hne H. destruct mr as [|m0 mr']; [congruence|].
  assert (Hin : In 0%nat (valid_candidates (m0 :: mr'))).
  { unfold valid_candidates. apply filter_In. split.
    - cbn [length seq examined]. rewrite H. left. reflexivity.
    - apply negb_true_iff. apply shifted_within_100. exact H. }
  intros E. rewrite E in Hin. destruct Hin.
Qed.

Lemma nondecreasingb_sorted (q : list Q) :
  nondecreasingb (map Fin q) = true -> StronglySorted Qle q.
Proof.
  induction q as [|a q IH]; cbn [map nondecreasingb]; intros H; constructor.
  - apply IH. apply andb_prop in H. tauto.
  - apply andb_prop in H. destruct H as [H _].
    rewrite forallb_forall in H. apply Forall_forall. intros b Hb.
    apply geb_Fin. apply H. apply in_map. exact Hb.
Qed.

Lemma nonincreasingb_sorted (q : list Q) :
  nonincreasingb (map Fin q) = true -> StronglySorted (fun a b => b <= a) q.
Proof.
  induction q as [|a q IH]; cbn [map nonincreasingb]; intros H; constructor.
  - apply IH. apply andb_prop in H. tauto.
  - apply andb_prop in H. destruct H as [H _].
    rewrite forallb_forall in H. apply Forall_forall. intros b Hb.
    apply geb_Fin. apply H. apply in_map. exact Hb.
Qed.

Lemma combine_x_sorted (xs ys : list Q) :
  StronglySorted Qle xs -> x_sorted (combine xs ys).
Proof.
  intros H. revert ys. induction H as [|x xs Hs IH Hall]; intros ys; [constructor|].
  destruct ys as [|y ys]; [constructor|]. cbn [combine]. constructor; [apply IH|].
  apply Forall_forall. intros [a b] Hab. apply in_combine_l in Hab.
  rewrite Forall_forall in Hall. cbn [fst]. apply Hall. exact Hab.
Qed.

Lemma combine_y_sorted (xs ys : list Q) :
  StronglySorted (fun a b => b <= a) ys ->
  StronglySorted (fun p q => snd q <= snd p) (combine xs ys).
Proof.
  intros H. revert xs. induction H as [|y ys Hs IH Hall]; intros xs.
  - destruct xs; constructor.
  - destruct xs as [|x xs]; [constructor|]. cbn [combine]. constructor; [apply IH|].
    apply Forall_forall. intros [a b] Hab. apply in_combine_r in Hab.
    rewrite Forall_forall in Hall. cbn [snd]. apply Hall. exact Hab.
Qed.

Lemma nth_map_Fin (q : list Q) (i : nat) :
  (i < length q)%nat -> nth i (map Fin q) NaN = Fin (nth i q 0).
Proof.
  intros Hi. rewrite (nth_indep _ NaN (Fin 0)) by (rewrite length_map; exact Hi).
  apply map_nth.
Qed.

(** On a curve whose ratio never decreases and whose height never
    increases, every secant of width 40 has a finite slope, at most 0. *)
Lemma candidate_slope_nonpos (mq hq : list Q) (i : nat) :
  length hq = length mq ->
  StronglySorted Qle mq ->
  StronglySorted (fun a b => b <= a) hq ->
  (i < length mq)%nat ->
  exists q,
    candidate_slope (interp1d Mathutils.impl (map Fin mq) (map Fin hq))
                    (map Fin mq) (map Fin hq) i = Fin q /\ q <= 0.
Proof.
  intros Hlen Hm Hh Hi.
  unfold candidate_slope. cbn [interp1d Mathutils.impl].
  rewrite !nth_map_Fin by lia.
  unfold EQUIVALENCE_LINE_WIDTH. cbn [nadd].
  unfold Mathutils.interp1d. cbn [is_nan].
  rewrite combine_lift, sort_lift_id by (apply combine_x_sorted; exact Hm).
  destruct (interp_le_nth (combine mq hq) i (nth i mq 0 + 40)) as (v & Hv & Hle).
  - apply combine_x_sorted; exact Hm.
  - apply combine_y_sorted; exact Hh.
  - rewrite length_combine. lia.
  - rewrite combine_nth by (symmetry; exact Hlen). cbn [fst]. lra.
  - rewrite combine_nth in Hle by (symmetry; exact Hlen). cbn [snd] in Hle.
    rewrite Hv. cbn [nsub nneg nadd ndiv].
    change (40 ?= 0) with Gt. cbn iota.
    eexists. split; [reflexivity|].
    apply Qle_shift_div_r; [reflexivity | lra].
Qed.

(** X22.  For every object state derived from a finite curve given
    directly, whose material ratio never decreases and whose height never
    increases along the index (the order the specification describes) and
    whose first ratio is at most 60, so that the search has a valid
    candidate: [y_upper >= y_lower] and [Sk() = y_upper - y_lower >= 0],
    with the piecewise-linear [interp1d].  No curve the constructor builds
    is such a curve: its first ratio is 100. *)
Theorem y_upper_not_below_y_lower (nb : Z) (mr h : list num) :
  length h = length mr ->
  all_fin mr = true -> all_fin h = true ->
  nondecreasingb mr = true -> nonincreasingb h = true ->
  mr <> [] ->
  gtb (nth 0 mr NaN) (Fin 100 - EQUIVALENCE_LINE_WIDTH)%num = false ->
  exists self,
    with_curve Mathutils.impl nb h mr = Some self /\
    geb (y_upper self) (y_lower self) = true /\
    Sk self = (y_upper self - y_lower self)%num /\
    geb (Sk self) (Fin 0) = true.
Proof.
  intros Hlen Hfm Hfh Hm Hh Hne0 H0.
  pose proof (valid_candidates_first mr Hne0 H0) as Hne. clear Hne0 H0.
  destruct (all_fin_map mr Hfm) as [mq ->]. destruct (all_fin_map h Hfh) as [hq ->].
  apply nondecreasingb_sorted in Hm. apply nonincreasingb_sorted in Hh.
  assert (Hlenq : length hq = length mq) by (rewrite !length_map in Hlen; exact Hlen).
  assert (Hslope : forall i, (i < length mq)%nat ->
            exists q, candidate_slope (interp1d Mathutils.impl (map Fin mq) (map Fin hq))
                        (map Fin mq) (map Fin hq) i = Fin q /\ q <= 0)
    by (intros i Hi; apply candidate_slope_nonpos; assumption).
  assert (Hfin : forallb (fun i => is_fin (candidate_slope
                    (interp1d Mathutils.impl (map Fin mq) (map Fin hq))
                    (map Fin mq) (map Fin hq) i))
                  (valid_candidates (map Fin mq)) = true).
  { apply forallb_forall. intros i Hi. unfold valid_candidates in Hi.
    apply filter_In in Hi. destruct Hi as [Hi _].
    apply examined_In, in_seq in Hi. rewrite length_map in Hi.
    destruct (Hslope i ltac:(lia)) as (q & -> & _). reflexivity. }
  destruct (search_first_maximal Mathutils.impl _ _ Hlen Hne Hfin)
    as (i_final & s & Hs & (_ & Hsl & _) & Hi).
  rewrite length_map in Hi.
  destruct (Hslope i_final Hi) as (q & Hq & Hq0). rewrite Hq in Hsl. subst s.
  unfold with_curve.
  rewrite (line_of_search Mathutils.impl _ _ _ _ Hlen Hs)
    by (rewrite length_map; exact Hi).
  eexists. split; [reflexivity|].
  cbn [y_upper y_lower Sk]. rewrite !nth_map_Fin by lia.
  cbn [nmul nsub nneg nadd].
  split; [|split; [reflexivity|]]; apply geb_Fin; lra.
Qed.

Lemma y_upper_not_below_y_lower_witness :
  length [Fin 1; Fin (1 # 2); Fin 0] = length [Fin 0; Fin 50; Fin 100] /\
  all_fin [Fin 0; Fin 50; Fin 100] = true /\
  all_fin [Fin 1; Fin (1 # 2); Fin 0] = true /\
  nondecreasingb [Fin 0; Fin 50; Fin 100] = true /\
  nonincreasingb [Fin 1; Fin (1 # 2); Fin 0] = true /\
  [Fin 0; Fin 50; Fin 100] <> [] /\
  gtb (nth 0 [Fin 0; Fin 50; Fin 100] NaN) (Fin 100 - EQUIVALENCE_LINE_WIDTH)%num = false /\
  exists self,
    with_curve Mathutils.impl 2 [Fin 1; Fin (1 # 2); Fin 0] [Fin 0; Fin 50; Fin 100]
    = Some self /\
    geb (y_upper self) (y_lower self) = true /\
    Sk self = (y_upper self - y_lower self)%num /\
    geb (Sk self) (Fin 0) = true.
Proof.
  split; [reflexivity|]. split; [reflexivity|]. split; [reflexivity|].
  split; [reflexivity|]. split; [reflexivity|]. split; [discriminate|].
  split; [reflexivity|].
  apply (y_upper_not_below_y_lower 2 [Fin 0; Fin 50; Fin 100] [Fin 1; Fin (1 # 2); Fin 0]);
    try reflexivity.
  discriminate.
Defined.

(** Without that order the line can rise: on the curve given by the ratios
    [50, 0, 100] and the heights [2, 1, 0] both indices 0 and 1 are valid
    candidates, the search selects index 1, and [y_upper = 1 < y_lower = 3]. *)
Lemma line_rises_on_unordered_curve :
  exists self,
    with_curve Mathutils.impl 2 [Fin 2; Fin 1; Fin 0] [Fin 50; Fin 0; Fin 100]
    = Some self /\
    valid_candidates [Fin 50; Fin 0; Fin 100] = [0; 1]%nat /\
    y_upper self =n= Fin 1 /\
    y_lower self =n= Fin 3 /\
    geb (y_upper self) (y_lower self) = false /\
    Sk self =n= Fin (-2).
Proof.
  eexists. split; [vm_compute; reflexivity|].
  split; [vm_compute; reflexivity|]. split; [vm_compute; reflexivity|].
  split; [vm_compute; reflexivity|]. split; vm_compute; reflexivity.
Qed.

(* ================================================================= *)
(** ** The nearest index *)

Ltac order_cases :=
  cbn [gtb geb is_nan negb] in *;
  try discriminate; try reflexivity;
  rewrite ?negb_true_iff, ?negb_false_iff in *;
  repeat match goal with
         | H : Qltb _ _ = true |- _ => apply Qltb_true in H
         | H : Qltb _ _ = false |- _ => apply Qltb_false in H
         end;
  try (apply Qltb_true); try (apply Qltb_false); try lra.

Lemma gtb_geb (a b : num) : gtb a b = true -> geb a b = true.
Proof. destruct a, b; intros H; order_cases. Qed.

Lemma geb_gtb_trans (a b c : num) :
  geb a b = true -> gtb b c = true -> gtb a c = true.
Proof. destruct a, b, c; intros H1 H2; order_cases. Qed.

Lemma geb_refl (a : num) : is_nan a = false -> geb a a = true.
Proof. destruct a; intros H; order_cases. Qed.

Lemma not_gtb_geb (a b : num) :
  is_nan a = false -> is_nan b = false -> gtb a b = false -> geb b a = true.
Proof. destruct a, b; intros Ha Hb H; order_cases. Qed.

(** The scan keeps the first least element seen so far. *)
Lemma argmin_from_spec (l pre : list num) (best : num) (ibest : nat) :
  Forall (fun d => is_nan d = false) (pre ++ l) ->
  (ibest < length pre)%nat ->
  nth ibest (pre ++ l) NaN = best ->
  (forall j, (j < length pre)%nat -> geb (nth j (pre ++ l) NaN) best = true) ->
  (forall j, (j < ibest)%nat -> gtb (nth j (pre ++ l) NaN) best = true) ->
  let r := Mathutils.argmin_from l (length pre) best ibest in
  (r < length (pre ++ l))%nat /\
  (forall j, (j < length (pre ++ l))%nat ->
             geb (nth j (pre ++ l) NaN) (nth r (pre ++ l) NaN) = true) /\
  (forall j, (j < r)%nat ->
             gtb (nth j (pre ++ l) NaN) (nth r (pre ++ l) NaN) = true).
Proof.
  revert pre best ibest.
  induction l as [|d l IH]; intros pre best ibest Hnan Hib Hbest Hge Hgt.
  - cbn [Mathutils.argmin_from]. rewrite app_nil_r in *. subst best.
    split; [exact Hib|]. split; assumption.
  - cbn [Mathutils.argmin_from].
    assert (Hd : nth (length pre) (pre ++ d :: l) NaN = d)
      by (rewrite app_nth2, Nat.sub_diag by lia; reflexivity).
    assert (Hdn : is_nan d = false).
    { rewrite Forall_forall in Hnan. apply Hnan. apply in_or_app. right. left. reflexivity. }
    assert (Hbn : is_nan best = false).
    { rewrite Forall_forall in Hnan. subst best. apply Hnan. apply nth_In.
      rewrite length_app. lia. }
    assert (Happ : pre ++ d :: l = (pre ++ [d]) ++ l)
      by (rewrite <- app_assoc; reflexivity).
    assert (Hlen : length (pre ++ [d]) = S (length pre))
      by (rewrite length_app; cbn [length]; lia).
    destruct (gtb best d) eqn:E.
    + specialize (IH (pre ++ [d]) d (length pre)).
      rewrite Hlen, <- Happ in IH. apply IH.
      * exact Hnan.
      * lia.
      * exact Hd.
      * intros j Hj. destruct (Nat.eq_dec j (length pre)) as [->|Hne].
        -- rewrite Hd. apply geb_refl. exact Hdn.
        -- apply gtb_geb. eapply geb_gtb_trans; [apply Hge; lia | exact E].
      * intros j Hj. eapply geb_gtb_trans; [apply Hge; lia | exact E].
    + specialize (IH (pre ++ [d]) best ibest).
      rewrite Hlen, <- Happ in IH. apply IH.
      * exact Hnan.
      * lia.
      * exact Hbest.
      * intros j Hj. destruct (Nat.eq_dec j (length pre)) as [->|Hne].
        -- rewrite Hd. apply not_gtb_geb; assumption.
        -- apply Hge. lia.
      * exact Hgt.
Qed.

Lemma argmin_spec (l : list num) :
  l <> [] ->
  Forall (fun d => is_nan d = false) l ->
  (Mathutils.argmin l < length l)%nat /\
  (forall j, (j < length l)%nat ->
             geb (nth j l NaN) (nth (Mathutils.argmin l) l NaN) = true) /\
  (forall j, (j < Mathutils.argmin l)%nat ->
             gtb (nth j l NaN) (nth (Mathutils.argmin l) l NaN) = true).
Proof.
  intros Hne Hnan. destruct l as [|d l]; [congruence|].
  cbn [Mathutils.argmin].
  apply (argmin_from_spec l [d] d 0).
  - exact Hnan.
  - cbn; lia.
  - reflexivity.
  - intros j Hj. cbn [length] in Hj. replace j with 0%nat by lia.
    cbn [app nth]. apply geb_refl. inversion Hnan; assumption.
  - intros j Hj. lia.
Qed.

Lemma distance_not_nan (target : num) (e : Q) :
  is_nan target = false -> is_nan (nabs (Fin e - target)%num) = false.
Proof. destruct target; intros H; try discriminate; reflexivity. Qed.

(** C7.  [Spk() = 2 * |trapezoid(material_ratio[:idx], height[:idx])| /
    Smr1()], where [idx] is the first index that minimises
    [|height[j] - y_upper|] over all [j]. *)
Theorem Spk_is_twice_peak_area_over_Smr1 (self : AbbottFirestoneCurve) :
  height self <> [] ->
  all_fin (height self) = true ->
  is_nan (y_upper self) = false ->
  exists idx,
    argclosest Mathutils.impl (y_upper self) (height self) = idx /\
    first_nearest (y_upper self) (height self) idx /\
    Spk Mathutils.impl self =
    (Fin 2 * nabs (trapezoid Mathutils.impl (firstn idx (material_ratio self))
                                            (firstn idx (height self)))
     / Smr1 Mathutils.impl self)%num.
Proof.
  intros Hne Hfin Hnan.
  exists (argclosest Mathutils.impl (y_upper self) (height self)).
  split; [reflexivity|]. split; [|reflexivity].
  cbn [argclosest Mathutils.impl]. unfold Mathutils.argclosest, first_nearest, distance.
  set (f := fun e : num => nabs (e - y_upper self)%num).
  destruct (all_fin_map _ Hfin) as [hq Hq]. rewrite Hq in *.
  assert (Hnth : forall j, (j < length (map Fin hq))%nat ->
            nth j (map f (map Fin hq)) NaN = f (nth j (map Fin hq) NaN)).
  { intros j Hj. rewrite (nth_indep _ NaN (f NaN)) by (rewrite length_map; exact Hj).
    apply map_nth. }
  destruct (argmin_spec (map f (map Fin hq))) as (H1 & H2 & H3).
  - destruct hq; [exfalso; apply Hne; reflexivity | discriminate].
  - rewrite Forall_map, Forall_map. apply Forall_forall. intros e _.
    apply distance_not_nan. exact Hnan.
  - rewrite length_map in H1, H2. split; [exact H1|]. split.
    + intros j Hj.
      change (geb (f (nth j (map Fin hq) NaN))
                  (f (nth (Mathutils.argmin (map f (map Fin hq))) (map Fin hq) NaN))
              = true).
      rewrite <- !Hnth by assumption. apply H2. exact Hj.
    + intros j Hj.
      change (gtb (f (nth j (map Fin hq) NaN))
                  (f (nth (Mathutils.argmin (map f (map Fin hq))) (map Fin hq) NaN))
              = true).
      rewrite <- !Hnth by lia. apply H3. exact Hj.
Qed.

Lemma Spk_is_twice_peak_area_over_Smr1_witness :
  height sample_curve <> [] /\
  all_fin (height sample_curve) = true /\
  is_nan (y_upper sample_curve) = false /\
  with_curve Mathutils.impl 5 sample_height sample_material_ratio = Some sample_curve /\
  Smr1 Mathutils.impl sample_curve =n= Fin (28 # 3) /\
  exists idx,
    argclosest Mathutils.impl (y_upper sample_curve) (height sample_curve) = idx /\
    first_nearest (y_upper sample_curve) (height sample_curve) idx /\
    Spk Mathutils.impl sample_curve =
    (Fin 2 * nabs (trapezoid Mathutils.impl (firstn idx (material_ratio sample_curve))
                                            (firstn idx (height sample_curve)))
     / Smr1 Mathutils.impl sample_curve)%num.
Proof.
  split; [discriminate|]. split; [reflexivity|]. split; [reflexivity|].
  split; [vm_compute; reflexivity|]. split; [vm_compute; reflexivity|].
  apply (Spk_is_twice_peak_area_over_Smr1 sample_curve);
    [discriminate | reflexivity | reflexivity].
Defined.

(* ================================================================= *)
(** ** Round trips through Smr and Smc *)

(** On the curve of the height map [0, 1, 2] with three bins, the heights 2
    and 0 have the same material ratio 100; the height 2 comes back as 0
    and the ratio 250/3 comes back as 100/3, both in the observed ranges:
    the round trips of C6 fail for any tolerance below 2, resp. 50. *)
Lemma round_trip_fails :
  exists self,
    __init__ Mathutils.impl [0; 1; 2] 3 = Some self /\
    nth 0 (height self) NaN =n= Fin 2 /\
    nth 3 (height self) NaN =n= Fin 0 /\
    nth 1 (material_ratio self) NaN =n= Fin (100 # 3) /\
    nth 3 (material_ratio self) NaN =n= Fin 100 /\
    Smr Mathutils.impl self (Fin 2) =n= Fin 100 /\
    Smr Mathutils.impl self (Fin 0) =n= Fin 100 /\
    Smc Mathutils.impl self (Smr Mathutils.impl self (Fin 2)) =n= Fin 0 /\
    Smr Mathutils.impl self (Smc Mathutils.impl self (Fin (250 # 3))) =n= Fin (100 # 3) /\
    ~ round_trip_at Mathutils.impl self 1 (250 # 3) 2.
Proof.
  eexists. split; [vm_compute; reflexivity|].
  do 8 (split; [vm_compute; reflexivity|]).
  intros [H _]. vm_compute in H. apply H. reflexivity.
Qed.

Lemma filter_one {A : Type} (f : A -> bool) (l : list A) (d : A) (i : nat) :
  (i < length l)%nat -> f (nth i l d) = true -> (1 <= length (filter f l))%nat.
Proof.
  revert i. induction l as [|a l IH]; intros i Hi Hf; [cbn in Hi; lia|].
  cbn [filter]. destruct i as [|i].
  - cbn [nth] in Hf. rewrite Hf. cbn [length]. lia.
  - cbn [nth length] in *. specialize (IH i ltac:(lia) Hf).
    destruct (f a); cbn [length]; lia.
Qed.

Lemma filter_two {A : Type} (f : A -> bool) (l : list A) (d : A) (i j : nat) :
  (i < j < length l)%nat ->
  f (nth i l d) = true -> f (nth j l d) = true -> (2 <= length (filter f l))%nat.
Proof.
  revert i j. induction l as [|a l IH]; intros i j Hij Hi Hj; [cbn in Hij; lia|].
  cbn [filter]. destruct j as [|j]; [lia|]. cbn [nth length] in *.
  destruct i as [|i].
  - rewrite Hi. cbn [length].
    pose proof (filter_one f l d j ltac:(lia) Hj). lia.
  - specialize (IH i j ltac:(lia) Hi Hj). destruct (f a); cbn [length]; lia.
Qed.

(** A value that occurs once occurs at one index only. *)
Lemma occurs_once_index (q : list Q) (i j : nat) :
  (i < length q)%nat -> (j < length q)%nat ->
  occurs_once (Fin (nth i q 0)) (map Fin q) = true ->
  nth j q 0 == nth i q 0 -> j = i.
Proof.
  intros Hi Hj Honce Heq. unfold occurs_once in Honce. apply Nat.eqb_eq in Honce.
  set (f := num_eqb (Fin (nth i q 0))) in *.
  assert (Hfi : f (nth i (map Fin q) NaN) = true).
  { rewrite nth_map_Fin by exact Hi. unfold f. cbn [num_eqb]. apply Qeqb_true. reflexivity. }
  assert (Hfj : f (nth j (map Fin q) NaN) = true).
  { rewrite nth_map_Fin by exact Hj. unfold f. cbn [num_eqb]. apply Qeqb_true.
    symmetry. exact Heq. }
  destruct (Nat.lt_trichotomy i j) as [Hlt|[->|Hlt]]; [|reflexivity|].
  - pose proof (filter_two f (map Fin q) NaN i j) as H2.
    rewrite length_map in H2. specialize (H2 ltac:(lia) Hfi Hfj). lia.
  - pose proof (filter_two f (map Fin q) NaN j i) as H2.
    rewrite length_map in H2. specialize (H2 ltac:(lia) Hfj Hfi). lia.
Qed.

(** The interpolant passes through a node whose abscissa is not repeated. *)
Lemma interp1d_node (xs ys : list Q) (i : nat) (x : Q) :
  length xs = length ys -> (i < length xs)%nat ->
  occurs_once (Fin (nth i xs 0)) (map Fin xs) = true ->
  x == nth i xs 0 ->
  exists v, Mathutils.interp1d (map Fin xs) (map Fin ys) (Fin x) = Fin v /\
            v == nth i ys 0.
Proof.
  intros Hlen Hi Honce Hx. unfold Mathutils.interp1d. cbn [is_nan].
  rewrite combine_lift.
  destruct (sort_lift (combine xs ys)) as (P' & -> & Hin & Hsorted).
  apply interp_node; [exact Hsorted| |].
  - exists (nth i xs 0, nth i ys 0). split; [|cbn [fst]; symmetry; exact Hx].
    apply Hin. rewrite <- (combine_nth xs ys i 0 0 Hlen).
    apply nth_In. rewrite length_combine. lia.
  - intros p Hp Hpx. apply Hin in Hp.
    destruct (In_nth _ _ (0, 0) Hp) as (j & Hj & Hnth).
    rewrite length_combine in Hj. rewrite combine_nth in Hnth by exact Hlen.
    subst p. cbn [fst snd] in *.
    assert (j = i).
    { apply (occurs_once_index xs i j); [exact Hi | lia | exact Honce|].
      rewrite Hpx. exact Hx. }
    subst j. reflexivity.
Qed.

(* ================================================================= *)
(** ** The interpolant between two neighbouring nodes *)

Lemma sorted_head_le (p0 : Q * Q) (P : list (Q * Q)) (p : Q * Q) :
  x_sorted (p0 :: P) -> In p (p0 :: P) -> fst p0 <= fst p.
Proof.
  intros Hs [<-|Hp]; [lra|].
  inversion Hs as [|? ? _ Hall]; subst. rewrite Forall_forall in Hall.
  apply Hall. exact Hp.
Qed.

(** Strictly between two neighbouring abscissas the interpolant is the
    chord through the two points. *)
Lemma interp_segment_inner (P : list (Q * Q)) (pa pb : Q * Q) (x : Q) :
  x_sorted P -> In pa P -> In pb P ->
  (forall p, In p P -> p = pa \/ p = pb \/ fst p < fst pa \/ fst pb < fst p) ->
  fst pa < x -> x < fst pb ->
  Mathutils.interp_pts (lift P) (Fin x) =
  Fin (snd pa + (x + - fst pa) * (snd pb + - snd pa) / (fst pb + - fst pa)).
Proof.
  intros Hs. revert pa pb.
  induction Hs as [|[x0 y0] P Hs IH Hall]; intros pa pb Ha Hb Htri Hax Hxb;
    [destruct Ha|].
  assert (Hsorted : x_sorted ((x0, y0) :: P)) by (constructor; assumption).
  pose proof (sorted_head_le _ _ pa Hsorted Ha) as H0a.
  pose proof (sorted_head_le _ _ pb Hsorted Hb) as H0b.
  cbn [fst] in H0a, H0b.
  destruct P as [|[x1 y1] R].
  - destruct Ha as [<-|[]]. destruct Hb as [<-|[]]. cbn [fst] in *. lra.
  - rewrite interp_pts_two.
    pose proof (Htri (x0, y0) (or_introl eq_refl)) as T0.
    pose proof (Htri (x1, y1) (or_intror (or_introl eq_refl))) as T1.
    cbn [fst] in T0, T1.
    assert (H01 : x0 <= x1).
    { apply (sorted_head_le _ _ (x1, y1) Hsorted). right. left. reflexivity. }
    destruct (Qltb x x1) eqn:E1.
    + apply Qltb_true in E1.
      assert (Hpa : (x0, y0) = pa).
      { destruct T0 as [T0|[T0|[T0|T0]]]; [exact T0| | |].
        - subst pb. cbn [fst] in *. lra.
        - destruct Ha as [Ha|Ha]; [exact Ha|].
          pose proof (sorted_head_le _ _ pa Hs Ha) as H1a. cbn [fst] in H1a. lra.
        - lra. }
      subst pa. cbn [fst snd] in *.
      assert (Hpb : (x1, y1) = pb).
      { destruct T1 as [T1|[T1|[T1|T1]]]; [|exact T1| |].
        - injection T1 as -> ->. lra.
        - lra.
        - destruct Hb as [Hb|Hb]; [subst pb; cbn [fst] in *; lra|].
          pose proof (sorted_head_le _ _ pb Hs Hb) as H1b. cbn [fst] in H1b. lra. }
      subst pb. cbn [fst snd] in *.
      assert (E0 : Qltb x0 x = true) by (apply Qltb_true; exact Hax).
      rewrite E0. apply segment_fin. lra.
    + apply Qltb_false in E1. apply IH.
      * destruct Ha as [Ha|Ha]; [|exact Ha]. subst pa. cbn [fst] in *.
        destruct T1 as [T1|[T1|[T1|T1]]].
        -- left. exact T1.
        -- subst pb. cbn [fst] in *. lra.
        -- lra.
        -- lra.
      * destruct Hb as [Hb|Hb]; [|exact Hb]. subst pb. cbn [fst] in *. lra.
      * intros p Hp. apply Htri. right. exact Hp.
      * exact Hax.
      * exact Hxb.
Qed.

(** The same on the closed segment, the two nodes included. *)
Lemma interp_segment (P : list (Q * Q)) (pa pb : Q * Q) (x : Q) :
  x_sorted P -> In pa P -> In pb P -> fst pa < fst pb ->
  (forall p, In p P -> p = pa \/ p = pb \/ fst p < fst pa \/ fst pb < fst p) ->
  fst pa <= x <= fst pb ->
  exists v, Mathutils.interp_pts (lift P) (Fin x) = Fin v /\
            v == snd pa + (x - fst pa) * (snd pb - snd pa) / (fst pb - fst pa).
Proof.
  intros Hs Ha Hb Hab Htri [Hax Hxb].
  destruct (Qlt_le_dec (fst pa) x) as [Hlt|Hle].
  - destruct (Qlt_le_dec x (fst pb)) as [Hlt'|Hle'].
    + eexists. split; [apply (interp_segment_inner P pa pb); assumption|]. reflexivity.
    + assert (Hx : x == fst pb) by lra.
      destruct (interp_node P x (snd pb) Hs) as (v & Hv & Hvy).
      * exists pb. split; [exact Hb | symmetry; exact Hx].
      * intros p Hp Hpx. destruct (Htri p Hp) as [->|[->|[T|T]]]; [lra | reflexivity | lra | lra].
      * exists v. split; [exact Hv|]. rewrite Hvy, Hx. field. lra.
  - assert (Hx : x == fst pa) by lra.
    destruct (interp_node P x (snd pa) Hs) as (v & Hv & Hvy).
    + exists pa. split; [exact Ha | symmetry; exact Hx].
    + intros p Hp Hpx. destruct (Htri p Hp) as [->|[->|[T|T]]]; [reflexivity | lra | lra | lra].
    + exists v. split; [exact Hv|]. rewrite Hvy, Hx. field. lra.
Qed.

Lemma neighbours_spec (q : list Q) (a b : nat) :
  (a < length q)%nat -> (b < length q)%nat ->
  neighbours (map Fin q) a b = true ->
  nth a q 0 < nth b q 0 /\
  forall j, (j < length q)%nat ->
            j = a \/ j = b \/ nth j q 0 < nth a q 0 \/ nth b q 0 < nth j q 0.
Proof.
  intros Ha Hb H. unfold neighbours in H. apply andb_prop in H. destruct H as [Hab Hall].
  rewrite !nth_map_Fin in Hab by assumption. apply gtb_Fin in Hab.
  split; [exact Hab|]. intros j Hj.
  rewrite forallb_forall in Hall. specialize (Hall j).
  rewrite length_map in Hall. specialize (Hall ltac:(apply in_seq; lia)).
  rewrite !nth_map_Fin in Hall by assumption.
  rewrite !orb_true_iff in Hall.
  destruct Hall as [[[E|E]|E]|E].
  - left. apply Nat.eqb_eq. exact E.
  - right. left. apply Nat.eqb_eq. exact E.
  - right. right. left. apply gtb_Fin. exact E.
  - right. right. right. apply gtb_Fin. exact E.
Qed.

(** [interp1d] between two neighbouring nodes of the abscissas. *)
Lemma interp1d_segment (xs ys : list Q) (a b : nat) (x : Q) :
  length xs = length ys -> (a < length xs)%nat -> (b < length xs)%nat ->
  neighbours (map Fin xs) a b = true ->
  nth a xs 0 <= x <= nth b xs 0 ->
  exists v, Mathutils.interp1d (map Fin xs) (map Fin ys) (Fin x) = Fin v /\
            v == nth a ys 0
                 + (x - nth a xs 0) * (nth b ys 0 - nth a ys 0) / (nth b xs 0 - nth a xs 0).
Proof.
  intros Hlen Ha Hb Hn Hx.
  destruct (neighbours_spec xs a b Ha Hb Hn) as [Hab Htri].
  unfold Mathutils.interp1d. cbn [is_nan]. rewrite combine_lift.
  destruct (sort_lift (combine xs ys)) as (P' & -> & Hin & Hsorted).
  assert (Hnode : forall j, (j < length xs)%nat -> In (nth j xs 0, nth j ys 0) P').
  { intros j Hj. apply Hin. rewrite <- (combine_nth xs ys j 0 0 Hlen).
    apply nth_In. rewrite length_combine. lia. }
  apply (interp_segment P' (nth a xs 0, nth a ys 0) (nth b xs 0, nth b ys 0) x);
    cbn [fst snd]; auto.
  intros p Hp. apply Hin in Hp.
  destruct (In_nth _ _ (0, 0) Hp) as (j & Hj & Hnth).
  rewrite length_combine in Hj. rewrite combine_nth in Hnth by exact Hlen.
  subst p. cbn [fst].
  destruct (Htri j ltac:(lia)) as [->|[->|[T|T]]]; auto.
Qed.

(** Between two nodes that are neighbours in ratio and in height, with the
    height falling as the ratio rises, each interpolant undoes the other. *)
Lemma round_trip_segment (mq hq : list Q) (a b : nat) :
  length hq = length mq -> (a < length mq)%nat -> (b < length mq)%nat ->
  neighbours (map Fin mq) a b = true ->
  neighbours (map Fin hq) b a = true ->
  (forall x, nth a mq 0 <= x <= nth b mq 0 ->
     Mathutils.interp1d (map Fin hq) (map Fin mq)
       (Mathutils.interp1d (map Fin mq) (map Fin hq) (Fin x)) =n= Fin x) /\
  (forall y, nth b hq 0 <= y <= nth a hq 0 ->
     Mathutils.interp1d (map Fin mq) (map Fin hq)
       (Mathutils.interp1d (map Fin hq) (map Fin mq) (Fin y)) =n= Fin y).
Proof.
  intros Hlen Ha Hb Hm Hh.
  destruct (neighbours_spec mq a b Ha Hb Hm) as [Hmab _].
  destruct (neighbours_spec hq b a ltac:(lia) ltac:(lia) Hh) as [Hhba _].
  set (ma := nth a mq 0) in *. set (mb := nth b mq 0) in *.
  set (ha := nth a hq 0) in *. set (hb := nth b hq 0) in *.
  split.
  - intros x Hx.
    destruct (interp1d_segment mq hq a b x ltac:(lia) Ha Hb Hm Hx) as (v & -> & Hv).
    fold ma mb ha hb in Hv.
    set (t := (x - ma) / (mb - ma)) in *.
    assert (Ht : 0 <= t <= 1).
    { unfold t. split.
      - apply Qle_shift_div_l; lra.
      - apply Qle_shift_div_r; lra. }
    assert (Hvt : v == ha - t * (ha - hb)) by (rewrite Hv; unfold t; field; lra).
    assert (Hprod : 0 <= t * (ha - hb) <= ha - hb).
    { split.
      - apply Qmult_le_0_compat; lra.
      - setoid_replace (ha - hb) with (1 * (ha - hb)) at 2 by ring.
        apply Qmult_le_compat_r; lra. }
    destruct (interp1d_segment hq mq b a v Hlen ltac:(lia) ltac:(lia) Hh) as (w & -> & Hw).
    { fold ha hb. lra. }
    fold ma mb ha hb in Hw. cbn [num_eq]. rewrite Hw, Hvt. unfold t. field. lra.
  - intros y Hy.
    destruct (interp1d_segment hq mq b a y Hlen ltac:(lia) ltac:(lia) Hh Hy) as (v & -> & Hv).
    fold ma mb ha hb in Hv.
    set (t := (y - hb) / (ha - hb)) in *.
    assert (Ht : 0 <= t <= 1).
    { unfold t. split.
      - apply Qle_shift_div_l; lra.
      - apply Qle_shift_div_r; lra. }
    assert (Hvt : v == mb - t * (mb - ma)) by (rewrite Hv; unfold t; field; lra).
    assert (Hprod : 0 <= t * (mb - ma) <= mb - ma).
    { split.
      - apply Qmult_le_0_compat; lra.
      - setoid_replace (mb - ma) with (1 * (mb - ma)) at 2 by ring.
        apply Qmult_le_compat_r; lra. }
    destruct (interp1d_segment mq hq a b v ltac:(lia) Ha Hb Hm) as (w & -> & Hw).
    { fold ma mb. lra. }
    fold ma mb ha hb in Hw. cbn [num_eq]. rewrite Hw, Hvt. unfold t. field. lra.
Qed.

(** At a node whose height and whose material ratio each occur once, both
    round trips return the node. *)
Lemma round_trip_node (self : AbbottFirestoneCurve) (i : nat) :
  length (height self) = length (material_ratio self) ->
  all_fin (height self) = true ->
  all_fin (material_ratio self) = true ->
  (i < length (height self))%nat ->
  occurs_once (nth i (height self) NaN) (height self) = true ->
  occurs_once (nth i (material_ratio self) NaN) (material_ratio self) = true ->
  Smr Mathutils.impl self (Smc Mathutils.impl self (nth i (material_ratio self) NaN))
  =n= nth i (material_ratio self) NaN /\
  Smc Mathutils.impl self (Smr Mathutils.impl self (nth i (height self) NaN))
  =n= nth i (height self) NaN.
Proof.
  intros Hlen Hfh Hfm Hi Hoh Hom.
  unfold Smr, Smc. cbn [interp1d Mathutils.impl].
  destruct (all_fin_map _ Hfh) as [hq Hh]. destruct (all_fin_map _ Hfm) as [mq Hm].
  rewrite Hh, Hm in *. rewrite !length_map in *.
  rewrite !nth_map_Fin in * by lia.
  split.
  - destruct (interp1d_node mq hq i (nth i mq 0)) as (v & -> & Hv);
      [lia | lia | exact Hom | reflexivity |].
    destruct (interp1d_node hq mq i v) as (w & -> & Hw);
      [lia | lia | exact Hoh | exact Hv |].
    exact Hw.
  - destruct (interp1d_node hq mq i (nth i hq 0)) as (v & -> & Hv);
      [lia | lia | exact Hoh | reflexivity |].
    destruct (interp1d_node mq hq i v) as (w & -> & Hw);
      [lia | lia | exact Hom | exact Hv |].
    exact Hw.
Qed.

(** C6, amended.  On a curve of finite values the round trips are exact
    (i) at every node whose height and whose material ratio each occur
    once, and (ii) between any two nodes [a] and [b] that are neighbours
    both in ratio and in height, the height falling as the ratio rises:
    [Smr(Smc(x)) = x] for every [x] from [material_ratio[a]] to
    [material_ratio[b]], and [Smc(Smr(y)) = y] for every [y] from
    [height[b]] to [height[a]].  What is left out is where two nodes share
    a value or where the order of the ratios differs from that of the
    heights, as in the top and the bottom bin of a constructed curve, whose
    ratio is 100 at both ends. *)
Theorem round_trip_at_nodes_and_between_neighbours (self : AbbottFirestoneCurve) :
  length (height self) = length (material_ratio self) ->
  all_fin (height self) = true ->
  all_fin (material_ratio self) = true ->
  (forall i, (i < length (height self))%nat ->
     occurs_once (nth i (height self) NaN) (height self) = true ->
     occurs_once (nth i (material_ratio self) NaN) (material_ratio self) = true ->
     Smr Mathutils.impl self (Smc Mathutils.impl self (nth i (material_ratio self) NaN))
     =n= nth i (material_ratio self) NaN /\
     Smc Mathutils.impl self (Smr Mathutils.impl self (nth i (height self) NaN))
     =n= nth i (height self) NaN) /\
  (forall a b, (a < length (height self))%nat -> (b < length (height self))%nat ->
     neighbours (material_ratio self) a b = true ->
     neighbours (height self) b a = true ->
     (forall x, geb (Fin x) (nth a (material_ratio self) NaN) = true ->
                geb (nth b (material_ratio self) NaN) (Fin x) = true ->
                Smr Mathutils.impl self (Smc Mathutils.impl self (Fin x)) =n= Fin x) /\
     (forall y, geb (Fin y) (nth b (height self) NaN) = true ->
                geb (nth a (height self) NaN) (Fin y) = true ->
                Smc Mathutils.impl self (Smr Mathutils.impl self (Fin y)) =n= Fin y)).
Proof.
  intros Hlen Hfh Hfm. split.
  - intros i. apply round_trip_node; assumption.
  - intros a b Ha Hb Hm Hh.
    unfold Smr, Smc. cbn [interp1d Mathutils.impl].
    destruct (all_fin_map _ Hfh) as [hq Hhq]. destruct (all_fin_map _ Hfm) as [mq Hmq].
    rewrite Hhq, Hmq in *. rewrite !length_map in *.
    destruct (round_trip_segment mq hq a b Hlen ltac:(lia) ltac:(lia) Hm Hh) as [Hx Hy].
    split.
    + intros x H1 H2. rewrite nth_map_Fin in H1, H2 by lia.
      apply geb_Fin in H1. apply geb_Fin in H2. apply Hx. split; assumption.
    + intros y H1 H2. rewrite nth_map_Fin in H1, H2 by lia.
      apply geb_Fin in H1. apply geb_Fin in H2. apply Hy. split; assumption.
Qed.

Lemma round_trip_at_nodes_and_between_neighbours_witness :
  exists self,
    __init__ Mathutils.impl [0; 1; 2] 3 = Some self /\
    length (height self) = length (material_ratio self) /\
    all_fin (height self) = true /\
    all_fin (material_ratio self) = true /\
    (1 < length (height self))%nat /\
    (2 < length (height self))%nat /\
    occurs_once (nth 1 (height self) NaN) (height self) = true /\
    occurs_once (nth 1 (material_ratio self) NaN) (material_ratio self) = true /\
    neighbours (material_ratio self) 1 2 = true /\
    neighbours (height self) 2 1 = true /\
    geb (Fin 50) (nth 1 (material_ratio self) NaN) = true /\
    geb (nth 2 (material_ratio self) NaN) (Fin 50) = true /\
    geb (Fin 1) (nth 2 (height self) NaN) = true /\
    geb (nth 1 (height self) NaN) (Fin 1) = true /\
    (Smr Mathutils.impl self (Smc Mathutils.impl self (nth 1 (material_ratio self) NaN))
     =n= nth 1 (material_ratio self) NaN /\
     Smc Mathutils.impl self (Smr Mathutils.impl self (nth 1 (height self) NaN))
     =n= nth 1 (height self) NaN) /\
    Smr Mathutils.impl self (Smc Mathutils.impl self (Fin 50)) =n= Fin 50 /\
    Smc Mathutils.impl self (Smr Mathutils.impl self (Fin 1)) =n= Fin 1.
Proof.
  eexists. split; [vm_compute; reflexivity|].
  split; [reflexivity|]. split; [reflexivity|]. split; [reflexivity|].
  split; [cbn; lia|]. split; [cbn; lia|].
  split; [vm_compute; reflexivity|]. split; [vm_compute; reflexivity|].
  split; [vm_compute; reflexivity|]. split; [vm_compute; reflexivity|].
  split; [vm_compute; reflexivity|]. split; [vm_compute; reflexivity|].
  split; [vm_compute; reflexivity|]. split; [vm_compute; reflexivity|].
  match goal with
  | |- (Smr _ ?s _ =n= _ /\ _) /\ _ =>
      destruct (round_trip_at_nodes_and_between_neighbours s)
        as [Hnode Hseg]; [reflexivity | reflexivity | reflexivity |]
  end.
  split.
  - apply (Hnode 1%nat); [cbn; lia | vm_compute; reflexivity | vm_compute; reflexivity].
  - destruct (Hseg 1%nat 2%nat) as [Hx Hy];
      [cbn; lia | cbn; lia | vm_compute; reflexivity | vm_compute; reflexivity |].
    split.
    + apply (Hx 50); vm_compute; reflexivity.
    + apply (Hy 1); vm_compute; reflexivity.
Defined.

(* ================================================================= *)
(** * Further properties of the class *)

(* ================================================================= *)
(** ** The constructor *)

Lemma init_no_bin (M : mathutils) (data : list Q) (nbins : Z) :
  (nbins < 1)%Z -> __init__ M data nbins = None.
Proof.
  intros H. unfold __init__, _get_material_ratio_curve, Np.histogram.
  destruct (Z.ltb_spec nbins 1); [reflexivity | lia].
Qed.

Lemma init_some_bins (M : mathutils) (data : list Q) (nbins : Z)
    (self : AbbottFirestoneCurve) :
  __init__ M data nbins = Some self -> (1 <= nbins)%Z.
Proof.
  intros H. destruct (Z.ltb_spec nbins 1) as [Hlt|Hge]; [|exact Hge].
  rewrite init_no_bin in H by exact Hlt. discriminate.
Qed.

(** X1.  The constructor raises exactly when [_get_material_ratio_curve]
    does, that is when [np.histogram] raises, as it does for [nbins < 1]:
    on a curve that [_get_material_ratio_curve] returns,
    [_calculate_equivalence_line] never raises, whatever the helpers
    compute. *)
Theorem init_raises_iff_curve_raises (M : mathutils) (data : list Q) (nbins : Z) :
  (__init__ M data nbins = None <-> _get_material_ratio_curve data nbins = None) /\
  ((nbins < 1)%Z -> __init__ M data nbins = None).
Proof.
  split; [|apply init_no_bin].
  split.
  - intros H. destruct (Z.ltb_spec nbins 1) as [Hlt|Hge].
    + unfold _get_material_ratio_curve, Np.histogram.
      destruct (Z.ltb_spec nbins 1); [reflexivity | lia].
    + rewrite init_eq in H by exact Hge. discriminate.
  - intros H. unfold __init__. rewrite H. reflexivity.
Qed.

Lemma init_raises_iff_curve_raises_witness :
  _get_material_ratio_curve [0; 1] 0 = None /\ (0 < 1)%Z /\
  __init__ Mathutils.impl [0; 1] 0 = None.
Proof.
  split; [reflexivity|]. split; [lia|].
  apply (proj2 (init_raises_iff_curve_raises Mathutils.impl [0; 1] 0)). lia.
Defined.

(** X2.  On every object the constructor builds, [intercept] and [y_upper]
    are plus infinity and [y_lower] and [Sk()] are NaN: the line is
    computed from the sentinel slope minus infinity at index 0, where the
    ratio is 100. *)
Theorem constructed_line_is_degenerate (M : mathutils) (data : list Q) (nbins : Z)
    (self : AbbottFirestoneCurve) :
  __init__ M data nbins = Some self ->
  slope self = NInf /\ intercept self = PInf /\ y_upper self = PInf /\
  y_lower self = NaN /\ Sk self = NaN.
Proof.
  intros H. pose proof (init_some_bins M data nbins self H) as Hn.
  rewrite init_eq in H by exact Hn. injection H as <-. repeat split.
Qed.

Lemma constructed_line_is_degenerate_witness :
  exists self,
    __init__ Mathutils.impl [0; 1; 3; 7] 4 = Some self /\
    slope self = NInf /\ intercept self = PInf /\ y_upper self = PInf /\
    y_lower self = NaN /\ Sk self = NaN.
Proof.
  eexists. split; [apply init_eq; lia|].
  apply (constructed_line_is_degenerate Mathutils.impl [0; 1; 3; 7] 4).
  apply init_eq. lia.
Defined.

(** The cumulative counts lie between 0 and the number of samples. *)
Lemma curve_cumsum_bounds (data : list Q) (nbins : Z) (j : nat) :
  (1 <= nbins)%Z -> (j < Z.to_nat nbins)%nat ->
  (0 <= nth j (Np.cumsum (rev (counts_of data nbins))) 0 <= Z.of_nat (length data))%Z.
Proof.
  intros H Hj.
  assert (Hlen : length (rev (counts_of data nbins)) = Z.to_nat nbins)
    by (rewrite length_rev; apply length_counts_of).
  split.
  - apply (cumsum_from_ge _ (counts_nonneg data nbins) 0%Z j). lia.
  - rewrite <- (curve_total data nbins H).
    assert (Hlast : nth (length (rev (counts_of data nbins)) - 1)
                        (Np.cumsum (rev (counts_of data nbins))) 0%Z
                    = (0 + Np.sum (rev (counts_of data nbins)))%Z).
    { apply cumsum_from_last. intros E. rewrite E in Hlen. cbn in Hlen. lia. }
    rewrite Z.add_0_l in Hlast. rewrite <- Hlast.
    apply cumsum_from_mono; [apply counts_nonneg | lia].
Qed.

(** X3.  For the empty height map (and [nbins >= 1]) the constructor does
    not raise: the edges run from 1 down to 0, and every material ratio
    after the prepended 100 is NaN, the quotient 0/0. *)
Theorem empty_map_ratio_is_nan (nbins : Z) :
  (1 <= nbins)%Z ->
  exists h mr,
    _get_material_ratio_curve [] nbins = Some (h, mr) /\
    nth 0 h NaN = Fin 1 /\
    nth (Z.to_nat nbins) h NaN =n= Fin 0 /\
    nth 0 mr NaN = Fin 100 /\
    forall i, (1 <= i <= Z.to_nat nbins)%nat -> nth i mr (Fin 0) = NaN.
Proof.
  intros H. exists (height_of [] nbins), (material_ratio_of [] nbins).
  split; [apply curve_eq; exact H|].
  split; [|split; [|split; [reflexivity|]]].
  - unfold height_of. rewrite height_nth by lia. rewrite Nat.sub_0_r.
    unfold edges_of. rewrite linspace_nth_last. reflexivity.
  - unfold height_of. rewrite height_nth by lia. rewrite Nat.sub_diag.
    unfold edges_of. cbn [num_eq]. rewrite linspace_first by lia. reflexivity.
  - intros i Hi. destruct i as [|i]; [lia|].
    unfold material_ratio_of.
    rewrite (nth_indep _ (Fin 0) NaN)
      by (cbn [length]; rewrite length_map, length_curve_cumsum; lia).
    rewrite material_ratio_nth by (rewrite length_curve_cumsum; lia).
    rewrite curve_total by exact H.
    pose proof (curve_cumsum_bounds [] nbins i H ltac:(lia)) as Hb.
    cbn [length] in Hb.
    replace (nth i (Np.cumsum (rev (counts_of [] nbins))) 0%Z) with 0%Z by lia.
    reflexivity.
Qed.

Lemma empty_map_ratio_is_nan_witness :
  (1 <= 3)%Z /\
  exists h mr,
    _get_material_ratio_curve [] 3 = Some (h, mr) /\
    nth 0 h NaN = Fin 1 /\
    nth (Z.to_nat 3) h NaN =n= Fin 0 /\
    nth 0 mr NaN = Fin 100 /\
    forall i, (1 <= i <= Z.to_nat 3)%nat -> nth i mr (Fin 0) = NaN.
Proof.
  split; [lia|]. apply (empty_map_ratio_is_nan 3). lia.
Defined.

(** X4.  For a height map with at least one sample, every material ratio
    is a finite percentage between 0 and 100. *)
Theorem material_ratio_in_percent_range (data : list Q) (nbins : Z) :
  data <> [] -> (1 <= nbins)%Z ->
  exists h mr,
    _get_material_ratio_curve data nbins = Some (h, mr) /\
    forall i, (i < length mr)%nat ->
      exists r, nth i mr NaN = Fin r /\ 0 <= r <= 100.
Proof.
  intros Hne H. exists (height_of data nbins), (material_ratio_of data nbins).
  split; [apply curve_eq; exact H|].
  unfold material_ratio_of. intros i Hi.
  cbn [length] in Hi. rewrite length_map, length_curve_cumsum in Hi.
  destruct i as [|i]; [exists 100; split; [reflexivity | lra]|].
  rewrite material_ratio_nth by (rewrite length_curve_cumsum; lia).
  rewrite curve_total by exact H.
  assert (Hpos : (0 < Z.of_nat (length data))%Z)
    by (destruct data; [congruence | cbn [length]; lia]).
  rewrite ratio_of_fin by exact Hpos.
  eexists. split; [reflexivity|].
  pose proof (curve_cumsum_bounds data nbins i H ltac:(lia)) as [Hlo Hhi].
  set (c := nth i (Np.cumsum (rev (counts_of data nbins))) 0%Z) in *.
  assert (Hq : 0 < inject_Z (Z.of_nat (length data)))
    by (change 0 with (inject_Z 0); rewrite <- Zlt_Qlt; exact Hpos).
  assert (Hc0 : 0 <= inject_Z c) by (change 0 with (inject_Z 0); rewrite <- Zle_Qle; exact Hlo).
  assert (Hc1 : inject_Z c <= inject_Z (Z.of_nat (length data)))
    by (rewrite <- Zle_Qle; exact Hhi).
  assert (Hd0 : 0 <= inject_Z c / inject_Z (Z.of_nat (length data)))
    by (apply Qle_shift_div_l; lra).
  assert (Hd1 : inject_Z c / inject_Z (Z.of_nat (length data)) <= 1)
    by (apply Qle_shift_div_r; lra).
  split; lra.
Qed.

Lemma material_ratio_in_percent_range_witness :
  [0; 1; 2] <> [] /\ (1 <= 3)%Z /\
  exists h mr,
    _get_material_ratio_curve [0; 1; 2] 3 = Some (h, mr) /\
    forall i, (i < length mr)%nat ->
      exists r, nth i mr NaN = Fin r /\ 0 <= r <= 100.
Proof.
  split; [discriminate|]. split; [lia|].
  apply (material_ratio_in_percent_range [0; 1; 2] 3); [discriminate | lia].
Defined.

(* ================================================================= *)
(** ** What the cumulative ratio counts *)

Lemma cumsum_from_nth (l : list Z) (acc : Z) (j : nat) :
  (j < length l)%nat ->
  nth j (Np.cumsum_from acc l) 0%Z = (acc + Np.sum (firstn (S j) l))%Z.
Proof.
  revert acc j. induction l as [|x l IH]; intros acc j Hj; [cbn in Hj; lia|].
  cbn [Np.cumsum_from]. destruct j as [|j].
  - cbn [nth firstn]. rewrite sum_cons. change (Np.sum []) with 0%Z. lia.
  - cbn [nth length] in *. rewrite IH by lia.
    change (firstn (S (S j)) (x :: l)) with (x :: firstn (S j) l).
    rewrite sum_cons. lia.
Qed.

Lemma sum_indicator_range (i : Z) (a m : nat) :
  Np.sum (map (fun k => if Z.eq_dec i (Z.of_nat k) then 1%Z else 0%Z) (seq a m)) =
  if ((Z.of_nat a <=? i) && (i <? Z.of_nat (a + m)))%Z then 1%Z else 0%Z.
Proof.
  revert a. induction m as [|m IH]; intros a.
  - cbn [seq map]. change (Np.sum []) with 0%Z.
    destruct (Z.leb_spec (Z.of_nat a) i), (Z.ltb_spec i (Z.of_nat (a + 0)));
      cbn [andb]; try reflexivity; lia.
  - cbn [seq map]. rewrite sum_cons, IH.
    destruct (Z.eq_dec i (Z.of_nat a)) as [E|Hne];
      destruct (Z.leb_spec (Z.of_nat (S a)) i), (Z.ltb_spec i (Z.of_nat (S a + m)));
      destruct (Z.leb_spec (Z.of_nat a) i), (Z.ltb_spec i (Z.of_nat (a + S m)));
      cbn [andb]; try reflexivity; lia.
Qed.

(** The counts of a range of bins add up to the number of indices in it. *)
Lemma sum_bincount_range (indices : list Z) (a m : nat) :
  Np.sum (map (fun k => Z.of_nat (count_occ Z.eq_dec indices (Z.of_nat k))) (seq a m)) =
  Z.of_nat (length (filter (fun i => (Z.of_nat a <=? i) && (i <? Z.of_nat (a + m)))%Z
                           indices)).
Proof.
  induction indices as [|i l IH].
  - cbn [count_occ filter length]. induction (seq a m) as [|k s IHs]; [reflexivity|].
    cbn [map]. rewrite sum_cons, IHs. reflexivity.
  - rewrite sum_count_cons, IH, sum_indicator_range. cbn [filter].
    destruct ((Z.of_nat a <=? i) && (i <? Z.of_nat (a + m)))%Z; cbn [length]; lia.
Qed.

Lemma filter_map_length {A B : Type} (f : A -> B) (p : B -> bool) (l : list A) :
  length (filter p (map f l)) = length (filter (fun x => p (f x)) l).
Proof.
  induction l as [|x l IH]; [reflexivity|]. cbn [map filter].
  destruct (p (f x)); cbn [length]; rewrite IH; reflexivity.
Qed.

(** A sample lies in bin [a] or above exactly when it is at or above the
    lower edge of bin [a]. *)
Lemma bin_index_ge_edge (first_edge last_edge : Q) (n a : nat) (v : Q) :
  first_edge < last_edge -> (a < n)%nat ->
  first_edge <= v -> v <= last_edge ->
  ((Z.of_nat a <= Np.bin_index first_edge last_edge n v)%Z <->
   nth a (Np.linspace first_edge last_edge n) 0 <= v).
Proof.
  intros Hlt Ha Hlo Hhi. rewrite linspace_nth_inner by exact Ha.
  unfold Np.bin_index.
  set (d := last_edge - first_edge).
  set (N := inject_Z (Z.of_nat n)).
  set (A := inject_Z (Z.of_nat a)).
  set (r := (v - first_edge) / d).
  assert (Hd : 0 < d) by (unfold d; lra).
  assert (HN : 0 < N)
    by (unfold N; change 0 with (inject_Z 0); rewrite <- Zlt_Qlt; lia).
  assert (Hrd : r * d == v - first_edge)
    by (unfold r; field; lra).
  assert (Hstep : A * (d / N) == A / N * d) by (field; lra).
  assert (Hkey : A <= r * N <-> A * (d / N) + first_edge <= v).
  { rewrite Hstep. split; intros H.
    - assert (H1 : A / N <= r) by (apply Qle_shift_div_r; assumption).
      assert (H2 : A / N * d <= r * d) by (apply Qmult_le_compat_r; lra).
      lra.
    - assert (H2 : A / N <= r)
        by (apply Qmult_lt_0_le_reg_r with (z := d); [exact Hd | lra]).
      assert (E : A / N * N == A) by (field; lra).
      rewrite <- E. apply Qmult_le_compat_r; lra. }
  rewrite <- Hkey. clear Hkey.
  split; intros H.
  - assert (Hf : (Z.of_nat a <= Qfloor (r * N))%Z).
    { destruct (Z.eqb_spec (Qfloor (r * N)) (Z.of_nat n)); lia. }
    apply Qle_trans with (y := inject_Z (Qfloor (r * N))).
    + unfold A. rewrite <- Zle_Qle. exact Hf.
    + apply Qfloor_le.
  - apply Qfloor_resp_le in H. unfold A in H. rewrite Qfloor_Z in H.
    destruct (Z.eqb_spec (Qfloor (r * N)) (Z.of_nat n)); lia.
Qed.

Lemma keep_all (data : list Q) :
  filter (fun v => Qle_bool (fst (Np.outer_edges data)) v
                   && Qle_bool v (snd (Np.outer_edges data))) data = data.
Proof.
  apply filter_all. eapply Forall_impl; [|apply outer_edges_bounds].
  intros v [Hlo Hhi]. apply andb_true_intro. split; apply Qle_bool_iff; assumption.
Qed.

(** The cumulative count at position [j] is the number of samples at or
    above the lower edge of the bin [nbins - 1 - j]. *)
Lemma curve_cumsum_counts (data : list Q) (nbins : Z) (j : nat) :
  (1 <= nbins)%Z -> (j < Z.to_nat nbins)%nat ->
  nth j (Np.cumsum (rev (counts_of data nbins))) 0%Z =
  Z.of_nat (count_at_or_above data (nth (Z.to_nat nbins - S j) (edges_of data nbins) 0)).
Proof.
  intros H Hj. unfold Np.cumsum.
  rewrite cumsum_from_nth by (rewrite length_rev, length_counts_of; exact Hj).
  rewrite Z.add_0_l, firstn_rev, sum_rev, length_counts_of.
  unfold counts_of, Np.bincount. rewrite keep_all.
  rewrite skipn_map, skipn_seq, sum_bincount_range.
  rewrite filter_map_length. unfold count_at_or_above. f_equal. f_equal.
  apply filter_ext_in. intros v Hv.
  pose proof (outer_edges_bounds data) as Hb. rewrite Forall_forall in Hb.
  destruct (Hb v Hv) as [Hlo Hhi].
  pose proof (outer_edges_lt data) as Hlt.
  set (n := Z.to_nat nbins) in *.
  assert (Hn : (0 < n)%nat) by (unfold n; lia).
  pose proof (bin_index_range _ _ n v Hn Hlt Hlo Hhi) as Hr.
  pose proof (bin_index_ge_edge _ _ n (n - S j) v Hlt ltac:(lia) Hlo Hhi) as Hiff.
  replace (0 + (n - S j))%nat with (n - S j)%nat by lia.
  replace (n - S j + (n - (n - S j)))%nat with n by lia.
  unfold edges_of. fold n.
  destruct (Qle_bool (nth (n - S j) (Np.linspace (fst (Np.outer_edges data))
                                                 (snd (Np.outer_edges data)) n) 0) v) eqn:E.
  - apply Qle_bool_iff in E. apply Hiff in E.
    apply andb_true_intro. split; [apply Z.leb_le; exact E | apply Z.ltb_lt; lia].
  - apply andb_false_intro1. apply Z.leb_gt.
    destruct (Z.lt_ge_cases (Np.bin_index (fst (Np.outer_edges data))
                               (snd (Np.outer_edges data)) n v) (Z.of_nat (n - S j)))
      as [Hl|Hg]; [exact Hl|].
    apply Hiff in Hg. apply Qle_bool_iff in Hg. congruence.
Qed.

(** X5.  For a height map with [N >= 1] samples and every index [i] from 1
    to [nbins], [material_ratio[i]] is the percentage of samples whose
    height is at or above [height[i]]:
    [100 * #{v in data : v >= height[i]} / N]. *)
Theorem material_ratio_is_share_at_or_above (data : list Q) (nbins : Z) (i : nat) :
  data <> [] -> (1 <= nbins)%Z -> (1 <= i <= Z.to_nat nbins)%nat ->
  exists h mr level,
    _get_material_ratio_curve data nbins = Some (h, mr) /\
    nth i h NaN = Fin level /\
    nth i mr NaN =
    Fin (inject_Z (Z.of_nat (count_at_or_above data level))
         / inject_Z (Z.of_nat (length data)) * 100).
Proof.
  intros Hne H Hi.
  exists (height_of data nbins), (material_ratio_of data nbins),
         (nth (Z.to_nat nbins - i) (edges_of data nbins) 0).
  split; [apply curve_eq; exact H|].
  split; [unfold height_of; apply height_nth; lia|].
  destruct i as [|j]; [lia|].
  unfold material_ratio_of.
  rewrite material_ratio_nth by (rewrite length_curve_cumsum; lia).
  rewrite curve_total by exact H.
  rewrite ratio_of_fin by (destruct data; [congruence | cbn [length]; lia]).
  rewrite curve_cumsum_counts by (try exact H; lia). reflexivity.
Qed.

Lemma material_ratio_is_share_at_or_above_witness :
  [0; 1; 2; 2] <> [] /\ (1 <= 4)%Z /\ (1 <= 2 <= Z.to_nat 4)%nat /\
  exists h mr level,
    _get_material_ratio_curve [0; 1; 2; 2] 4 = Some (h, mr) /\
    nth 2 h NaN = Fin level /\
    nth 2 mr NaN =
    Fin (inject_Z (Z.of_nat (count_at_or_above [0; 1; 2; 2] level))
         / inject_Z (Z.of_nat (length [0; 1; 2; 2])) * 100).
Proof.
  split; [discriminate|]. split; [lia|]. split; [cbn; lia|].
  apply (material_ratio_is_share_at_or_above [0; 1; 2; 2] 4 2);
    [discriminate | lia | cbn; lia].
Defined.

(* ================================================================= *)
(** ** The drop after the prepended 100 *)

Lemma amin_In (l : list Q) (x : Q) : In (Np.amin x l) (x :: l).
Proof.
  unfold Np.amin. revert x. induction l as [|y l IH]; intros x; [left; reflexivity|].
  cbn [fold_left]. destruct (IH (Qmin x y)) as [E|Hin].
  - rewrite <- E. unfold Qmin, GenericMinMax.gmin.
    destruct (x ?= y); [left | left | right; left]; reflexivity.
  - right. right. exact Hin.
Qed.

Lemma amax_In (l : list Q) (x : Q) : In (Np.amax x l) (x :: l).
Proof.
  unfold Np.amax. revert x. induction l as [|y l IH]; intros x; [left; reflexivity|].
  cbn [fold_left]. destruct (IH (Qmax x y)) as [E|Hin].
  - rewrite <- E. unfold Qmax, GenericMinMax.gmax.
    destruct (x ?= y); [left | right; left | left]; reflexivity.
  - right. right. exact Hin.
Qed.

Lemma filter_length_pos {A : Type} (p : A -> bool) (l : list A) (x : A) :
  In x l -> p x = true -> (1 <= length (filter p l))%nat.
Proof.
  induction l as [|a l IH]; intros Hin Hp; [destruct Hin|].
  cbn [filter]. destruct Hin as [->|Hin].
  - rewrite Hp. cbn [length]. lia.
  - specialize (IH Hin Hp). destruct (p a); cbn [length]; lia.
Qed.

Lemma filter_length_lt {A : Type} (p : A -> bool) (l : list A) (x : A) :
  In x l -> p x = false -> (length (filter p l) < length l)%nat.
Proof.
  induction l as [|a l IH]; intros Hin Hp; [destruct Hin|].
  cbn [filter length]. pose proof (filter_length p l) as Hle.
  destruct Hin as [->|Hin].
  - rewrite Hp. lia.
  - specialize (IH Hin Hp). destruct (p a); cbn [length]; lia.
Qed.

(** With two distinct samples the range is [min, max] itself. *)
Lemma outer_edges_distinct (data : list Q) (a b : Q) :
  In a data -> In b data -> a < b ->
  In (fst (Np.outer_edges data)) data /\ In (snd (Np.outer_edges data)) data.
Proof.
  intros Ha Hb Hab. destruct data as [|x l]; [destruct Ha|].
  destruct (amin_le l x) as [H1 H1'], (amax_ge l x) as [H2 H2'].
  rewrite Forall_forall in H1', H2'.
  assert (Hmin : Np.amin x l <= a) by (destruct Ha as [<-|Ha]; auto).
  assert (Hmax : b <= Np.amax x l) by (destruct Hb as [<-|Hb]; auto).
  unfold Np.outer_edges.
  assert (E : Qeqb (Np.amin x l) (Np.amax x l) = false) by (apply Qeqb_false; lra).
  rewrite E. cbn [fst snd]. split; [apply amin_In | apply amax_In].
Qed.

(** X6.  For every height map with two distinct values and every
    [nbins >= 2], [0 < material_ratio[1] < 100 = material_ratio[0]]: the
    sequence always drops after its first element, because the maximum is
    counted in the top bin and the minimum is not. *)
Theorem material_ratio_drops_after_first (data : list Q) (nbins : Z) (a b : Q) :
  In a data -> In b data -> a < b -> (2 <= nbins)%Z ->
  exists h mr r,
    _get_material_ratio_curve data nbins = Some (h, mr) /\
    nth 0 mr NaN = Fin 100 /\
    nth 1 mr NaN = Fin r /\ 0 < r < 100 /\
    gtb (nth 0 mr NaN) (nth 1 mr NaN) = true.
Proof.
  intros Ha Hb Hab Hn.
  assert (H : (1 <= nbins)%Z) by lia.
  assert (Hne : data <> []) by (intros ->; destruct Ha).
  exists (height_of data nbins), (material_ratio_of data nbins).
  unfold material_ratio_of.
  assert (Hpos : (0 < Z.of_nat (length data))%Z)
    by (destruct data; [congruence | cbn [length]; lia]).
  eexists. split; [apply curve_eq; exact H|]. split; [reflexivity|].
  rewrite material_ratio_nth by (rewrite length_curve_cumsum; lia).
  rewrite curve_total, ratio_of_fin, curve_cumsum_counts by (try assumption; lia).
  split; [reflexivity|].
  set (n := Z.to_nat nbins) in *.
  set (level := nth (n - 1) (edges_of data nbins) 0).
  destruct (outer_edges_distinct data a b Ha Hb Hab) as [Hlo Hhi].
  pose proof (outer_edges_lt data) as Hlt.
  assert (Hlevel_hi : level < snd (Np.outer_edges data)).
  { unfold level, edges_of. fold n.
    rewrite <- (linspace_nth_last (fst (Np.outer_edges data)) (snd (Np.outer_edges data)) n)
      at 2.
    apply linspace_increasing; [exact Hlt | lia]. }
  assert (Hlevel_lo : fst (Np.outer_edges data) < level).
  { unfold level, edges_of. fold n.
    rewrite <- (linspace_first (fst (Np.outer_edges data)) (snd (Np.outer_edges data)) n)
      at 1 by lia.
    apply linspace_increasing; [exact Hlt | lia]. }
  assert (Hc1 : (1 <= count_at_or_above data level)%nat).
  { unfold count_at_or_above.
    apply (filter_length_pos _ data (snd (Np.outer_edges data)) Hhi).
    apply Qle_bool_iff. lra. }
  assert (Hc2 : (count_at_or_above data level < length data)%nat).
  { unfold count_at_or_above.
    apply (filter_length_lt _ data (fst (Np.outer_edges data)) Hlo).
    destruct (Qle_bool level (fst (Np.outer_edges data))) eqn:E; [|reflexivity].
    apply Qle_bool_iff in E. lra. }
  set (c := count_at_or_above data level) in *.
  assert (Hq : 0 < inject_Z (Z.of_nat (length data)))
    by (change 0 with (inject_Z 0); rewrite <- Zlt_Qlt; exact Hpos).
  assert (Hcq0 : 0 < inject_Z (Z.of_nat c))
    by (change 0 with (inject_Z 0); rewrite <- Zlt_Qlt; lia).
  assert (Hcq1 : inject_Z (Z.of_nat c) < inject_Z (Z.of_nat (length data)))
    by (rewrite <- Zlt_Qlt; lia).
  assert (Hd0 : 0 < inject_Z (Z.of_nat c) / inject_Z (Z.of_nat (length data)))
    by (apply Qlt_shift_div_l; lra).
  assert (Hd1 : inject_Z (Z.of_nat c) / inject_Z (Z.of_nat (length data)) < 1)
    by (apply Qlt_shift_div_r; lra).
  split; [split; lra|]. cbn [nth]. apply gtb_Fin. lra.
Qed.

Lemma material_ratio_drops_after_first_witness :
  In 0 [0; 1; 4] /\ In 4 [0; 1; 4] /\ 0 < 4 /\ (2 <= 2)%Z /\
  exists h mr r,
    _get_material_ratio_curve [0; 1; 4] 2 = Some (h, mr) /\
    nth 0 mr NaN = Fin 100 /\
    nth 1 mr NaN = Fin r /\ 0 < r < 100 /\
    gtb (nth 0 mr NaN) (nth 1 mr NaN) = true.
Proof.
  split; [left; reflexivity|]. split; [right; right; left; reflexivity|].
  split; [reflexivity|]. split; [lia|].
  apply (material_ratio_drops_after_first [0; 1; 4] 2 0 4);
    [left; reflexivity | right; right; left; reflexivity | reflexivity | lia].
Defined.

(* ================================================================= *)
(** ** The height axis *)

Lemma inject_Z_succ (k : nat) :
  inject_Z (Z.of_nat (S k)) == inject_Z (Z.of_nat k) + 1.
Proof. rewrite Nat2Z.inj_succ. unfold Z.succ. rewrite inject_Z_plus. reflexivity. Qed.

(** Consecutive edges are one bin width apart. *)
Lemma linspace_spacing (start stop : Q) (n k : nat) :
  (k < n)%nat ->
  nth (S k) (Np.linspace start stop n) 0 - nth k (Np.linspace start stop n) 0
  == (stop - start) / inject_Z (Z.of_nat n).
Proof.
  intros Hk. rewrite (linspace_nth_inner start stop n k Hk).
  assert (Hpos : 0 <= inject_Z (Z.of_nat k))
    by (change 0 with (inject_Z 0); rewrite <- Zle_Qle; lia).
  destruct (Nat.eq_dec (S k) n) as [<-|Hne].
  - rewrite linspace_nth_last. rewrite inject_Z_succ. field. lra.
  - rewrite (linspace_nth_inner start stop n (S k)) by lia.
    rewrite inject_Z_succ. ring.
Qed.

(** X7.  For a height map with two distinct values, [height] starts at the
    largest sample, ends at the smallest one, and descends in equal steps
    of [(max - min) / nbins]. *)
Theorem height_spans_data_in_equal_steps (data : list Q) (nbins : Z) (a b : Q) :
  In a data -> In b data -> a < b -> (1 <= nbins)%Z ->
  exists h mr lo hi,
    _get_material_ratio_curve data nbins = Some (h, mr) /\
    In lo data /\ In hi data /\
    (forall v, In v data -> lo <= v <= hi) /\
    nth 0 h NaN = Fin hi /\
    nth (Z.to_nat nbins) h NaN =n= Fin lo /\
    forall i, (i < Z.to_nat nbins)%nat ->
      (nth i h NaN - nth (S i) h NaN)%num =n= Fin ((hi - lo) / inject_Z nbins).
Proof.
  intros Ha Hb Hab H.
  destruct (outer_edges_distinct data a b Ha Hb Hab) as [Hlo Hhi].
  exists (height_of data nbins), (material_ratio_of data nbins),
         (fst (Np.outer_edges data)), (snd (Np.outer_edges data)).
  split; [apply curve_eq; exact H|].
  split; [exact Hlo|]. split; [exact Hhi|].
  split.
  { pose proof (outer_edges_bounds data) as Hbd. rewrite Forall_forall in Hbd. exact Hbd. }
  unfold height_of. split; [|split].
  - rewrite height_nth by lia. rewrite Nat.sub_0_r.
    unfold edges_of. rewrite linspace_nth_last. reflexivity.
  - rewrite height_nth by lia. rewrite Nat.sub_diag.
    unfold edges_of. cbn [num_eq]. apply linspace_first. lia.
  - intros i Hi. rewrite !height_nth by lia. cbn [nsub nneg nadd num_eq].
    replace (Z.to_nat nbins - i)%nat with (S (Z.to_nat nbins - S i)) by lia.
    unfold edges_of.
    rewrite <- (Z2Nat.id nbins) at 5 by lia.
    apply linspace_spacing. lia.
Qed.

Lemma height_spans_data_in_equal_steps_witness :
  In 0 [0; 1; 4] /\ In 4 [0; 1; 4] /\ 0 < 4 /\ (1 <= 8)%Z /\
  exists h mr lo hi,
    _get_material_ratio_curve [0; 1; 4] 8 = Some (h, mr) /\
    In lo [0; 1; 4] /\ In hi [0; 1; 4] /\
    (forall v, In v [0; 1; 4] -> lo <= v <= hi) /\
    nth 0 h NaN = Fin hi /\
    nth (Z.to_nat 8) h NaN =n= Fin lo /\
    forall i, (i < Z.to_nat 8)%nat ->
      (nth i h NaN - nth (S i) h NaN)%num =n= Fin ((hi - lo) / inject_Z 8).
Proof.
  split; [left; reflexivity|]. split; [right; right; left; reflexivity|].
  split; [reflexivity|]. split; [lia|].
  apply (height_spans_data_in_equal_steps [0; 1; 4] 8 0 4);
    [left; reflexivity | right; right; left; reflexivity | reflexivity | lia].
Defined.

(* ================================================================= *)
(** ** The search on an arbitrary curve *)

(** A ratio that does not stop the loop does not exceed 100 once shifted. *)
(** X8.  The [continue] of the search loop is never taken: an index that
    passes the break test [material_ratio[i] > 60] never has
    [material_ratio[i] + 40 > 100], so the loop returns what it returns
    without that test, on every input. *)
Theorem skip_branch_is_dead (smc_fit : num -> num) (mr h : list num)
    (indices : list nat) (max_slope : num) (istart_final : nat) :
  search_loop smc_fit mr h indices max_slope istart_final =
  search_loop_without_skip smc_fit mr h indices max_slope istart_final.
Proof.
  revert max_slope istart_final.
  induction indices as [|i rest IH]; intros max_slope istart_final; [reflexivity|].
  cbn [search_loop search_loop_without_skip].
  destruct (nth_error mr i) as [m|]; [|reflexivity].
  destruct (gtb m (Fin 100 - EQUIVALENCE_LINE_WIDTH)%num) eqn:E; [reflexivity|].
  rewrite (shifted_within_100 m E).
  destruct (nth_error h i) as [hi|]; [|reflexivity].
  destruct (gtb _ max_slope); apply IH.
Qed.

Lemma gtb_trans (a b c : num) : gtb a b = true -> gtb b c = true -> gtb a c = true.
Proof. destruct a, b, c; intros H1 H2; order_cases. Qed.

Lemma gtb_not_nan (a b : num) : gtb a b = true -> is_nan a = false.
Proof. destruct a, b; intros H; order_cases. Qed.

(** The tracked state is the initial one, or a candidate whose slope is
    strictly above the initial slope. *)
Lemma tracked_shape (sl : nat -> num) (cands : list nat) (s0 : num) (i0 : nat) :
  (fst (tracked sl cands (s0, i0)) = s0 /\ snd (tracked sl cands (s0, i0)) = i0) \/
  (In (snd (tracked sl cands (s0, i0))) cands /\
   fst (tracked sl cands (s0, i0)) = sl (snd (tracked sl cands (s0, i0))) /\
   gtb (fst (tracked sl cands (s0, i0))) s0 = true).
Proof.
  revert s0 i0. induction cands as [|k cands IH]; intros s0 i0.
  - left. split; reflexivity.
  - change (tracked sl (k :: cands) (s0, i0))
      with (tracked sl cands (track sl (s0, i0) k)).
    unfold track. cbn [fst].
    destruct (gtb (sl k) s0) eqn:E.
    + right. destruct (IH (sl k) k) as [[H1 H2]|(H1 & H2 & H3)].
      * rewrite H1, H2. split; [left; reflexivity|]. split; [reflexivity | exact E].
      * split; [right; exact H1|]. split; [exact H2|].
        eapply gtb_trans; [exact H3 | exact E].
    + destruct (IH s0 i0) as [H|(H1 & H2 & H3)]; [left; exact H|].
      right. split; [right; exact H1|]. split; assumption.
Qed.

Lemma examined_not_stopped (mr : list num) (indices : list nat) (i : nat) :
  In i (examined mr indices) ->
  gtb (nth i mr NaN) (Fin 100 - EQUIVALENCE_LINE_WIDTH)%num = false.
Proof.
  induction indices as [|k rest IH]; cbn [examined]; [intros []|].
  destruct (gtb (nth k mr NaN) (Fin 100 - EQUIVALENCE_LINE_WIDTH)%num) eqn:E;
    [intros []|].
  intros [<-|Hin]; [exact E | apply IH; exact Hin].
Qed.

Lemma search_shape (M : mathutils) (mr h : list num) :
  length h = length mr ->
  exists s i,
    equivalence_line_search M mr h = Some (s, i) /\
    ((s = NInf /\ i = 0%nat) \/
     ((i < length mr)%nat /\
      s = candidate_slope (interp1d M mr h) mr h i /\
      gtb s NInf = true /\
      gtb (nth i mr NaN) (Fin 100 - EQUIVALENCE_LINE_WIDTH)%num = false)).
Proof.
  intros Hlen. unfold equivalence_line_search.
  rewrite (search_loop_tracked _ mr h Hlen)
    by (apply Forall_forall; intros x Hx; apply in_seq in Hx; lia).
  fold (valid_candidates mr).
  set (sl := candidate_slope (interp1d M mr h) mr h).
  destruct (tracked_shape sl (valid_candidates mr) NInf 0) as [[H1 H2]|(H1 & H2 & H3)];
    destruct (tracked sl (valid_candidates mr) (NInf, 0%nat)) as [s i];
    cbn [fst snd] in *; exists s, i; (split; [reflexivity|]).
  - left. split; assumption.
  - right. unfold valid_candidates in H1. apply filter_In in H1. destruct H1 as [H1 _].
    split; [apply examined_In, in_seq in H1; lia|].
    split; [exact H2|]. split; [exact H3|].
    eapply examined_not_stopped. exact H1.
Qed.

(** X9.  On sequences of equal length the search always returns: either
    the sentinel, slope minus infinity at index 0, or an index of the curve
    whose ratio is at most 60 together with its secant slope, which is
    above minus infinity; the slope returned is never NaN. *)
Theorem search_returns_sentinel_or_candidate (M : mathutils) (mr h : list num) :
  length h = length mr ->
  exists s i,
    equivalence_line_search M mr h = Some (s, i) /\
    is_nan s = false /\
    ((s = NInf /\ i = 0%nat) \/
     ((i < length mr)%nat /\
      s = candidate_slope (interp1d M mr h) mr h i /\
      gtb s NInf = true /\
      gtb (nth i mr NaN) (Fin 100 - EQUIVALENCE_LINE_WIDTH)%num = false)).
Proof.
  intros Hlen. destruct (search_shape M mr h Hlen) as (s & i & Hs & Hshape).
  exists s, i. split; [exact Hs|]. split; [|exact Hshape].
  destruct Hshape as [[-> _]|(_ & _ & Hgt & _)]; [reflexivity|].
  eapply gtb_not_nan. exact Hgt.
Qed.

Lemma search_returns_sentinel_or_candidate_witness :
  length sample_height = length sample_material_ratio /\
  exists s i,
    equivalence_line_search Mathutils.impl sample_material_ratio sample_height
    = Some (s, i) /\
    is_nan s = false /\
    ((s = NInf /\ i = 0%nat) \/
     ((i < length sample_material_ratio)%nat /\
      s = candidate_slope (interp1d Mathutils.impl sample_material_ratio sample_height)
                          sample_material_ratio sample_height i /\
      gtb s NInf = true /\
      gtb (nth i sample_material_ratio NaN) (Fin 100 - EQUIVALENCE_LINE_WIDTH)%num
      = false)).
Proof.
  split; [reflexivity|].
  apply (search_returns_sentinel_or_candidate Mathutils.impl
           sample_material_ratio sample_height).
  reflexivity.
Defined.

(** X10.  On sequences of equal length, [_calculate_equivalence_line]
    raises (the IndexError of [self.height[0]]) exactly when the curve is
    empty. *)
Theorem line_raises_iff_empty (M : mathutils) (mr h : list num) :
  length h = length mr ->
  (_calculate_equivalence_line M mr h = None <-> mr = []).
Proof.
  intros Hlen. split.
  - intros Hnone. destruct mr as [|m mr]; [reflexivity|]. exfalso.
    destruct (search_shape M (m :: mr) h Hlen) as (s & i & Hs & Hshape).
    assert (Hi : (i < length (m :: mr))%nat).
    { destruct Hshape as [[_ ->]|(Hi & _)]; [cbn [length]; lia | exact Hi]. }
    rewrite (line_of_search M (m :: mr) h s i Hlen Hs Hi) in Hnone. discriminate.
  - intros ->. destruct h; [reflexivity | discriminate].
Qed.

Lemma line_raises_iff_empty_witness :
  length sample_height = length sample_material_ratio /\
  (_calculate_equivalence_line Mathutils.impl sample_material_ratio sample_height = None
   <-> sample_material_ratio = []).
Proof.
  split; [reflexivity|].
  apply (line_raises_iff_empty Mathutils.impl sample_material_ratio sample_height).
  reflexivity.
Defined.

(* ================================================================= *)
(** ** Sk and the line *)

Lemma fin_intercept_fin_slope (hf s mf : num) :
  is_fin (hf - s * mf)%num = true -> is_fin s = true.
Proof.
  destruct s as [q| | |]; [reflexivity| | |];
    destruct hf as [a| | |], mf as [m| | |];
    cbn [nmul]; unfold inf_scaled; try (destruct (m ?= 0));
    cbn [nsub nneg nadd is_fin]; intros H; discriminate H.
Qed.

Lemma Sk_of_line (s b : num) :
  (is_fin b = true -> is_fin s = true ->
   (b - (s * Fin 100 + b))%num =n= (Fin (-100) * s)%num) /\
  (is_fin b = false -> (b - (s * Fin 100 + b))%num = NaN).
Proof.
  split; intros Hb.
  - intros Hs. destruct b as [i| | |], s as [q| | |]; try discriminate.
    cbn [nmul nadd nsub nneg num_eq]. ring.
  - destruct b as [i| | |]; [discriminate| | |];
      destruct s as [q| | |]; cbn [nmul]; unfold inf_scaled;
      try (change (100 ?= 0) with Gt; cbn iota); reflexivity.
Qed.

(** X11.  On every object state [_calculate_equivalence_line] derives from
    a curve: when the intercept is finite, the slope is finite too and
    [Sk() = -100 * slope], the drop of the line over the full range of the
    ratio; when the intercept is infinite or NaN, [Sk()] is NaN.  [Sk()] is
    therefore never an infinity. *)
Theorem Sk_is_drop_of_line (M : mathutils) (nb : Z) (h mr : list num)
    (self : AbbottFirestoneCurve) :
  with_curve M nb h mr = Some self ->
  (is_fin (intercept self) = true ->
   is_fin (slope self) = true /\ Sk self =n= (Fin (-100) * slope self)%num) /\
  (is_fin (intercept self) = false -> Sk self = NaN) /\
  Sk self <> PInf /\ Sk self <> NInf.
Proof.
  unfold with_curve, _calculate_equivalence_line. intros H.
  destruct (equivalence_line_search M mr h) as [[s i]|]; [|discriminate].
  destruct (nth_error h i) as [hf|]; [|discriminate].
  destruct (nth_error mr i) as [mf|]; [|discriminate].
  injection H as <-. unfold Sk. cbn [y_upper y_lower intercept slope].
  pose proof (fin_intercept_fin_slope hf s mf) as Hfs.
  destruct (Sk_of_line s (hf - s * mf)%num) as [Hfin Hnot].
  set (b := (hf - s * mf)%num) in *.
  assert (Hinf : forall v, v = PInf \/ v = NInf -> (b - (s * Fin 100 + b))%num <> v).
  { intros v Hv E. destruct (is_fin b) eqn:Eb.
    - specialize (Hfin eq_refl (Hfs eq_refl)). rewrite E in Hfin.
      destruct s as [q| | |]; try discriminate (Hfs eq_refl).
      destruct Hv as [-> | ->]; exact Hfin.
    - rewrite (Hnot eq_refl) in E. destruct Hv as [-> | ->]; discriminate E. }
  split; [|split; [exact Hnot|split; apply Hinf; [left | right]; reflexivity]].
  intros Hb. split; [apply Hfs; exact Hb | apply Hfin; [exact Hb | apply Hfs; exact Hb]].
Qed.

Lemma Sk_is_drop_of_line_witness :
  with_curve Mathutils.impl 5 sample_height sample_material_ratio = Some sample_curve /\
  is_fin (intercept sample_curve) = true /\
  is_fin (slope sample_curve) = true /\
  Sk sample_curve =n= (Fin (-100) * slope sample_curve)%num.
Proof.
  split; [vm_compute; reflexivity|]. split; [reflexivity|].
  apply (proj1 (Sk_is_drop_of_line Mathutils.impl 5 sample_height sample_material_ratio
                  sample_curve ltac:(vm_compute; reflexivity))).
  reflexivity.
Defined.

(* ================================================================= *)
(** ** The volume parameters *)

Lemma nabs_div_100 (a : num) : nabs (a / Fin 100)%num =n= (nabs a / Fin 100)%num.
Proof.
  destruct a as [x| | |]; cbn [ndiv nabs]; try exact I.
  change (100 ?= 0) with Gt. cbn iota. cbn [nabs num_eq].
  unfold Qdiv. rewrite Qabs_Qmult, Qabs_Qinv. reflexivity.
Qed.

Lemma nsub_num_eq_l (a a' b : num) : a =n= a' -> (a - b)%num =n= (a' - b)%num.
Proof.
  destruct a, a', b; cbn [num_eq nsub nneg nadd]; intros H; try exact I;
    try contradiction.
  rewrite H. reflexivity.
Qed.

(** X12.  The core volumes are differences of the peak and valley volumes:
    [Vmc(p, q) = Vmp(q) - Vmp(p)] and [Vvc(p, q) = Vvv(p) - Vvv(q)], on
    every object and for every implementation of the helpers, infinities
    and NaN included. *)
Theorem core_volumes_are_differences (M : mathutils) (self : AbbottFirestoneCurve)
    (p q : num) :
  Vmc M self p q =n= (Vmp M self q - Vmp M self p)%num /\
  Vvc M self p q = (Vvv M self p - Vvv M self q)%num.
Proof.
  split; [|reflexivity].
  unfold Vmc. apply nsub_num_eq_l. apply num_eq_sym.
  unfold Vmp. apply nabs_div_100.
Qed.

(* ================================================================= *)
(** ** The parameters of a constructed object *)

(** Above every abscissa the interpolant is clamped to the last ordinate. *)
Lemma interp_at_pinf (P : list (Q * Q)) :
  P <> [] -> Mathutils.interp_pts (lift P) PInf = Fin (snd (last P (0, 0))).
Proof.
  induction P as [|[x0 y0] P IH]; intros Hne; [congruence|].
  destruct P as [|[x1 y1] R]; [reflexivity|].
  change (Mathutils.interp_pts (lift ((x0, y0) :: (x1, y1) :: R)) PInf)
    with (Mathutils.interp_pts (lift ((x1, y1) :: R)) PInf).
  rewrite IH by discriminate. reflexivity.
Qed.

Lemma last_in {A : Type} (l : list A) (d : A) : l <> [] -> In (last l d) l.
Proof.
  induction l as [|a l IH]; intros Hne; [congruence|].
  destruct l as [|b l]; [left; reflexivity|].
  right. apply IH. discriminate.
Qed.

Lemma sorted_last_max (P : list (Q * Q)) (p : Q * Q) :
  x_sorted P -> In p P -> fst p <= fst (last P (0, 0)).
Proof.
  induction 1 as [|p0 P Hs IH Hall]; intros Hin; [destruct Hin|].
  destruct P as [|p1 R].
  - destruct Hin as [<-|[]]. cbn. lra.
  - change (last (p0 :: p1 :: R) (0, 0)) with (last (p1 :: R) (0, 0)).
    destruct Hin as [<-|Hin]; [|apply IH; exact Hin].
    rewrite Forall_forall in Hall. apply Hall. apply last_in. discriminate.
Qed.

Lemma argmin_from_all_pinf (l : list num) (i ibest : nat) :
  Forall (fun d => d = PInf) l -> Mathutils.argmin_from l i PInf ibest = ibest.
Proof.
  intros H. revert i. induction H as [|d l Hd _ IH]; intros i; [reflexivity|].
  subst d. cbn [Mathutils.argmin_from gtb]. apply IH.
Qed.

(** Every finite height is nearest to plus infinity at index 0. *)
Lemma argclosest_pinf (hq : list Q) :
  Mathutils.argclosest PInf (map Fin hq) = 0%nat.
Proof.
  unfold Mathutils.argclosest. rewrite map_map.
  destruct hq as [|e hq]; [reflexivity|].
  cbn [map Mathutils.argmin]. apply argmin_from_all_pinf.
  apply Forall_forall. intros d Hd. apply in_map_iff in Hd.
  destruct Hd as (x & <- & _). reflexivity.
Qed.

Lemma material_ratio_of_fin (data : list Q) (nbins : Z) :
  data <> [] -> (1 <= nbins)%Z ->
  material_ratio_of data nbins =
  map Fin (100 :: map (fun c => inject_Z c / inject_Z (Z.of_nat (length data)) * 100)
                      (Np.cumsum (rev (counts_of data nbins)))).
Proof.
  intros Hne H. unfold material_ratio_of. cbn [map]. f_equal.
  rewrite map_map, curve_total by exact H. apply map_ext. intros c.
  apply ratio_of_fin. destruct data; [congruence | cbn [length]; lia].
Qed.

(** On a constructed curve the interpolant of the ratio over the height,
    taken above every height, returns the prepended 100. *)
Lemma Smr_above_curve (data : list Q) (nbins : Z) :
  data <> [] -> (1 <= nbins)%Z ->
  Mathutils.interp1d (height_of data nbins) (material_ratio_of data nbins) PInf = Fin 100.
Proof.
  intros Hne H. rewrite material_ratio_of_fin by assumption.
  unfold height_of, Mathutils.interp1d. cbn [is_nan].
  set (hq := rev (edges_of data nbins)).
  set (mq := 100 :: map _ _).
  assert (Hlh : length hq = S (Z.to_nat nbins))
    by (unfold hq; rewrite length_rev; apply length_edges_of).
  assert (Hlm : length mq = S (Z.to_nat nbins))
    by (unfold mq; cbn [length]; rewrite length_map, length_curve_cumsum; reflexivity).
  assert (Hlen : length hq = length mq) by congruence.
  rewrite combine_lift.
  destruct (sort_lift (combine hq mq)) as (P' & -> & Hin & Hsorted).
  assert (H0 : In (nth 0 hq 0, 100) P').
  { apply Hin. replace (nth 0 hq 0, 100) with (nth 0 (combine hq mq) (0, 0)).
    - apply nth_In. rewrite length_combine. lia.
    - rewrite combine_nth by exact Hlen. reflexivity. }
  assert (HP : P' <> []) by (intros ->; destruct H0).
  rewrite interp_at_pinf by exact HP. f_equal.
  pose proof (last_in P' (0, 0) HP) as Hlast. apply Hin in Hlast.
  destruct (In_nth _ _ (0, 0) Hlast) as (j & Hj & Hnth).
  rewrite length_combine in Hj. rewrite combine_nth in Hnth by exact Hlen.
  pose proof (sorted_last_max P' _ Hsorted H0) as Hmax.
  rewrite <- Hnth in Hmax |- *. cbn [fst snd] in *.
  destruct j as [|j]; [reflexivity|]. exfalso.
  unfold hq in Hmax. rewrite !rev_nth in Hmax by (rewrite length_edges_of; lia).
  rewrite length_edges_of in Hmax.
  pose proof (linspace_increasing (fst (Np.outer_edges data)) (snd (Np.outer_edges data))
                (Z.to_nat nbins) (S (Z.to_nat nbins) - S (S j)) (S (Z.to_nat nbins) - 1)
                (outer_edges_lt data) ltac:(lia)) as Hinc.
  unfold edges_of in Hmax. lra.
Qed.

(** X13.  With the helpers as modelled (piecewise-linear clamped
    [interp1d], first-argmin [argclosest], composite [trapezoid]), every
    object built from a height map with at least one sample has
    [Smr1() = 100], [Smr2() = NaN], [Spk() = 0] and [Svk() = NaN]: the
    nearest index to [y_upper = +inf] is 0, so the peak area is empty. *)
Theorem constructed_parameters (data : list Q) (nbins : Z) :
  data <> [] -> (1 <= nbins)%Z ->
  exists self,
    __init__ Mathutils.impl data nbins = Some self /\
    Smr1 Mathutils.impl self = Fin 100 /\
    Smr2 Mathutils.impl self = NaN /\
    argclosest Mathutils.impl (y_upper self) (height self) = 0%nat /\
    Spk Mathutils.impl self =n= Fin 0 /\
    Svk Mathutils.impl self = NaN.
Proof.
  intros Hne H. eexists. split; [apply init_eq; exact H|].
  assert (H1 : Smr1 Mathutils.impl
                 {| nbins := nbins; height := height_of data nbins;
                    material_ratio := material_ratio_of data nbins;
                    slope := NInf; intercept := PInf; y_upper := PInf; y_lower := NaN |}
               = Fin 100).
  { unfold Smr1, Smr. cbn [interp1d Mathutils.impl height material_ratio y_upper].
    apply Smr_above_curve; assumption. }
  split; [exact H1|].
  split; [reflexivity|].
  assert (H2 : argclosest Mathutils.impl PInf (height_of data nbins) = 0%nat)
    by (cbn [argclosest Mathutils.impl]; apply argclosest_pinf).
  split; [exact H2|].
  split.
  - unfold Spk. rewrite H1. unfold Spk_area. cbn [y_upper height material_ratio].
    rewrite H2. cbn [firstn trapezoid Mathutils.impl Mathutils.trapezoid].
    vm_compute. reflexivity.
  - unfold Svk, Smr2, Smr. cbn [interp1d Mathutils.impl y_lower].
    unfold Mathutils.interp1d. cbn [is_nan nsub nneg nadd].
    destruct (Fin 2 * nabs _)%num; reflexivity.
Qed.

Lemma constructed_parameters_witness :
  [0; 1; 2] <> [] /\ (1 <= 3)%Z /\
  exists self,
    __init__ Mathutils.impl [0; 1; 2] 3 = Some self /\
    Smr1 Mathutils.impl self = Fin 100 /\
    Smr2 Mathutils.impl self = NaN /\
    argclosest Mathutils.impl (y_upper self) (height self) = 0%nat /\
    Spk Mathutils.impl self =n= Fin 0 /\
    Svk Mathutils.impl self = NaN.
Proof.
  split; [discriminate|]. split; [lia|].
  apply (constructed_parameters [0; 1; 2] 3); [discriminate | lia].
Defined.

(* ================================================================= *)
(** ** The line is a secant of the interpolated curve *)

(** X14.  On a finite curve given directly whose first ratio
    [material_ratio[0]] is at most 60, so that the loop does not break at
    index 0 and has a candidate, and whose candidate slopes are finite, the
    equivalence line passes through the curve point
    [(material_ratio[i], height[i])] of the selected index [i] and through
    the interpolated curve at [material_ratio[i] + 40]: it is the secant of
    width 40 that starts at the selected index.  No curve the constructor
    builds is such a curve: its first ratio is 100. *)
Theorem line_is_secant_at_selected_index (M : mathutils) (nb : Z) (mr h : list num) :
  length h = length mr ->
  all_fin mr = true -> all_fin h = true ->
  mr <> [] ->
  gtb (nth 0 mr NaN) (Fin 100 - EQUIVALENCE_LINE_WIDTH)%num = false ->
  forallb (fun i => is_fin (candidate_slope (interp1d M mr h) mr h i))
          (valid_candidates mr) = true ->
  exists self i,
    with_curve M nb h mr = Some self /\
    equivalence_line_search M mr h = Some (slope self, i) /\
    In i (valid_candidates mr) /\
    (slope self * nth i mr NaN + intercept self)%num =n= nth i h NaN /\
    (slope self * (nth i mr NaN + EQUIVALENCE_LINE_WIDTH) + intercept self)%num
    =n= interp1d M mr h (nth i mr NaN + EQUIVALENCE_LINE_WIDTH)%num.
Proof.
  intros Hlen Hfm Hfh Hne0 H0 Hfin.
  pose proof (valid_candidates_first mr Hne0 H0) as Hne. clear Hne0 H0.
  destruct (search_first_maximal M mr h Hlen Hne Hfin)
    as (i & s & Hs & (Hin & Hsl & _) & Hi).
  unfold with_curve. rewrite (line_of_search M mr h s i Hlen Hs Hi).
  eexists. exists i. split; [reflexivity|]. cbn [slope intercept].
  split; [exact Hs|]. split; [exact Hin|].
  rewrite forallb_forall in Hfin. specialize (Hfin i Hin). rewrite <- Hsl in Hfin.
  destruct (all_fin_map mr Hfm) as [mq ->]. destruct (all_fin_map h Hfh) as [hq ->].
  rewrite !length_map in *.
  unfold candidate_slope in Hsl. rewrite !nth_map_Fin in * by lia.
  set (m := nth i mq 0) in *. set (y := nth i hq 0) in *.
  unfold EQUIVALENCE_LINE_WIDTH in *. cbn [nadd] in *.
  destruct (interp1d M (map Fin mq) (map Fin hq) (Fin (m + 40))) as [v| | |];
    subst s; cbn [nsub nneg nadd ndiv] in Hfin |- *; try discriminate.
  change (40 ?= 0) with Gt. cbn iota. cbn [nmul nadd nsub nneg num_eq].
  split; field.
Qed.

Lemma line_is_secant_at_selected_index_witness :
  length sample_height = length sample_material_ratio /\
  all_fin sample_material_ratio = true /\ all_fin sample_height = true /\
  sample_material_ratio <> [] /\
  gtb (nth 0 sample_material_ratio NaN) (Fin 100 - EQUIVALENCE_LINE_WIDTH)%num = false /\
  forallb (fun i => is_fin (candidate_slope
                              (interp1d Mathutils.impl sample_material_ratio sample_height)
                              sample_material_ratio sample_height i))
          (valid_candidates sample_material_ratio) = true /\
  exists self i,
    with_curve Mathutils.impl 5 sample_height sample_material_ratio = Some self /\
    equivalence_line_search Mathutils.impl sample_material_ratio sample_height
    = Some (slope self, i) /\
    In i (valid_candidates sample_material_ratio) /\
    (slope self * nth i sample_material_ratio NaN + intercept self)%num
    =n= nth i sample_height NaN /\
    (slope self * (nth i sample_material_ratio NaN + EQUIVALENCE_LINE_WIDTH)
     + intercept self)%num
    =n= interp1d Mathutils.impl sample_material_ratio sample_height
          (nth i sample_material_ratio NaN + EQUIVALENCE_LINE_WIDTH)%num.
Proof.
  split; [reflexivity|]. split; [reflexivity|]. split; [reflexivity|].
  split; [discriminate|]. split; [reflexivity|]. split; [vm_compute; reflexivity|].
  apply (line_is_secant_at_selected_index Mathutils.impl 5
           sample_material_ratio sample_height);
    [reflexivity | reflexivity | reflexivity | discriminate | reflexivity
     | vm_compute; reflexivity].
Defined.

(* ================================================================= *)
(** ** A change of unit or origin of the heights *)

Section Affine.

Variables k c : Q.
Hypothesis k_pos : 0 < k.

Lemma affine_le (u v : Q) : u <= v -> affine k c u <= affine k c v.
Proof.
  intros H. unfold affine.
  assert (k * u <= k * v).
  { rewrite (Qmult_comm k u), (Qmult_comm k v). apply Qmult_le_compat_r; lra. }
  lra.
Qed.

Lemma affine_lt (u v : Q) : u < v -> affine k c u < affine k c v.
Proof.
  intros H. unfold affine.
  assert (k * u < k * v).
  { rewrite (Qmult_comm k u), (Qmult_comm k v). apply Qmult_lt_compat_r; lra. }
  lra.
Qed.

Lemma amin_affine (x : Q) (l : list Q) :
  Np.amin (affine k c x) (map (affine k c) l) == affine k c (Np.amin x l).
Proof.
  apply Qle_antisym.
  - pose proof (amin_In l x) as Hin.
    destruct (amin_le (map (affine k c) l) (affine k c x)) as [H1 H2].
    rewrite Forall_forall in H2.
    destruct Hin as [E|Hin]; [rewrite <- E; exact H1|].
    apply H2. apply in_map. exact Hin.
  - pose proof (amin_In (map (affine k c) l) (affine k c x)) as Hin.
    change (affine k c x :: map (affine k c) l) with (map (affine k c) (x :: l)) in Hin.
    apply in_map_iff in Hin. destruct Hin as (v & <- & Hv).
    apply affine_le. destruct (amin_le l x) as [H1 H2]. rewrite Forall_forall in H2.
    destruct Hv as [<-|Hv]; [exact H1 | apply H2; exact Hv].
Qed.

Lemma amax_affine (x : Q) (l : list Q) :
  Np.amax (affine k c x) (map (affine k c) l) == affine k c (Np.amax x l).
Proof.
  apply Qle_antisym.
  - pose proof (amax_In (map (affine k c) l) (affine k c x)) as Hin.
    change (affine k c x :: map (affine k c) l) with (map (affine k c) (x :: l)) in Hin.
    apply in_map_iff in Hin. destruct Hin as (v & <- & Hv).
    apply affine_le. destruct (amax_ge l x) as [H1 H2]. rewrite Forall_forall in H2.
    destruct Hv as [<-|Hv]; [exact H1 | apply H2; exact Hv].
  - pose proof (amax_In l x) as Hin.
    destruct (amax_ge (map (affine k c) l) (affine k c x)) as [H1 H2].
    rewrite Forall_forall in H2.
    destruct Hin as [E|Hin]; [rewrite <- E; exact H1|].
    apply H2. apply in_map. exact Hin.
Qed.

(** The rescaled samples fall in the same bins. *)
Lemma bin_index_affine (lo hi lo' hi' : Q) (n : nat) (v : Q) :
  lo < hi -> lo' == affine k c lo -> hi' == affine k c hi ->
  Np.bin_index lo' hi' n (affine k c v) = Np.bin_index lo hi n v.
Proof.
  intros Hlt Hlo Hhi. unfold Np.bin_index.
  assert (E : (affine k c v - lo') / (hi' - lo') * inject_Z (Z.of_nat n)
              == (v - lo) / (hi - lo) * inject_Z (Z.of_nat n)).
  { rewrite Hlo, Hhi. unfold affine.
    assert (Hd : 0 < k * (hi - lo)) by (apply Qmult_lt_0_compat; lra).
    setoid_replace (k * v + c - (k * lo + c)) with (k * (v - lo)) by ring.
    setoid_replace (k * hi + c - (k * lo + c)) with (k * (hi - lo)) by ring.
    field. split; lra. }
  rewrite (Qfloor_comp _ _ E). reflexivity.
Qed.

Lemma linspace_affine (lo hi lo' hi' : Q) (n i : nat) :
  (0 < n)%nat -> (i <= n)%nat ->
  lo' == affine k c lo -> hi' == affine k c hi ->
  nth i (Np.linspace lo' hi' n) 0 == affine k c (nth i (Np.linspace lo hi n) 0).
Proof.
  intros Hn Hi Hlo Hhi.
  assert (HN : 0 < inject_Z (Z.of_nat n))
    by (change 0 with (inject_Z 0); rewrite <- Zlt_Qlt; lia).
  destruct (Nat.eq_dec i n) as [->|Hne].
  - rewrite !linspace_nth_last. exact Hhi.
  - rewrite !linspace_nth_inner by lia. rewrite Hlo, Hhi. unfold affine. field. lra.
Qed.

(** When the range of the rescaled samples is the rescaled range, the
    counts are the same and the edges are rescaled. *)
Lemma curve_affine (data : list Q) (nbins : Z) :
  (1 <= nbins)%Z ->
  fst (Np.outer_edges (map (affine k c) data))
  == affine k c (fst (Np.outer_edges data)) ->
  snd (Np.outer_edges (map (affine k c) data))
  == affine k c (snd (Np.outer_edges data)) ->
  material_ratio_of (map (affine k c) data) nbins = material_ratio_of data nbins /\
  forall i, (i <= Z.to_nat nbins)%nat ->
    exists e e',
      nth i (height_of data nbins) NaN = Fin e /\
      nth i (height_of (map (affine k c) data) nbins) NaN = Fin e' /\
      e' == affine k c e.
Proof.
  intros H Hlo Hhi.
  assert (Hcounts : counts_of (map (affine k c) data) nbins = counts_of data nbins).
  { unfold counts_of. rewrite !keep_all. rewrite map_map. f_equal.
    apply map_ext. intros v.
    apply bin_index_affine; [apply outer_edges_lt | exact Hlo | exact Hhi]. }
  split.
  - unfold material_ratio_of. rewrite Hcounts. reflexivity.
  - intros i Hi. unfold height_of. rewrite !height_nth by exact Hi.
    eexists. eexists. split; [reflexivity|]. split; [reflexivity|].
    unfold edges_of. apply linspace_affine; [lia | lia | exact Hlo | exact Hhi].
Qed.

Lemma outer_edges_affine_distinct (data : list Q) (a b : Q) :
  In a data -> In b data -> a < b ->
  fst (Np.outer_edges (map (affine k c) data))
  == affine k c (fst (Np.outer_edges data)) /\
  snd (Np.outer_edges (map (affine k c) data))
  == affine k c (snd (Np.outer_edges data)).
Proof.
  intros Ha Hb Hab. destruct data as [|x l]; [destruct Ha|].
  destruct (amin_le l x) as [H1 H1'], (amax_ge l x) as [H2 H2'].
  rewrite Forall_forall in H1', H2'.
  assert (Hmin : Np.amin x l <= a) by (destruct Ha as [<-|Ha]; auto).
  assert (Hmax : b <= Np.amax x l) by (destruct Hb as [<-|Hb]; auto).
  pose proof (amin_affine x l) as Emin. pose proof (amax_affine x l) as Emax.
  assert (Hg : affine k c (Np.amin x l) < affine k c (Np.amax x l))
    by (apply affine_lt; lra).
  cbn [map]. unfold Np.outer_edges.
  assert (E : Qeqb (Np.amin x l) (Np.amax x l) = false) by (apply Qeqb_false; lra).
  assert (E' : Qeqb (Np.amin (affine k c x) (map (affine k c) l))
                    (Np.amax (affine k c x) (map (affine k c) l)) = false)
    by (apply Qeqb_false; lra).
  rewrite E, E'. cbn [fst snd]. split; assumption.
Qed.

End Affine.

Lemma outer_edges_translate (c : Q) (data : list Q) :
  data <> [] ->
  fst (Np.outer_edges (map (affine 1 c) data))
  == affine 1 c (fst (Np.outer_edges data)) /\
  snd (Np.outer_edges (map (affine 1 c) data))
  == affine 1 c (snd (Np.outer_edges data)).
Proof.
  intros Hne. destruct data as [|x l]; [congruence|].
  assert (H1 : 0 < 1) by reflexivity.
  pose proof (amin_affine 1 c H1 x l) as Emin.
  pose proof (amax_affine 1 c H1 x l) as Emax.
  cbn [map]. unfold Np.outer_edges.
  destruct (Qeqb (Np.amin x l) (Np.amax x l)) eqn:E.
  - apply Qeqb_true in E.
    assert (E' : Qeqb (Np.amin (affine 1 c x) (map (affine 1 c) l))
                      (Np.amax (affine 1 c x) (map (affine 1 c) l)) = true).
    { apply Qeqb_true. rewrite Emin, Emax. unfold affine. rewrite E. reflexivity. }
    rewrite E'. cbn [fst snd]. rewrite Emin, Emax. unfold affine. split; ring.
  - apply Qeqb_false in E.
    assert (E' : Qeqb (Np.amin (affine 1 c x) (map (affine 1 c) l))
                      (Np.amax (affine 1 c x) (map (affine 1 c) l)) = false).
    { apply Qeqb_false. rewrite Emin, Emax. unfold affine. intros Heq. apply E. lra. }
    rewrite E'. cbn [fst snd]. split; assumption.
Qed.

(** X15.  A change of unit and origin of the heights, [v -> k*v + c] with
    [k > 0], of a height map with two distinct values leaves
    [material_ratio] unchanged and rescales every element of [height] in
    the same way. *)
Theorem curve_under_change_of_unit (data : list Q) (nbins : Z) (k c a b : Q) :
  0 < k -> In a data -> In b data -> a < b -> (1 <= nbins)%Z ->
  exists h mr h',
    _get_material_ratio_curve data nbins = Some (h, mr) /\
    _get_material_ratio_curve (map (affine k c) data) nbins = Some (h', mr) /\
    forall i, (i <= Z.to_nat nbins)%nat ->
      exists e e', nth i h NaN = Fin e /\ nth i h' NaN = Fin e' /\ e' == k * e + c.
Proof.
  intros Hk Ha Hb Hab H.
  destruct (outer_edges_affine_distinct k c Hk data a b Ha Hb Hab) as [Hlo Hhi].
  destruct (curve_affine k c Hk data nbins H Hlo Hhi) as [Hmr Hh].
  exists (height_of data nbins), (material_ratio_of data nbins),
         (height_of (map (affine k c) data) nbins).
  split; [apply curve_eq; exact H|].
  split; [rewrite curve_eq by exact H; rewrite Hmr; reflexivity|].
  exact Hh.
Qed.

Lemma curve_under_change_of_unit_witness :
  0 < 1000 /\ In 0 [0; 1; 4] /\ In 4 [0; 1; 4] /\ 0 < 4 /\ (1 <= 5)%Z /\
  exists h mr h',
    _get_material_ratio_curve [0; 1; 4] 5 = Some (h, mr) /\
    _get_material_ratio_curve (map (affine 1000 7) [0; 1; 4]) 5 = Some (h', mr) /\
    forall i, (i <= Z.to_nat 5)%nat ->
      exists e e', nth i h NaN = Fin e /\ nth i h' NaN = Fin e' /\ e' == 1000 * e + 7.
Proof.
  split; [reflexivity|]. split; [left; reflexivity|].
  split; [right; right; left; reflexivity|]. split; [reflexivity|]. split; [lia|].
  apply (curve_under_change_of_unit [0; 1; 4] 5 1000 7 0 4);
    [reflexivity | left; reflexivity | right; right; left; reflexivity
     | reflexivity | lia].
Defined.

(** X16.  Adding a constant [c] to every sample ([v -> 1*v + c]) of a
    non-empty height map, a constant one included, leaves [material_ratio]
    unchanged and adds [c] to every element of [height]. *)
Theorem curve_under_offset (data : list Q) (nbins : Z) (c : Q) :
  data <> [] -> (1 <= nbins)%Z ->
  exists h mr h',
    _get_material_ratio_curve data nbins = Some (h, mr) /\
    _get_material_ratio_curve (map (affine 1 c) data) nbins = Some (h', mr) /\
    forall i, (i <= Z.to_nat nbins)%nat ->
      exists e e', nth i h NaN = Fin e /\ nth i h' NaN = Fin e' /\ e' == e + c.
Proof.
  intros Hne H.
  assert (H1 : 0 < 1) by reflexivity.
  destruct (outer_edges_translate c data Hne) as [Hlo Hhi].
  destruct (curve_affine 1 c H1 data nbins H Hlo Hhi) as [Hmr Hh].
  exists (height_of data nbins), (material_ratio_of data nbins),
         (height_of (map (affine 1 c) data) nbins).
  split; [apply curve_eq; exact H|].
  split.
  - rewrite curve_eq by exact H. rewrite Hmr. reflexivity.
  - intros i Hi. destruct (Hh i Hi) as (e & e' & He & He' & Heq).
    exists e, e'. split; [exact He|]. split; [exact He'|].
    rewrite Heq. unfold affine. ring.
Qed.

Lemma curve_under_offset_witness :
  [3; 3] <> [] /\ (1 <= 4)%Z /\
  exists h mr h',
    _get_material_ratio_curve [3; 3] 4 = Some (h, mr) /\
    _get_material_ratio_curve (map (affine 1 10) [3; 3]) 4 = Some (h', mr) /\
    forall i, (i <= Z.to_nat 4)%nat ->
      exists e e', nth i h NaN = Fin e /\ nth i h' NaN = Fin e' /\ e' == e + 10.
Proof.
  split; [discriminate|]. split; [lia|].
  apply (curve_under_offset [3; 3] 4 10); [discriminate | lia].
Defined.

(* ================================================================= *)
(** ** The order of the samples *)

Lemma outer_edges_permutation (data data' : list Q) :
  Permutation data data' ->
  fst (Np.outer_edges data') == fst (Np.outer_edges data) /\
  snd (Np.outer_edges data') == snd (Np.outer_edges data).
Proof.
  intros HP. destruct data as [|x l].
  - apply Permutation_nil in HP. subst data'. split; reflexivity.
  - destruct data' as [|x' l']; [apply Permutation_sym, Permutation_nil in HP; discriminate|].
    assert (Emin : Np.amin x' l' == Np.amin x l).
    { apply Qle_antisym.
      - destruct (amin_le l' x') as [H1 H2]. rewrite Forall_forall in H2.
        pose proof (Permutation_in _ HP (amin_In l x)) as [<-|Hin]; auto.
      - destruct (amin_le l x) as [H1 H2]. rewrite Forall_forall in H2.
        pose proof (Permutation_in _ (Permutation_sym HP) (amin_In l' x')) as [<-|Hin];
          auto. }
    assert (Emax : Np.amax x' l' == Np.amax x l).
    { apply Qle_antisym.
      - destruct (amax_ge l x) as [H1 H2]. rewrite Forall_forall in H2.
        pose proof (Permutation_in _ (Permutation_sym HP) (amax_In l' x')) as [<-|Hin];
          auto.
      - destruct (amax_ge l' x') as [H1 H2]. rewrite Forall_forall in H2.
        pose proof (Permutation_in _ HP (amax_In l x)) as [<-|Hin]; auto. }
    unfold Np.outer_edges.
    destruct (Qeqb (Np.amin x l) (Np.amax x l)) eqn:E.
    + apply Qeqb_true in E.
      assert (E' : Qeqb (Np.amin x' l') (Np.amax x' l') = true)
        by (apply Qeqb_true; rewrite Emin, Emax; exact E).
      rewrite E'. cbn [fst snd]. rewrite Emin, Emax. split; reflexivity.
    + apply Qeqb_false in E.
      assert (E' : Qeqb (Np.amin x' l') (Np.amax x' l') = false)
        by (apply Qeqb_false; rewrite Emin, Emax; exact E).
      rewrite E'. cbn [fst snd]. split; assumption.
Qed.

Lemma bin_index_edges_eq (lo hi lo' hi' : Q) (n : nat) (v : Q) :
  lo' == lo -> hi' == hi -> Np.bin_index lo' hi' n v = Np.bin_index lo hi n v.
Proof.
  intros Hlo Hhi. unfold Np.bin_index.
  assert (E : (v - lo') / (hi' - lo') * inject_Z (Z.of_nat n)
              == (v - lo) / (hi - lo) * inject_Z (Z.of_nat n))
    by (rewrite Hlo, Hhi; reflexivity).
  rewrite (Qfloor_comp _ _ E). reflexivity.
Qed.

(** X17.  The curve does not depend on the order of the samples: two
    height maps with the same samples in a different order have the same
    [material_ratio] and the same [height] values. *)
Theorem curve_ignores_sample_order (data data' : list Q) (nbins : Z) :
  Permutation data data' -> (1 <= nbins)%Z ->
  exists h h' mr,
    _get_material_ratio_curve data nbins = Some (h, mr) /\
    _get_material_ratio_curve data' nbins = Some (h', mr) /\
    length h' = length h /\
    forall i, (i < length h)%nat -> nth i h' NaN =n= nth i h NaN.
Proof.
  intros HP H.
  destruct (outer_edges_permutation data data' HP) as [Hlo Hhi].
  assert (Hcounts : counts_of data' nbins = counts_of data nbins).
  { unfold counts_of. rewrite !keep_all. unfold Np.bincount.
    apply map_ext. intros b. f_equal.
    rewrite (map_ext _ _ (fun v => bin_index_edges_eq _ _ _ _ (Z.to_nat nbins) v Hlo Hhi)).
    apply Permutation_count_occ. apply Permutation_map. apply Permutation_sym. exact HP. }
  exists (height_of data nbins), (height_of data' nbins), (material_ratio_of data nbins).
  split; [apply curve_eq; exact H|].
  split; [rewrite curve_eq by exact H; unfold material_ratio_of; rewrite Hcounts;
          reflexivity|].
  unfold height_of. rewrite !length_map, !length_rev, !length_edges_of.
  split; [reflexivity|].
  intros i Hi. rewrite !height_nth by lia. cbn [num_eq].
  unfold edges_of. set (n := Z.to_nat nbins) in *.
  destruct (Nat.eq_dec (n - i) n) as [E|Hne].
  - rewrite E, !linspace_nth_last. exact Hhi.
  - rewrite !linspace_nth_inner by lia. rewrite Hlo, Hhi. reflexivity.
Qed.

Lemma curve_ignores_sample_order_witness :
  Permutation [0; 1; 4] [1; 0; 4] /\ (1 <= 3)%Z /\
  exists h h' mr,
    _get_material_ratio_curve [0; 1; 4] 3 = Some (h, mr) /\
    _get_material_ratio_curve [1; 0; 4] 3 = Some (h', mr) /\
    length h' = length h /\
    forall i, (i < length h)%nat -> nth i h' NaN =n= nth i h NaN.
Proof.
  split; [apply perm_swap|]. split; [lia|].
  apply (curve_ignores_sample_order [0; 1; 4] [1; 0; 4] 3); [apply perm_swap | lia].
Defined.

(* ================================================================= *)
(** ** The bars of the histogram plot *)

Lemma plot_bars_eq (x : Q) (l : list Q) (nbars : Z) :
  (1 <= nbars)%Z ->
  plot_bars (x :: l) nbars =
  Some (bar_centres (height_of (x :: l) nbars),
        map (ratio_of (Np.sum (rev (counts_of (x :: l) nbars))))
            (rev (counts_of (x :: l) nbars)),
        ((Fin (Np.amax x l) - Fin (Np.amin x l)) / of_Z nbars)%num).
Proof.
  intros H. unfold plot_bars. rewrite histogram_eq by exact H. reflexivity.
Qed.



Lemma length_bar_centres (l : list num) : length (bar_centres l) = (length l - 1)%nat.
Proof.
  induction l as [|a l IH]; [reflexivity|].
  destruct l as [|b l]; [reflexivity|].
  change (bar_centres (a :: b :: l))
    with ((a + (b - a) / Fin 2)%num :: bar_centres (b :: l)).
  cbn [length] in *. rewrite IH. lia.
Qed.

Lemma bar_centres_nth (l : list num) (i : nat) :
  (S i < length l)%nat ->
  nth i (bar_centres l) NaN =
  (nth i l NaN + (nth (S i) l NaN - nth i l NaN) / Fin 2)%num.
Proof.
  revert i. induction l as [|a l IH]; intros i Hi; [cbn in Hi; lia|].
  destruct l as [|b l]; [cbn in Hi; lia|].
  change (bar_centres (a :: b :: l))
    with ((a + (b - a) / Fin 2)%num :: bar_centres (b :: l)).
  destruct i as [|i]; [reflexivity|].
  cbn [length] in Hi. change (nth (S i) (?x :: ?r) NaN) with (nth i r NaN).
  rewrite IH by (cbn [length]; lia). reflexivity.
Qed.

Lemma nsum_ratios (total : Z) (l : list Z) :
  (0 < total)%Z ->
  nsum (map (ratio_of total) l) =n= Fin (inject_Z (Np.sum l) / inject_Z total * 100).
Proof.
  intros Ht.
  assert (Hq : 0 < inject_Z total)
    by (change 0 with (inject_Z 0); rewrite <- Zlt_Qlt; exact Ht).
  induction l as [|c l IH].
  - cbn. change (Np.sum []) with 0%Z. cbn [num_eq]. field. lra.
  - cbn [map nsum fold_right]. fold (nsum (map (ratio_of total) l)).
    rewrite ratio_of_fin by exact Ht.
    destruct (nsum (map (ratio_of total) l)) as [s| | |]; try contradiction.
    cbn [nadd num_eq] in *. rewrite IH, sum_cons, inject_Z_plus. field. lra.
Qed.

(** X19.  For a non-empty height map and [nbars >= 1], [plot] draws
    [nbars] bars whose lengths add up to 100. *)
Theorem plot_bars_add_up_to_100 (data : list Q) (nbars : Z) :
  data <> [] -> (1 <= nbars)%Z ->
  exists y width thickness,
    plot_bars data nbars = Some (y, width, thickness) /\
    Z.of_nat (length y) = nbars /\
    Z.of_nat (length width) = nbars /\
    nsum width =n= Fin 100.
Proof.
  intros Hne H. destruct data as [|x l]; [congruence|].
  do 3 eexists. split; [apply plot_bars_eq; exact H|].
  split; [|split].
  - rewrite length_bar_centres. unfold height_of.
    rewrite length_map, length_rev, length_edges_of. lia.
  - rewrite length_map, length_rev, length_counts_of. lia.
  - rewrite curve_total by exact H.
    assert (Hpos : (0 < Z.of_nat (length (x :: l)))%Z) by (cbn [length]; lia).
    eapply num_eq_trans; [apply nsum_ratios; exact Hpos|].
    rewrite curve_total by exact H. cbn [num_eq].
    assert (Hq : 0 < inject_Z (Z.of_nat (length (x :: l))))
      by (change 0 with (inject_Z 0); rewrite <- Zlt_Qlt; exact Hpos).
    field. lra.
Qed.

Lemma plot_bars_add_up_to_100_witness :
  [0; 1; 4; 4] <> [] /\ (1 <= 4)%Z /\
  exists y width thickness,
    plot_bars [0; 1; 4; 4] 4 = Some (y, width, thickness) /\
    Z.of_nat (length y) = 4%Z /\
    Z.of_nat (length width) = 4%Z /\
    nsum width =n= Fin 100.
Proof.
  split; [discriminate|]. split; [lia|].
  apply (plot_bars_add_up_to_100 [0; 1; 4; 4] 4); [discriminate | lia].
Defined.

(** Consecutive bar positions are one bin width apart. *)
Lemma centres_spacing (data : list Q) (nbins : Z) (i : nat) :
  (1 <= nbins)%Z -> (S i < Z.to_nat nbins)%nat ->
  (nth i (bar_centres (height_of data nbins)) NaN
   - nth (S i) (bar_centres (height_of data nbins)) NaN)%num
  =n= Fin ((snd (Np.outer_edges data) - fst (Np.outer_edges data)) / inject_Z nbins).
Proof.
  intros H Hi.
  assert (Hlen : length (height_of data nbins) = S (Z.to_nat nbins))
    by (unfold height_of; rewrite length_map, length_rev; apply length_edges_of).
  rewrite !bar_centres_nth by lia.
  unfold height_of. rewrite !height_nth by lia.
  set (n := Z.to_nat nbins) in *.
  pose proof (linspace_spacing (fst (Np.outer_edges data)) (snd (Np.outer_edges data))
                n (n - S i) ltac:(lia)) as S1.
  pose proof (linspace_spacing (fst (Np.outer_edges data)) (snd (Np.outer_edges data))
                n (n - S (S i)) ltac:(lia)) as S2.
  replace (S (n - S i)) with (n - i)%nat in S1 by lia.
  replace (S (n - S (S i))) with (n - S i)%nat in S2 by lia.
  unfold edges_of. fold n.
  set (e0 := nth (n - i) _ 0) in *. set (e1 := nth (n - S i) _ 0) in *.
  set (e2 := nth (n - S (S i)) _ 0) in *.
  assert (EN : inject_Z (Z.of_nat n) = inject_Z nbins)
    by (unfold n; rewrite Z2Nat.id by lia; reflexivity).
  rewrite EN in S1, S2.
  cbn [nsub nneg nadd ndiv]. change (2 ?= 0) with Gt. cbn iota. cbn [nadd num_eq].
  set (step := (snd (Np.outer_edges data) - fst (Np.outer_edges data)) / inject_Z nbins)
    in *.
  cbn [nsub nneg nadd num_eq].
  setoid_replace (e0 + (e1 + - e0) / 2 + - (e1 + (e2 + - e1) / 2))
    with (((e0 - e1) + (e1 - e2)) / 2) by field.
  rewrite S1, S2. field.
Qed.

Lemma thickness_fin (hi lo : Q) (nbars : Z) :
  (1 <= nbars)%Z ->
  ((Fin hi - Fin lo) / of_Z nbars)%num = Fin ((hi + - lo) / inject_Z nbars).
Proof.
  intros H. unfold of_Z. cbn [nsub nneg nadd ndiv].
  assert (E : (inject_Z nbars ?= 0) = Gt).
  { apply Qgt_alt. change 0 with (inject_Z 0). rewrite <- Zlt_Qlt. lia. }
  rewrite E. reflexivity.
Qed.

(** X20.  For a height map with two distinct values the bars of [plot]
    touch: their thickness [(max - min) / nbars] is the distance between
    consecutive bar positions. *)
Theorem plot_bars_touch (data : list Q) (nbars : Z) (a b : Q) :
  In a data -> In b data -> a < b -> (1 <= nbars)%Z ->
  exists y width thickness lo hi,
    plot_bars data nbars = Some (y, width, thickness) /\
    In lo data /\ In hi data /\ (forall v, In v data -> lo <= v <= hi) /\
    thickness =n= Fin ((hi - lo) / inject_Z nbars) /\
    forall i, (S i < Z.to_nat nbars)%nat ->
      (nth i y NaN - nth (S i) y NaN)%num =n= thickness.
Proof.
  intros Ha Hb Hab H.
  destruct (outer_edges_distinct data a b Ha Hb Hab) as [Hlo Hhi].
  pose proof (outer_edges_bounds data) as Hbd. rewrite Forall_forall in Hbd.
  destruct data as [|x l]; [destruct Ha|].
  assert (Hoe : Np.outer_edges (x :: l) = (Np.amin x l, Np.amax x l)).
  { destruct (amin_le l x) as [H1 H1'], (amax_ge l x) as [H2 H2'].
    rewrite Forall_forall in H1', H2'.
    assert (Hmin : Np.amin x l <= a) by (destruct Ha as [<-|Ha']; auto).
    assert (Hmax : b <= Np.amax x l) by (destruct Hb as [<-|Hb']; auto).
    unfold Np.outer_edges.
    assert (E : Qeqb (Np.amin x l) (Np.amax x l) = false) by (apply Qeqb_false; lra).
    rewrite E. reflexivity. }
  rewrite Hoe in Hlo, Hhi, Hbd. cbn [fst snd] in Hlo, Hhi, Hbd.
  do 3 eexists. exists (Np.amin x l), (Np.amax x l).
  split; [apply plot_bars_eq; exact H|].
  split; [exact Hlo|]. split; [exact Hhi|]. split; [exact Hbd|].
  rewrite thickness_fin by exact H.
  split; [cbn [num_eq]; reflexivity|].
  intros i Hi. eapply num_eq_trans; [apply centres_spacing; assumption|].
  rewrite Hoe. cbn [fst snd num_eq]. reflexivity.
Qed.

Lemma plot_bars_touch_witness :
  In 0 [0; 1; 4] /\ In 4 [0; 1; 4] /\ 0 < 4 /\ (1 <= 4)%Z /\
  exists y width thickness lo hi,
    plot_bars [0; 1; 4] 4 = Some (y, width, thickness) /\
    In lo [0; 1; 4] /\ In hi [0; 1; 4] /\ (forall v, In v [0; 1; 4] -> lo <= v <= hi) /\
    thickness =n= Fin ((hi - lo) / inject_Z 4) /\
    forall i, (S i < Z.to_nat 4)%nat ->
      (nth i y NaN - nth (S i) y NaN)%num =n= thickness.
Proof.
  split; [left; reflexivity|]. split; [right; right; left; reflexivity|].
  split; [reflexivity|]. split; [lia|].
  apply (plot_bars_touch [0; 1; 4] 4 0 4);
    [left; reflexivity | right; right; left; reflexivity | reflexivity | lia].
Defined.

(** X21.  For a constant height map the bars of [plot] have thickness 0,
    although their positions are [1 / nbars] apart: [np.histogram] widens
    the range by one, [max - min] does not. *)
Theorem plot_bars_of_flat_map_are_flat (c : Q) (m : nat) (nbars : Z) :
  (1 <= nbars)%Z ->
  exists y width thickness,
    plot_bars (repeat c (S m)) nbars = Some (y, width, thickness) /\
    thickness =n= Fin 0 /\
    forall i, (S i < Z.to_nat nbars)%nat ->
      (nth i y NaN - nth (S i) y NaN)%num =n= Fin (1 / inject_Z nbars).
Proof.
  intros H. do 3 eexists. cbn [repeat].
  split; [apply plot_bars_eq; exact H|].
  rewrite thickness_fin by exact H. rewrite amin_repeat, amax_repeat.
  assert (Hq : 0 < inject_Z nbars)
    by (change 0 with (inject_Z 0); rewrite <- Zlt_Qlt; lia).
  split; [cbn [num_eq]; field; lra|].
  intros i Hi. eapply num_eq_trans; [apply centres_spacing; assumption|].
  change (c :: repeat c m) with (repeat c (S m)).
  rewrite outer_edges_repeat. cbn [fst snd num_eq]. field. lra.
Qed.

Lemma plot_bars_of_flat_map_are_flat_witness :
  (1 <= 4)%Z /\
  exists y width thickness,
    plot_bars (repeat 3 (S 1)) 4 = Some (y, width, thickness) /\
    thickness =n= Fin 0 /\
    forall i, (S i < Z.to_nat 4)%nat ->
      (nth i y NaN - nth (S i) y NaN)%num =n= Fin (1 / inject_Z 4).
Proof.
  split; [lia|]. apply (plot_bars_of_flat_map_are_flat 3 1 4). lia.
Defined.

(* ================================================================= *)
(** ** Round trips inside a constructed curve *)

Lemma all_fin_map_Fin (q : list Q) : all_fin (map Fin q) = true.
Proof. unfold all_fin. induction q as [|a q IH]; [reflexivity | exact IH]. Qed.

Lemma neighbours_intro (q : list Q) (a b : nat) :
  (a < length q)%nat -> (b < length q)%nat ->
  nth a q 0 < nth b q 0 ->
  (forall j, (j < length q)%nat ->
             j = a \/ j = b \/ nth j q 0 < nth a q 0 \/ nth b q 0 < nth j q 0) ->
  neighbours (map Fin q) a b = true.
Proof.
  intros Ha Hb Hab Htri. unfold neighbours. apply andb_true_intro. split.
  - rewrite !nth_map_Fin by assumption. apply gtb_Fin. exact Hab.
  - apply forallb_forall. intros j Hj. apply in_seq in Hj. rewrite length_map in Hj.
    rewrite !nth_map_Fin by lia. rewrite !orb_true_iff.
    destruct (Htri j ltac:(lia)) as [E|[E|[E|E]]].
    + left. left. left. apply Nat.eqb_eq. exact E.
    + left. left. right. apply Nat.eqb_eq. exact E.
    + left. right. apply gtb_Fin. exact E.
    + right. apply gtb_Fin. exact E.
Qed.

(** A value between the ends of a run of a sequence lies between two
    consecutive elements of the run. *)
Lemma locate_rising (f : nat -> Q) (x : Q) (len lo : nat) :
  f lo <= x <= f (lo + S len)%nat ->
  exists i, (lo <= i < lo + S len)%nat /\ f i <= x <= f (S i).
Proof.
  revert lo. induction len as [|len IH]; intros lo Hx.
  - exists lo. split; [lia|]. replace (S lo) with (lo + 1)%nat by lia. exact Hx.
  - destruct (Qlt_le_dec x (f (S lo))) as [Hlt|Hle].
    + exists lo. split; [lia | lra].
    + destruct (IH (S lo)) as (i & Hi & Hxi).
      * replace (S lo + S len)%nat with (lo + S (S len))%nat by lia. lra.
      * exists i. split; [lia | exact Hxi].
Qed.

Lemma locate_falling (f : nat -> Q) (y : Q) (len lo : nat) :
  f (lo + S len)%nat <= y <= f lo ->
  exists i, (lo <= i < lo + S len)%nat /\ f (S i) <= y <= f i.
Proof.
  intros Hy.
  destruct (locate_rising (fun i => - f i) (- y) len lo) as (i & Hi & Hxi);
    [cbn beta; lra|].
  exists i. split; [exact Hi | cbn beta in Hxi; lra].
Qed.

(** A curve of [n + 1] nodes whose ratio rises strictly from index 1 on and
    stays below its first element before the last index, and whose height
    falls strictly: the round trips are exact between the nodes 1 and
    [n - 1]. *)
Lemma round_trip_interior (mq hq : list Q) (n : nat) :
  length mq = S n -> length hq = S n -> (3 <= n)%nat ->
  nth (n - 1) mq 0 < nth 0 mq 0 ->
  (forall i, (1 <= i < n)%nat -> nth i mq 0 < nth (S i) mq 0) ->
  (forall i, (i < n)%nat -> nth (S i) hq 0 < nth i hq 0) ->
  (forall x, nth 1 mq 0 <= x <= nth (n - 1) mq 0 ->
     Mathutils.interp1d (map Fin hq) (map Fin mq)
       (Mathutils.interp1d (map Fin mq) (map Fin hq) (Fin x)) =n= Fin x) /\
  (forall y, nth (n - 1) hq 0 <= y <= nth 1 hq 0 ->
     Mathutils.interp1d (map Fin mq) (map Fin hq)
       (Mathutils.interp1d (map Fin hq) (map Fin mq) (Fin y)) =n= Fin y).
Proof.
  intros Hlm Hlh Hn Hm0 Hm Hh.
  assert (chain_m : forall d i, (1 <= i)%nat -> (i + S d <= n)%nat ->
                      nth i mq 0 < nth (i + S d) mq 0).
  { induction d as [|d IH]; intros i Hi Hd.
    - replace (i + 1)%nat with (S i) by lia. apply Hm. lia.
    - specialize (IH i Hi ltac:(lia)). specialize (Hm (i + S d)%nat ltac:(lia)).
      replace (i + S (S d))%nat with (S (i + S d)) by lia. lra. }
  assert (chain_h : forall d i, (i + S d <= n)%nat ->
                      nth (i + S d) hq 0 < nth i hq 0).
  { induction d as [|d IH]; intros i Hd.
    - replace (i + 1)%nat with (S i) by lia. apply Hh. lia.
    - specialize (IH i ltac:(lia)). specialize (Hh (i + S d)%nat ltac:(lia)).
      replace (i + S (S d))%nat with (S (i + S d)) by lia. lra. }
  assert (lt_m : forall i j, (1 <= i < j)%nat -> (j <= n)%nat -> nth i mq 0 < nth j mq 0).
  { intros i j Hij Hj. replace j with (i + S (j - i - 1))%nat by lia.
    apply chain_m; lia. }
  assert (lt_h : forall i j, (i < j)%nat -> (j <= n)%nat -> nth j hq 0 < nth i hq 0).
  { intros i j Hij Hj. replace j with (i + S (j - i - 1))%nat by lia.
    apply chain_h; lia. }
  assert (Hnb : forall a, (1 <= a)%nat -> (S a <= n - 1)%nat ->
                  neighbours (map Fin mq) a (S a) = true /\
                  neighbours (map Fin hq) (S a) a = true).
  { intros a Ha1 Ha2. split.
    - apply neighbours_intro; [lia | lia | apply lt_m; lia|].
      intros j Hj. rewrite Hlm in Hj.
      destruct (Nat.eq_dec j a) as [->|Hja]; [left; reflexivity|].
      destruct (Nat.eq_dec j (S a)) as [->|Hjb]; [right; left; reflexivity|].
      right. right. destruct (Nat.eq_dec j 0) as [->|Hj0].
      + right. destruct (Nat.eq_dec (S a) (n - 1)) as [E|E].
        * rewrite E. exact Hm0.
        * pose proof (lt_m (S a) (n - 1)%nat ltac:(lia) ltac:(lia)). lra.
      + destruct (Nat.lt_ge_cases j a) as [Hlt|Hge].
        * left. apply lt_m; lia.
        * right. apply lt_m; lia.
    - apply neighbours_intro; [lia | lia | apply lt_h; lia|].
      intros j Hj. rewrite Hlh in Hj.
      destruct (Nat.eq_dec j (S a)) as [->|Hjb]; [left; reflexivity|].
      destruct (Nat.eq_dec j a) as [->|Hja]; [right; left; reflexivity|].
      right. right. destruct (Nat.lt_ge_cases j a) as [Hlt|Hge].
      + right. apply lt_h; lia.
      + left. apply lt_h; lia. }
  split.
  - intros x Hx.
    destruct (locate_rising (fun i => nth i mq 0) x (n - 3) 1) as (a & Ha & Hxa).
    { cbn beta. replace (1 + S (n - 3))%nat with (n - 1)%nat by lia. exact Hx. }
    cbn beta in Hxa. destruct (Hnb a ltac:(lia) ltac:(lia)) as [N1 N2].
    destruct (round_trip_segment mq hq a (S a) ltac:(lia) ltac:(lia) ltac:(lia) N1 N2)
      as [Hrt _].
    apply Hrt. exact Hxa.
  - intros y Hy.
    destruct (locate_falling (fun i => nth i hq 0) y (n - 3) 1) as (a & Ha & Hya).
    { cbn beta. replace (1 + S (n - 3))%nat with (n - 1)%nat by lia. exact Hy. }
    cbn beta in Hya. destruct (Hnb a ltac:(lia) ltac:(lia)) as [N1 N2].
    destruct (round_trip_segment mq hq a (S a) ltac:(lia) ltac:(lia) ltac:(lia) N1 N2)
      as [_ Hrt].
    apply Hrt. exact Hya.
Qed.

(** The last material ratio of a non-empty height map is 100. *)
Lemma material_ratio_last_full (data : list Q) (nbins : Z) :
  data <> [] -> (1 <= nbins)%Z ->
  nth (Z.to_nat nbins) (material_ratio_of data nbins) NaN =n= Fin 100.
Proof.
  intros Hne H.
  assert (Hn : Z.to_nat nbins = S (Z.to_nat nbins - 1)) by lia.
  assert (Hlen : length (rev (counts_of data nbins)) = Z.to_nat nbins)
    by (rewrite length_rev; apply length_counts_of).
  assert (Hlast : nth (Z.to_nat nbins - 1) (Np.cumsum (rev (counts_of data nbins))) 0%Z
                  = Np.sum (counts_of data nbins)).
  { rewrite <- Hlen at 1. unfold Np.cumsum. rewrite cumsum_from_last.
    - rewrite sum_rev. lia.
    - intros E. rewrite E in Hlen. cbn [length] in Hlen. lia. }
  unfold material_ratio_of. rewrite Hn at 1.
  rewrite material_ratio_nth by (rewrite length_curve_cumsum; lia).
  rewrite Hlast, sum_rev, sum_counts_of by exact H.
  assert (Hpos : (0 < Z.of_nat (length data))%Z)
    by (destruct data; [congruence | cbn [length]; lia]).
  rewrite ratio_of_fin by exact Hpos. cbn [num_eq].
  assert (Hq : 0 < inject_Z (Z.of_nat (length data)))
    by (change 0 with (inject_Z 0); rewrite <- Zlt_Qlt; exact Hpos).
  field. lra.
Qed.

(** X23.  On the curve of a non-empty height map with [nbins >= 3] whose
    material ratio rises strictly after its first element (no bin below the
    top one is empty), the round trips are exact everywhere but in the top
    and the bottom bin: [Smr(Smc(x)) = x] for every [x] from
    [material_ratio[1]] to [material_ratio[nbins - 1]], and
    [Smc(Smr(y)) = y] for every [y] from [height[nbins - 1]] to
    [height[1]], with the piecewise-linear [interp1d]. *)
Theorem round_trip_inside_constructed_curve (data : list Q) (nbins : Z)
    (self : AbbottFirestoneCurve) :
  __init__ Mathutils.impl data nbins = Some self ->
  data <> [] -> (3 <= nbins)%Z ->
  rising_after_first (material_ratio self) = true ->
  (forall x,
     geb (Fin x) (nth 1 (material_ratio self) NaN) = true ->
     geb (nth (Z.to_nat nbins - 1) (material_ratio self) NaN) (Fin x) = true ->
     Smr Mathutils.impl self (Smc Mathutils.impl self (Fin x)) =n= Fin x) /\
  (forall y,
     geb (Fin y) (nth (Z.to_nat nbins - 1) (height self) NaN) = true ->
     geb (nth 1 (height self) NaN) (Fin y) = true ->
     Smc Mathutils.impl self (Smr Mathutils.impl self (Fin y)) =n= Fin y).
Proof.
  intros Hinit Hne H Hrise.
  rewrite init_eq in Hinit by lia. injection Hinit as <-.
  unfold Smr, Smc. cbn [material_ratio height interp1d Mathutils.impl] in *.
  pose proof (material_ratio_last_full data nbins Hne ltac:(lia)) as Hlast.
  pose proof (height_descending data nbins ltac:(lia)) as Hdesc.
  assert (Hlh : length (rev (edges_of data nbins)) = S (Z.to_nat nbins))
    by (rewrite length_rev; apply length_edges_of).
  unfold height_of in *.
  rewrite material_ratio_of_fin in * by (assumption || lia).
  set (hq := rev (edges_of data nbins)) in *.
  set (mq := 100 :: map _ _) in *.
  set (n := Z.to_nat nbins) in *.
  assert (Hlm : length mq = S n).
  { unfold mq. cbn [length]. rewrite length_map, length_curve_cumsum. reflexivity. }
  assert (Hm : forall i, (1 <= i < n)%nat -> nth i mq 0 < nth (S i) mq 0).
  { intros i Hi. unfold rising_after_first in Hrise.
    rewrite forallb_forall in Hrise. specialize (Hrise i).
    rewrite length_map, Hlm in Hrise.
    specialize (Hrise ltac:(apply in_seq; lia)).
    rewrite !nth_map_Fin in Hrise by lia. apply gtb_Fin in Hrise. exact Hrise. }
  assert (Hh : forall i, (i < n)%nat -> nth (S i) hq 0 < nth i hq 0).
  { intros i Hi. specialize (Hdesc i (S i)). rewrite length_map, Hlh in Hdesc.
    specialize (Hdesc ltac:(lia)). rewrite !nth_map_Fin in Hdesc by lia.
    apply gtb_Fin in Hdesc. exact Hdesc. }
  assert (Hm0 : nth (n - 1) mq 0 < nth 0 mq 0).
  { rewrite nth_map_Fin in Hlast by lia. cbn [num_eq] in Hlast.
    specialize (Hm (n - 1)%nat ltac:(lia)).
    replace (S (n - 1)) with n in Hm by lia.
    change (nth 0 mq 0) with 100. lra. }
  destruct (round_trip_interior mq hq n Hlm Hlh ltac:(lia) Hm0 Hm Hh) as [Hx Hy].
  split.
  - intros x H1 H2. rewrite nth_map_Fin in H1, H2 by lia.
    apply geb_Fin in H1. apply geb_Fin in H2. apply Hx. split; assumption.
  - intros y H1 H2. rewrite nth_map_Fin in H1, H2 by lia.
    apply geb_Fin in H1. apply geb_Fin in H2. apply Hy. split; assumption.
Qed.

Lemma round_trip_inside_constructed_curve_witness :
  exists self,
    __init__ Mathutils.impl [0; 1; 2; 3] 4 = Some self /\
    [0; 1; 2; 3] <> [] /\ (3 <= 4)%Z /\
    rising_after_first (material_ratio self) = true /\
    geb (Fin 60) (nth 1 (material_ratio self) NaN) = true /\
    geb (nth (Z.to_nat 4 - 1) (material_ratio self) NaN) (Fin 60) = true /\
    geb (Fin 1) (nth (Z.to_nat 4 - 1) (height self) NaN) = true /\
    geb (nth 1 (height self) NaN) (Fin 1) = true /\
    Smr Mathutils.impl self (Smc Mathutils.impl self (Fin 60)) =n= Fin 60 /\
    Smc Mathutils.impl self (Smr Mathutils.impl self (Fin 1)) =n= Fin 1.
Proof.
  eexists. split; [apply init_eq; lia|].
  split; [discriminate|]. split; [lia|].
  split; [vm_compute; reflexivity|]. split; [vm_compute; reflexivity|].
  split; [vm_compute; reflexivity|]. split; [vm_compute; reflexivity|].
  split; [vm_compute; reflexivity|].
  match goal with
  | |- Smr _ ?s _ =n= _ /\ _ =>
      destruct (round_trip_inside_constructed_curve [0; 1; 2; 3] 4 s)
        as [Hx Hy];
      [apply init_eq; lia | discriminate | lia | vm_compute; reflexivity |]
  end.
  split.
  - apply (Hx 60); vm_compute; reflexivity.
  - apply (Hy 1); vm_compute; reflexivity.
Defined.
